(** * stripemeter: ingestion gateway, aggregation dispatch and billing driver

    A shallow embedding of
      - the billing driver, [packages/stripe-driver/src/index.ts];
      - the handler of POST /v1/events/ingest in the events routes of the
        API (the file that imports [../utils/auth] and [../utils/metrics]);
      - the tenant checks of the API's [utils/auth], with its API keys and
        scopes;
      - the backfill and listing handlers and the queues of the same events
        routes;
      - the handler of POST /v1/mappings, [apps/api/src/routes/mappings.ts];
      - the period label and the events of [examples/demo-emitter/index.js];
    together with the part of ECMAScript's [Date] and of its strings the
    code relies on.

    The first half of the file is the model, module by module as the code
    is laid out; the second half states and proves its properties. *)

From Stdlib Require Import ZArith QArith Qround Qabs Lia Lqa String Ascii List Bool.
From Stdlib Require Import DecimalString.
From Stdlib Require DecimalNat DecimalFacts DecimalN.
From stdpp Require Import base decidable option list strings gmap.

Set Warnings "-clear-no-such-hyp".

Local Open Scope string_scope.
Local Open Scope list_scope.
Local Open Scope Z_scope.

(* ===================================================================== *)
(** * ECMAScript time values *)
(* ===================================================================== *)

(** A time value is a number of milliseconds since 1970-01-01T00:00:00Z.
    The definitions are those of ECMA-262, section "Time Values and Time
    Range", under the names used there. *)
Module JsDate.

Definition msPerDay : Z := 86400000.
Definition msPerHour : Z := 3600000.
Definition msPerMinute : Z := 60000.
Definition msPerSecond : Z := 1000.

Definition Day (t : Z) : Z := t / msPerDay.
Definition TimeWithinDay (t : Z) : Z := t mod msPerDay.

Definition isLeap (y : Z) : bool :=
  (y mod 4 =? 0) && (negb (y mod 100 =? 0) || (y mod 400 =? 0)).

Definition DaysInYear (y : Z) : Z := if isLeap y then 366 else 365.

Definition DayFromYear (y : Z) : Z :=
  365 * (y - 1970) + (y - 1969) / 4 - (y - 1901) / 100 + (y - 1601) / 400.

(** [YearFromTime]: the largest year whose first day is not after [Day t].
    The quotient by the mean year length is off by at most one year. *)
Definition YearFromDay (d : Z) : Z :=
  let y0 := 1970 + (400 * d) / 146097 in
  if d <? DayFromYear y0 then y0 - 1
  else if DayFromYear (y0 + 1) <=? d then y0 + 1
  else y0.

Definition YearFromTime (t : Z) : Z := YearFromDay (Day t).

Definition InLeapYear (t : Z) : Z := if isLeap (YearFromTime t) then 1 else 0.

Definition DayWithinYear (t : Z) : Z := Day t - DayFromYear (YearFromTime t).

(** First day (within the year) of month [m], [m] in 0..11; [leap] is 0 or 1. *)
Definition monthStart (leap m : Z) : Z :=
  match m with
  | 0 => 0
  | 1 => 31
  | 2 => 59 + leap
  | 3 => 90 + leap
  | 4 => 120 + leap
  | 5 => 151 + leap
  | 6 => 181 + leap
  | 7 => 212 + leap
  | 8 => 243 + leap
  | 9 => 273 + leap
  | 10 => 304 + leap
  | 11 => 334 + leap
  | _ => 365 + leap
  end.

Definition monthOfDay (leap diy : Z) : Z :=
  if diy <? 31 then 0
  else if diy <? 59 + leap then 1
  else if diy <? 90 + leap then 2
  else if diy <? 120 + leap then 3
  else if diy <? 151 + leap then 4
  else if diy <? 181 + leap then 5
  else if diy <? 212 + leap then 6
  else if diy <? 243 + leap then 7
  else if diy <? 273 + leap then 8
  else if diy <? 304 + leap then 9
  else if diy <? 334 + leap then 10
  else 11.

Definition MonthFromTime (t : Z) : Z := monthOfDay (InLeapYear t) (DayWithinYear t).

Definition DateFromTime (t : Z) : Z :=
  DayWithinYear t - monthStart (InLeapYear t) (MonthFromTime t) + 1.

Definition HourFromTime (t : Z) : Z := (t / msPerHour) mod 24.
Definition MinFromTime (t : Z) : Z := (t / msPerMinute) mod 60.
Definition SecFromTime (t : Z) : Z := (t / msPerSecond) mod 60.
Definition msFromTime (t : Z) : Z := t mod msPerSecond.

(** [MakeDay year month date], [month] counted from 0 and allowed to
    overflow into the following years, as is [date]. *)
Definition MakeDay (year month date : Z) : Z :=
  let ym := year + month / 12 in
  let mn := month mod 12 in
  DayFromYear ym + monthStart (if isLeap ym then 1 else 0) mn + date - 1.

Definition MakeTime (h m s ms : Z) : Z :=
  h * msPerHour + m * msPerMinute + s * msPerSecond + ms.

Definition MakeDate (day time : Z) : Z := day * msPerDay + time.

(** [Date.prototype.setUTCDate(dt)] and [setUTCHours(h, m, s, ms)]. *)
Definition setUTCDate (t dt : Z) : Z :=
  MakeDate (MakeDay (YearFromTime t) (MonthFromTime t) dt) (TimeWithinDay t).

Definition setUTCHours (t h m s ms : Z) : Z :=
  MakeDate (Day t) (MakeTime h m s ms).

Definition DaysInMonth (y m : Z) : Z :=
  let l := if isLeap y then 1 else 0 in
  monthStart l (m + 1) - monthStart l m.

End JsDate.

(* ===================================================================== *)
(** * Strings of digits: date-only parsing and ISO formatting *)
(* ===================================================================== *)

Module JsString.
Import JsDate.

Definition digitChar (n : Z) : ascii := ascii_of_nat (48 + Z.to_nat (n mod 10)).

Definition digitOf (c : ascii) : option Z :=
  let n := Z.of_nat (nat_of_ascii c) in
  if (48 <=? n) && (n <=? 57) then Some (n - 48) else None.

Definition pad2 (n : Z) : string :=
  String (digitChar (n / 10)) (String (digitChar n) EmptyString).
Definition pad3 (n : Z) : string := String (digitChar (n / 100)) (pad2 n).
Definition pad4 (n : Z) : string := String (digitChar (n / 1000)) (pad3 n).
Definition pad6 (n : Z) : string :=
  String (digitChar (n / 100000)) (String (digitChar (n / 10000)) (pad4 n)).

(** [Date.prototype.toISOString]: YYYY-MM-DDTHH:mm:ss.sssZ, the year with a
    sign and six digits outside 0..9999. *)
Definition toISOString (t : Z) : string :=
  let y := YearFromTime t in
  (if (0 <=? y) && (y <=? 9999) then pad4 y
   else (if y <? 0 then "-" else "+") +:+ pad6 (Z.abs y))
  +:+ "-" +:+ pad2 (MonthFromTime t + 1) +:+ "-" +:+ pad2 (DateFromTime t)
  +:+ "T" +:+ pad2 (HourFromTime t) +:+ ":" +:+ pad2 (MinFromTime t)
  +:+ ":" +:+ pad2 (SecFromTime t) +:+ "." +:+ pad3 (msFromTime t) +:+ "Z".

(** The calendar fields written in a date-only string [YYYY-MM-DD]. *)
Definition parseDateOnly (s : string) : option (Z * Z * Z) :=
  match s with
  | String y1 (String y2 (String y3 (String y4 (String "-"
      (String m1 (String m2 (String "-" (String d1 (String d2 EmptyString))))))))) =>
      a ← digitOf y1; b ← digitOf y2; c ← digitOf y3; d ← digitOf y4;
      e ← digitOf m1; f ← digitOf m2; g ← digitOf d1; h ← digitOf d2;
      Some (1000 * a + 100 * b + 10 * c + d, 10 * e + f, 10 * g + h)
  | _ => None
  end.

(** [new Date(s).getTime()] for a date-only string, which ECMAScript reads
    as UTC. [None] stands for NaN (an invalid Date). The month must be
    1..12; the day may be 1..31 in any month and overflows into the next
    (the behaviour of Node's engine). Strings of another shape are outside
    this model and are mapped to NaN. *)
Definition Date_getTime (s : string) : option Z :=
  '(y, m, d) ← parseDateOnly s;
  if (1 <=? m) && (m <=? 12) && (1 <=? d) && (d <=? 31)
  then Some (MakeDate (MakeDay y (m - 1) d) 0)
  else None.

End JsString.

(* ===================================================================== *)
(** * The billing driver: packages/stripe-driver/src/index.ts *)
(* ===================================================================== *)

Module Driver.
Import JsDate JsString.

Inductive StripeEnvironment := live | test.

Record RecordUsageParams := {
  mode : StripeEnvironment;
  stripeAccount : string;
  subscriptionItemId : string;
  quantity : Q;                 (* a finite JS number, as the rational it denotes *)
  periodStart : string;         (* YYYY-MM-DD *)
  idempotencyKey : string;
}.

Record UsageSummary := {
  sum_subscriptionItemId : string;
  sum_stripeAccount : string;
  sum_periodStart : string;
  totalUsage : Z;
}.

Record CreateTestClockParams := { frozenTime : Z; name : option string }.
Record AdvanceTestClockParams := { clockId : string; adv_frozenTime : Z }.

(** ** The provider's SDK, as far as the driver uses it *)

(** A client is bound to the secret key it was constructed with. *)
Record Stripe := { apiKey : string }.

Record UsageRecordCreateParams := {
  urc_quantity : Z;
  urc_timestamp : option Z;     (* [None] is NaN *)
  urc_action : string;
}.

Record RequestOptions := {
  ro_idempotencyKey : option string;
  ro_stripeAccount : option string;
}.

Record UsageRecord := { ur_id : string }.
Record SubscriptionItem := { si_id : string }.
Record UsageRecordSummary := { urs_id : string; total_usage : option Z }.
Record ApiList := { data : list UsageRecordSummary; has_more : bool }.
Record TestClock := { tc_id : string; frozen_time : Z }.

(** What a rejected SDK promise carries: the code reads [statusCode] and
    [status], either of which may be missing. *)
Record StripeError := { statusCode : option Z; status : option Z }.

(** One request to the provider, as recorded in the trace of a run. *)
Inductive Call :=
| CreateUsageRecord (item : string) (params : UsageRecordCreateParams) (opts : RequestOptions)
| Retrieve (item : string) (account : option string)
| ListUsageRecordSummaries (item : string) (limit : Z) (starting_after : option string)
    (account : option string)
| TestClocksCreate (frozen : Z) (nm : option string)
| TestClocksAdvance (clock : string) (frozen : Z).

(** What came back for a request. *)
Inductive Outcome :=
| Failed (e : StripeError)
| GotUsageRecord (r : UsageRecord)
| GotItem (i : SubscriptionItem)
| GotList (l : ApiList)
| GotClock (c : TestClock).

(** The provider is any transition system answering these requests. *)
Class StripeApi (W : Type) := {
  api_createUsageRecord :
    Stripe -> string -> UsageRecordCreateParams -> RequestOptions -> W -> (StripeError + UsageRecord) * W;
  api_retrieve :
    Stripe -> string -> option string -> W -> (StripeError + SubscriptionItem) * W;
  api_listUsageRecordSummaries :
    Stripe -> string -> Z -> option string -> option string -> W -> (StripeError + ApiList) * W;
  api_testClocksCreate :
    Stripe -> Z -> option string -> W -> (StripeError + TestClock) * W;
  api_testClocksAdvance :
    Stripe -> string -> Z -> W -> (StripeError + TestClock) * W;
}.

(** ** The driver's effects: provider state, the requests made, the sleeps *)

Inductive Exn :=
| ConfigError (msg : string)          (* [throw new Error(...)] of the driver *)
| ApiError (e : StripeError).         (* a rejected SDK call *)

Record St (W : Type) := mkSt {
  world : W;
  calls : list (Stripe * Call * Outcome);   (* oldest first *)
  sleeps : list Z;                    (* [setTimeout] delays in ms, oldest first *)
}.
Arguments mkSt {W}.
Arguments world {W}.
Arguments calls {W}.
Arguments sleeps {W}.

Definition M (W A : Type) : Type := St W -> (Exn + A) * St W.

Definition ret {W A} (a : A) : M W A := fun s => (inr a, s).
Definition throw {W A} (e : Exn) : M W A := fun s => (inl e, s).
Definition bind {W A B} (m : M W A) (k : A -> M W B) : M W B :=
  fun s => match m s with
           | (inl e, s') => (inl e, s')
           | (inr a, s') => k a s'
           end.
#[global] Instance M_ret {W} : MRet (M W) := fun _ a => ret a.
#[global] Instance M_bind {W} : MBind (M W) := fun _ _ k m => bind m k.

(** [await new Promise(r => setTimeout(r, delayMs))] *)
Definition sleep {W} (delayMs : Z) : M W unit :=
  fun s => (inr tt, mkSt (world s) (calls s) (sleeps s ++ [delayMs])).

(** An SDK request on [client]: recorded, then answered by the provider. *)
Definition request {W A} (client : Stripe) (c : Call) (got : A -> Outcome)
    (run : W -> (StripeError + A) * W) : M W A :=
  fun s =>
    let '(r, w') := run (world s) in
    match r with
    | inl e => (inl (ApiError e), mkSt w' (calls s ++ [(client, c, Failed e)]) (sleeps s))
    | inr a => (inr a, mkSt w' (calls s ++ [(client, c, got a)]) (sleeps s))
    end.

Section WithProvider.
Context {W : Type} `{StripeApi W}.

Definition subscriptionItems_createUsageRecord (client : Stripe) (item : string)
    (p : UsageRecordCreateParams) (o : RequestOptions) : M W UsageRecord :=
  request client (CreateUsageRecord item p o) GotUsageRecord (api_createUsageRecord client item p o).

Definition subscriptionItems_retrieve (client : Stripe) (item : string)
    (account : option string) : M W SubscriptionItem :=
  request client (Retrieve item account) GotItem (api_retrieve client item account).

Definition subscriptionItems_listUsageRecordSummaries (client : Stripe) (item : string)
    (limit : Z) (starting_after account : option string) : M W ApiList :=
  request client (ListUsageRecordSummaries item limit starting_after account) GotList
    (api_listUsageRecordSummaries client item limit starting_after account).

Definition testClocks_create (client : Stripe) (frozen : Z) (nm : option string)
    : M W TestClock :=
  request client (TestClocksCreate frozen nm) GotClock (api_testClocksCreate client frozen nm).

Definition testClocks_advance (client : Stripe) (clock : string) (frozen : Z)
    : M W TestClock :=
  request client (TestClocksAdvance clock frozen) GotClock (api_testClocksAdvance client clock frozen).

(** ** The driver *)

Record StripeBillingDriverImpl := {
  stripeLive : Stripe;
  stripeTest : option Stripe;
}.

Record Opts := { liveKey : option string; testKey : option string }.
Record ProcessEnv := {
  STRIPE_SECRET_KEY : option string;
  STRIPE_TEST_SECRET_KEY : option string;
}.

(** [a ?? b] *)
Definition nullish {A} (a : option A) (b : A) : A := default b a.
(** A string is truthy when it is not empty. *)
Definition truthy (s : string) : bool := negb (String.eqb s "").

Definition constructor (opts : option Opts) (env : ProcessEnv) : StripeBillingDriverImpl :=
  let liveKey := nullish (opts ≫= liveKey) (nullish (STRIPE_SECRET_KEY env) "") in
  let testKey := nullish (opts ≫= testKey) (nullish (STRIPE_TEST_SECRET_KEY env) "") in
  {| stripeLive := {| apiKey := liveKey |};
     stripeTest := if truthy testKey then Some {| apiKey := testKey |} else None |}.

Definition clientForMode (this : StripeBillingDriverImpl) (mode : StripeEnvironment)
    : M W Stripe :=
  match mode with
  | test =>
      match stripeTest this with
      | None => throw (ConfigError "Stripe test client not configured (STRIPE_TEST_SECRET_KEY missing)")
      | Some c => ret c
      end
  | live => ret (stripeLive this)
  end.

(** [Math.round]: the nearest integer, a tie going up. *)
Definition Math_round (q : Q) : Z := Qfloor (q + (1 # 2))%Q.

(** [stripeAccount !== 'default' ? stripeAccount : undefined] *)
Definition accountHeader (stripeAccount : string) : option string :=
  if String.eqb stripeAccount "default" then None else Some stripeAccount.

Definition recordUsage (this : StripeBillingDriverImpl) (params : RecordUsageParams)
    : M W UsageRecord :=
  client ← clientForMode this (mode params);
  let deterministicTimestampSec :=
    (fun ms => ms / 1000) <$> Date_getTime (periodStart params) in
  subscriptionItems_createUsageRecord client (subscriptionItemId params)
    {| urc_quantity := Math_round (quantity params);
       urc_timestamp := deterministicTimestampSec;
       urc_action := "set" |}
    {| ro_idempotencyKey := Some (idempotencyKey params);
       ro_stripeAccount := accountHeader (stripeAccount params) |}.

(** [s.total_usage ?? 0], summed over one page. *)
Definition pageTotal (l : list UsageRecordSummary) : Z :=
  foldl (fun acc s => acc + nullish (total_usage s) 0) 0 l.

(** The [for (let i = 0; i < 5; i++)] loop with [n] iterations left. *)
Fixpoint listPages (n : nat) (client : Stripe) (item : string) (headers : option string)
    (startingAfter : option string) (totalUsage : Z) : M W Z :=
  match n with
  | O => ret totalUsage
  | S n' =>
      resp ← subscriptionItems_listUsageRecordSummaries client item 100 startingAfter headers;
      let totalUsage := totalUsage + pageTotal (data resp) in
      if has_more resp
      then listPages n' client item headers (urs_id <$> last (data resp)) totalUsage
      else ret totalUsage
  end.

(** The body of the [try] block: one attempt. *)
Definition summaryAttempt (client : Stripe) (subscriptionItemId periodStart stripeAccount : string)
    : M W UsageSummary :=
  let headers := accountHeader stripeAccount in
  subscriptionItems_retrieve client subscriptionItemId headers;;
  totalUsage ← listPages 5 client subscriptionItemId headers None 0;
  ret {| sum_subscriptionItemId := subscriptionItemId;
         sum_stripeAccount := stripeAccount;
         sum_periodStart := periodStart;
         totalUsage := totalUsage |}.

(** [error?.statusCode || error?.status || 0] *)
Definition errorStatus (e : Exn) : Z :=
  match e with
  | ApiError e =>
      match statusCode e with
      | Some c => if c =? 0 then nullish (status e) 0 else c
      | None => nullish (status e) 0
      end
  | ConfigError _ => 0
  end.

Definition retryable (st : Z) : bool := (st =? 429) || ((500 <=? st) && (st <? 600)).

Definition maxRetries : Z := 3.

(** The [while (true)] loop around [try { ... } catch (error) { ... }].
    [fuel] bounds the iterations of the model; [None] means the bound was
    reached. *)
Fixpoint retryLoop (fuel : nat) (client : Stripe)
    (subscriptionItemId periodStart stripeAccount : string) (attempt : Z)
    : St W -> option ((Exn + UsageSummary) * St W) :=
  fun s =>
  match fuel with
  | O => None
  | S fuel' =>
      match summaryAttempt client subscriptionItemId periodStart stripeAccount s with
      | (inr r, s') => Some (inr r, s')
      | (inl error, s') =>
          if retryable (errorStatus error) && (attempt <? maxRetries)
          then
            let delayMs := 2 ^ attempt * 250 in
            let '(_, s'') := sleep delayMs s' in
            retryLoop fuel' client subscriptionItemId periodStart stripeAccount (attempt + 1) s''
          else Some (inl error, s')
      end
  end.

Definition getUsageSummary (fuel : nat) (this : StripeBillingDriverImpl)
    (subscriptionItemId periodStart stripeAccount : string)
    : St W -> option ((Exn + UsageSummary) * St W) :=
  let client := stripeLive this in
  retryLoop fuel client subscriptionItemId periodStart stripeAccount 0.

Definition createTestClock (this : StripeBillingDriverImpl) (params : CreateTestClockParams)
    : M W TestClock :=
  client ← clientForMode this test;
  testClocks_create client (frozenTime params) (name params).

Definition advanceTestClock (this : StripeBillingDriverImpl) (params : AdvanceTestClockParams)
    : M W TestClock :=
  client ← clientForMode this test;
  testClocks_advance client (clockId params) (adv_frozenTime params).

End WithProvider.

(** ** Two providers to run the driver against *)

(** A scripted provider answers the requests it receives with the
    outcomes of a list, in order, whatever the request; an outcome of the
    wrong kind, or none left, is a failure without a status. *)
Definition Script := list Outcome.

Definition noStatus : StripeError := {| statusCode := None; status := None |}.
Definition httpError (code : Z) : StripeError := {| statusCode := Some code; status := None |}.

Definition scripted {A} (pick : Outcome -> option A) (w : Script) : (StripeError + A) * Script :=
  match w with
  | [] => (inl noStatus, [])
  | Failed e :: w' => (inl e, w')
  | o :: w' => (match pick o with Some a => inr a | None => inl noStatus end, w')
  end.

#[global] Instance Script_api : StripeApi Script := {|
  api_createUsageRecord _ _ _ _ :=
    scripted (fun o => match o with GotUsageRecord r => Some r | _ => None end);
  api_retrieve _ _ _ :=
    scripted (fun o => match o with GotItem i => Some i | _ => None end);
  api_listUsageRecordSummaries _ _ _ _ _ :=
    scripted (fun o => match o with GotList l => Some l | _ => None end);
  api_testClocksCreate _ _ _ :=
    scripted (fun o => match o with GotClock c => Some c | _ => None end);
  api_testClocksAdvance _ _ _ :=
    scripted (fun o => match o with GotClock c => Some c | _ => None end);
|}.

(** A ledger keeps, per subscription item and timestamp, the quantity on
    record; it applies a usage record as the provider documents the two
    actions: [set] replaces the quantity, [increment] adds to it. *)
Definition Ledger := gmap (string * option Z) Z.

Definition applyUsage (item : string) (p : UsageRecordCreateParams) (w : Ledger) : Ledger :=
  if String.eqb (urc_action p) "set"
  then <[(item, urc_timestamp p) := urc_quantity p]> w
  else <[(item, urc_timestamp p) := default 0 (w !! (item, urc_timestamp p)) + urc_quantity p]> w.

#[global] Instance Ledger_api : StripeApi Ledger := {|
  api_createUsageRecord _ item p _ w := (inr {| ur_id := "ur" |}, applyUsage item p w);
  api_retrieve _ item _ w := (inr {| si_id := item |}, w);
  api_listUsageRecordSummaries _ _ _ _ _ w := (inr {| data := []; has_more := false |}, w);
  api_testClocksCreate _ frozen _ w := (inr {| tc_id := "clock"; frozen_time := frozen |}, w);
  api_testClocksAdvance _ clock frozen w := (inr {| tc_id := clock; frozen_time := frozen |}, w);
|}.

End Driver.

(* ===================================================================== *)
(** * The push idempotency key *)
(* ===================================================================== *)

Module Core.
Import JsString.

(** [Number.prototype.toFixed(6)] on a finite number below 10^21, taken
    as the rational it denotes: the sign, then the integer [n] nearest to
    [|x| * 10^6] (the larger one on a tie) written with its last six digits
    after the point. *)
Definition scaled6 (x : Q) : Z := Qfloor (Qabs x * 1000000 + (1 # 2))%Q.

Definition wholeDigits (n : Z) : string :=
  NilZero.string_of_uint (N.to_uint (Z.to_N n)).

Definition toFixed6 (x : Q) : string :=
  let n := scaled6 x in
  (if Qlt_le_dec x 0 then "-" else "")
  +:+ wholeDigits (n / 1000000) +:+ "." +:+ pad6 (n mod 1000000).

Record StripeKeyParams := {
  tenantId : string;
  subscriptionItemId : string;
  periodStart : string;
  quantity : Q;
}.

(** Modelled from the spec: [generateStripeIdempotencyKey] belongs to the
    package @stripemeter/core, which is not among the sources (only the
    writer's test calling it is). The spec has it as the "deterministic
    string built from (tenantId, subscriptionItemId, periodStart, quantity
    formatted to exactly six decimal places), prefixed to distinguish it from
    ingestion keys", and the test fixes the prefix and the separator; the six
    decimal places are taken as those of [toFixed(6)]. *)
Definition generateStripeIdempotencyKey (params : StripeKeyParams) : string :=
  "push:" +:+ tenantId params +:+ ":" +:+ subscriptionItemId params +:+ ":"
  +:+ periodStart params +:+ ":" +:+ toFixed6 (quantity params).

End Core.

(* ===================================================================== *)
(** * Tenant checks: the API's utils/auth *)
(* ===================================================================== *)

Module Auth.

(** The environment variables the code reads, as the tests it makes of
    them: [BYPASS_AUTH === '1'], [NODE_ENV === 'test'], [FORCE_AUTH === '1']. *)
Record ProcessEnv := {
  BYPASS_AUTH : bool;
  NODE_ENV_test : bool;
  FORCE_AUTH : bool;
}.

(** [request.tenant?.organisationId] and the headers the route reads. *)
Inductive HeaderValue :=
| HeaderAbsent
| HeaderString (v : string)
| HeaderArray (vs : list string).

Record Request := {
  organisationId : option string;
  idempotencyKeyHeader : HeaderValue;      (* headers['idempotency-key'] *)
  requestId : string;
}.

Definition testBypass (env : ProcessEnv) : bool :=
  NODE_ENV_test env && negb (FORCE_AUTH env).

(** A string is falsy when it is missing or empty. *)
Definition truthy (s : option string) : bool :=
  match s with
  | Some v => negb (String.eqb v "")
  | None => false
  end.

Definition zeroTenant : string := "00000000-0000-0000-0000-000000000000".

(** [getTenantId]; [None] is [throw new Error('tenant_not_resolved')]. *)
Definition getTenantId (env : ProcessEnv) (request : Request) : option string :=
  if BYPASS_AUTH env || testBypass env then Some zeroTenant
  else
    let orgId := organisationId request in
    if negb (truthy orgId) then None else orgId.

(** What [requireTenantMatch] does: return true, or send the status and
    return false. *)
Inductive TenantCheck :=
| Allowed
| Denied (status : Z).

Definition requireTenantMatch (env : ProcessEnv) (request : Request)
    (providedTenantId : option string) : TenantCheck :=
  if BYPASS_AUTH env || testBypass env then Allowed
  else
    let orgId := organisationId request in
    if negb (truthy orgId) then Denied 401
    else if negb (truthy providedTenantId) then Allowed
    else if negb (bool_decide (providedTenantId = orgId)) then Denied 403
    else Allowed.

End Auth.

(* ===================================================================== *)
(** * The ingestion route: POST /v1/events/ingest *)
(* ===================================================================== *)

Module Ingest.
Import JsDate JsString Auth.

(** An event of a request body that passed [ingestEventRequestSchema]. *)
Record Event := {
  tenantId : string;
  metric : string;
  customerRef : string;
  resourceId : option string;
  quantity : Q;
  ts : string;
  meta : option string;
  idempotencyKey : option string;
  source : option string;
}.

(** An event as handed to the repository (and as the repository returns
    it): the key is decided, [ts] is a Date, [source] is filled in. *)
Record NewEvent := {
  ne_tenantId : string;
  ne_metric : string;
  ne_customerRef : string;
  ne_resourceId : option string;
  ne_quantity : Q;
  ne_ts : Z;
  ne_meta : option string;
  ne_idempotencyKey : string;
  ne_source : string;
}.

Record KeyInput := {
  k_tenantId : string;
  k_metric : string;
  k_customerRef : string;
  k_resourceId : option string;
  k_ts : string;
}.

Inductive Status := accepted | duplicate | error.

Record Result := {
  r_idempotencyKey : string;
  r_status : Status;
  r_error : option string;
}.

Record IngestResponse := {
  resp_accepted : nat;
  resp_duplicates : nat;
  resp_requestId : string;
  resp_results : list Result;
  resp_errors : option (list (nat * string));   (* present when not empty *)
}.

Record AggregationJob := {
  j_tenantId : string;
  j_metric : string;
  j_customerRef : string;
  j_periodStart : string;
}.

Record JobOpts := {
  delay : Z;
  jobId : string;
  removeOnComplete : Z;
  removeOnFail : Z;
}.

Record BulkJob := {
  job_name : string;
  job_data : AggregationJob;
  job_opts : JobOpts;
}.

(** What the handler does with the request. *)
Inductive Reply :=
| Send (body : IngestResponse)          (* [reply.send] *)
| Refused (status : Z)                  (* sent by [requireTenantMatch] *)
| Thrown (msg : string).                (* an exception leaves the handler *)

(** ** What the route is given *)

(** Of @stripemeter/core, which is not among the sources, the route uses
    the key derivation; of the Date built from an event's [ts] it uses the
    time value. Both are any functions here. *)
Class CoreLib := {
  generateIdempotencyKey : KeyInput -> string;
  Date_parse : string -> Z;
}.

(** The events repository: [upsertBatch] answers with the inserted events
    and the duplicate keys, or throws ([None]). *)
Class EventsRepository (DB : Type) := {
  upsertBatch : list NewEvent -> DB -> option (list NewEvent * list string) * DB;
}.

(** The state a request runs in: the repository's, the module's in-memory
    fallback, and the jobs [aggregationQueue.addBulk] took. *)
Record State (DB : Type) := mkState {
  db : DB;
  inMemoryIdempotencyKeys : gset string;
  inMemoryEvents : list NewEvent;
  queued : list BulkJob;
}.
Arguments mkState {DB}.
Arguments db {DB}.
Arguments inMemoryIdempotencyKeys {DB}.
Arguments inMemoryEvents {DB}.
Arguments queued {DB}.

(** The server: its environment, whether [createQueue] gave a queue,
    whether [addBulk] on that queue resolves for the jobs it is given (it
    rejects otherwise), and the clock read at each turn of the event loop. *)
Record Server := {
  env : ProcessEnv;
  aggregationQueue : bool;
  addBulk : list BulkJob -> bool;
  now : nat -> Z;
}.

Definition tooFarMsg : string := "Event timestamp too far in the future".

(** [a || b], on strings that may be missing. *)
Definition orElse (a b : option string) : option string :=
  if truthy a then a else b.

Definition headerIdempotencyKey (request : Request) : option string :=
  match idempotencyKeyHeader request with
  | HeaderArray vs => head vs
  | HeaderString v => Some v
  | HeaderAbsent => None
  end.

(** The accumulators of the event loop. *)
Record Loop := mkLoop {
  errors : list (nat * string);
  results : list Result;
  eventsToInsert : list NewEvent;
}.

(** [periodStart.setUTCDate(1); periodStart.setUTCHours(0, 0, 0, 0)] *)
Definition periodStart (t : Z) : Z := setUTCHours (setUTCDate t 1) 0 0 0 0.

Definition aggregationKey (tenant metric customer period : string) : string :=
  tenant +:+ ":" +:+ metric +:+ ":" +:+ customer +:+ ":" +:+ period.

(** [aggregationJobs], a Map in insertion order: [has] and [set] of a new key. *)
Definition has (m : list (string * AggregationJob)) (key : string) : bool :=
  bool_decide (key ∈ m.*1).

(** The key and the job data the grouping loop computes for an inserted
    event: [periodStart] is the event's Date set to the first of its month,
    midnight UTC, in ISO form. *)
Definition periodStartISO (event : NewEvent) : string :=
  toISOString (periodStart (ne_ts event)).

Definition eventJobKey (event : NewEvent) : string :=
  aggregationKey (ne_tenantId event) (ne_metric event) (ne_customerRef event)
    (periodStartISO event).

Definition eventJob (event : NewEvent) : AggregationJob :=
  {| j_tenantId := ne_tenantId event;
     j_metric := ne_metric event;
     j_customerRef := ne_customerRef event;
     j_periodStart := periodStartISO event |}.

Definition aggregationJobs (inserted : list NewEvent) : list (string * AggregationJob) :=
  foldl (fun m event =>
           if has m (eventJobKey event) then m
           else m ++ [(eventJobKey event, eventJob event)])
        [] inserted.

Definition bulkJob (job : AggregationJob) : BulkJob :=
  {| job_name := "aggregate-counter";
     job_data := job;
     job_opts := {| delay := 1000;
                    jobId := aggregationKey (j_tenantId job) (j_metric job)
                               (j_customerRef job) (j_periodStart job);
                    removeOnComplete := 100;
                    removeOnFail := 1000 |} |}.

Definition jobs (inserted : list NewEvent) : list BulkJob :=
  bulkJob <$> (aggregationJobs inserted).*2.

(** The in-memory stand-in for the repository, used under BYPASS_AUTH when
    the repository inserted nothing and reported no duplicate. *)
Definition simulate (eventsToInsert : list NewEvent) (keys : gset string)
    : list NewEvent * list string * gset string :=
  foldl (fun '(newlyInserted, dupKeys, keys) e =>
           let key := ne_idempotencyKey e in
           if bool_decide (key ∈ keys) then (newlyInserted, dupKeys ++ [key], keys)
           else (newlyInserted ++ [e], dupKeys, {[key]} ∪ keys))
        ([], [], keys) eventsToInsert.

(** The results for the events handed to the repository. *)
Definition statusResults (eventsToInsert inserted : list NewEvent)
    (duplicates : list string) : list Result :=
  let insertedKeys : gset string := list_to_set (ne_idempotencyKey <$> inserted) in
  let duplicateKeys : gset string := list_to_set duplicates in
  foldl (fun results e =>
           let key := ne_idempotencyKey e in
           if bool_decide (key ∈ insertedKeys)
           then results ++ [{| r_idempotencyKey := key; r_status := accepted; r_error := None |}]
           else if bool_decide (key ∈ duplicateKeys)
           then results ++ [{| r_idempotencyKey := key; r_status := duplicate; r_error := None |}]
           else results)
        [] eventsToInsert.

Section Route.
Context `{CoreLib} {DB : Type} `{EventsRepository DB}.
Context (server : Server).

(** [event.tenantId] after [if (BYPASS_AUTH !== '1') event.tenantId = authTenantId]. *)
Definition eventTenantId (authTenantId : string) (event0 : Event) : string :=
  if BYPASS_AUTH (env server) then tenantId event0 else authTenantId.

(** [event.idempotencyKey || headerIdempotencyKey || generateIdempotencyKey({...})] *)
Definition eventKey (authTenantId : string) (request : Request) (event0 : Event)
    : string :=
  default
    (generateIdempotencyKey
       {| k_tenantId := eventTenantId authTenantId event0;
          k_metric := metric event0;
          k_customerRef := customerRef event0;
          k_resourceId := resourceId event0;
          k_ts := ts event0 |})
    (orElse (idempotencyKey event0) (orElse (headerIdempotencyKey request) None)).

(** [eventTime > maxFuture], the clock being read at turn [i]. *)
Definition tooFar (i : nat) (event0 : Event) : bool :=
  let eventTime := Date_parse (ts event0) in
  let maxFuture := now server i + 60 * 60 * 1000 in
  eventTime >? maxFuture.

(** The object pushed on [eventsToInsert]. *)
Definition prepared (authTenantId : string) (request : Request) (event0 : Event)
    : NewEvent :=
  {| ne_tenantId := eventTenantId authTenantId event0;
     ne_metric := metric event0;
     ne_customerRef := customerRef event0;
     ne_resourceId := resourceId event0;
     ne_quantity := quantity event0;
     ne_ts := Date_parse (ts event0);
     ne_meta := meta event0;
     ne_idempotencyKey := eventKey authTenantId request event0;
     ne_source := default "http" (orElse (source event0) None) |}.

(** One turn of [for (let i = 0; i < eventBatch.length; i++)], after the
    tenant check of event [i] passed. The key derivation and the Date being
    total functions, nothing throws inside the [try] and its [catch] is not
    entered. *)
Definition processEvent (authTenantId : string) (request : Request) (i : nat)
    (event0 : Event) (acc : Loop) : Loop :=
  if tooFar i event0 then
    mkLoop (errors acc ++ [(i, tooFarMsg)])
           (results acc ++ [{| r_idempotencyKey := eventKey authTenantId request event0;
                               r_status := error; r_error := Some tooFarMsg |}])
           (eventsToInsert acc)
  else
    mkLoop (errors acc) (results acc)
           (eventsToInsert acc ++ [prepared authTenantId request event0]).

(** The loop from index [i] on; [inr status] when [requireTenantMatch]
    refused an event and the handler returned. *)
Fixpoint processEvents (authTenantId : string) (request : Request) (i : nat)
    (eventBatch : list Event) (acc : Loop) : Loop + Z :=
  match eventBatch with
  | [] => inl acc
  | event0 :: rest =>
      match requireTenantMatch (env server) request (Some (tenantId event0)) with
      | Denied status => inr status
      | Allowed =>
          processEvents authTenantId request (S i) rest
            (processEvent authTenantId request i event0 acc)
      end
  end.

(** The insertion: the repository's answer, or under BYPASS_AUTH the
    in-memory stand-in; [None] when the repository threw and the exception
    is rethrown. *)
Definition persist (eventsToInsert : list NewEvent) (st : State DB)
    : option (list NewEvent * list string * State DB) :=
  let '(res, db') := upsertBatch eventsToInsert (db st) in
  let answer :=
    match res with
    | Some (inserted, duplicates) => Some (inserted, duplicates)
    | None => if BYPASS_AUTH (env server) then Some ([], []) else None
    end in
  '(inserted, duplicates) ← answer;
  if BYPASS_AUTH (env server)
     && negb (bool_decide (eventsToInsert = []))
     && bool_decide (inserted = []) && bool_decide (duplicates = [])
  then
    let '(newlyInserted, dupKeys, keys) :=
      simulate eventsToInsert (inMemoryIdempotencyKeys st) in
    Some (newlyInserted, dupKeys,
          mkState db' keys (inMemoryEvents st ++ newlyInserted) (queued st))
  else
    Some (inserted, duplicates,
          mkState db' (inMemoryIdempotencyKeys st) (inMemoryEvents st) (queued st)).

(** [if (inserted.length > 0 && aggregationQueue) ... await addBulk(jobs)]:
    whether the call is made and rejected, which the handler does not
    catch. *)
Definition addBulkRejected (inserted : list NewEvent) : bool :=
  negb (bool_decide (inserted = [])) && aggregationQueue server
  && negb (addBulk server (jobs inserted)).

(** The state once the call, if made, resolved. *)
Definition enqueue (inserted : list NewEvent) (st : State DB) : State DB :=
  if negb (bool_decide (inserted = [])) && aggregationQueue server
  then mkState (db st) (inMemoryIdempotencyKeys st) (inMemoryEvents st)
         (queued st ++ jobs inserted)
  else st.

(** The handler, for a body that passed the schema. *)
Definition ingest (request : Request) (eventBatch : list Event) (st : State DB)
    : Reply * State DB :=
  match getTenantId (env server) request with
  | None => (Thrown "tenant_not_resolved", st)
  | Some authTenantId =>
      match processEvents authTenantId request 0 eventBatch (mkLoop [] [] []) with
      | inr status => (Refused status, st)
      | inl loop =>
          match persist (eventsToInsert loop) st with
          | None =>
              (Thrown "upsertBatch",
               mkState (upsertBatch (eventsToInsert loop) (db st)).2
                 (inMemoryIdempotencyKeys st) (inMemoryEvents st) (queued st))
          | Some (inserted, duplicates, st1) =>
              let results :=
                results loop ++ statusResults (eventsToInsert loop) inserted duplicates in
              if addBulkRejected inserted then (Thrown "addBulk", st1) else
              let st2 := enqueue inserted st1 in
              (Send {| resp_accepted := length inserted;
                       resp_duplicates := length duplicates;
                       resp_requestId := requestId request;
                       resp_results := results;
                       resp_errors :=
                         if bool_decide (errors loop = []) then None
                         else Some (errors loop) |},
               st2)
          end
      end
  end.

End Route.

(** ** Repositories *)

(** The fallback the route builds when the database module cannot be
    loaded: [upsertBatch() { return { inserted: [], duplicates: [] } }]. *)
#[global] Instance fallbackRepository : EventsRepository unit := {|
  upsertBatch _ d := (Some ([], []), d);
|}.

(** The stored events, by idempotency key. *)
Abbreviation Table := (gmap string NewEvent).

(** Modelled from the spec: the repository of @stripemeter/database is not
    among the sources. The spec has [upsertBatch] as "an upsert-if-absent
    operation against the unique idempotency key, partitioning the outcome
    into inserted and duplicate sets": each event in turn is stored and
    reported inserted when its key is not stored yet, and its key is
    reported duplicate otherwise. *)
Definition upsertIfAbsent (eventBatch : list NewEvent) (t : Table)
    : list NewEvent * list string * Table :=
  foldl (fun '(inserted, duplicates, t) e =>
           let key := ne_idempotencyKey e in
           match t !! key with
           | Some _ => (inserted, duplicates ++ [key], t)
           | None => (inserted ++ [e], duplicates, <[key := e]> t)
           end)
        ([], [], t) eventBatch.

#[global] Instance tableRepository : EventsRepository Table := {|
  upsertBatch eventBatch t :=
    let '(inserted, duplicates, t') := upsertIfAbsent eventBatch t in
    (Some (inserted, duplicates), t');
|}.

End Ingest.

(* ===================================================================== *)
(** * String primitives of the language *)
(* ===================================================================== *)

Module JsText.

(** [s.indexOf(c)] for a one-character [c]; [None] is -1. *)
Fixpoint indexOf (c : ascii) (s : string) : option nat :=
  match s with
  | EmptyString => None
  | String a r => if Ascii.eqb a c then Some 0%nat else S <$> indexOf c r
  end.

(** [s.startsWith(p)] *)
Fixpoint startsWith (p s : string) : bool :=
  match p, s with
  | EmptyString, _ => true
  | String a p', String b s' => Ascii.eqb a b && startsWith p' s'
  | String _ _, EmptyString => false
  end.

(** [s.slice(n)] and [s.substring(n)] for [n >= 0]. *)
Fixpoint sliceFrom (n : nat) (s : string) : string :=
  match n, s with
  | O, _ => s
  | S n', String _ r => sliceFrom n' r
  | S _, EmptyString => EmptyString
  end.

(** [s.substring(0, n)] *)
Fixpoint substringTo (n : nat) (s : string) : string :=
  match n, s with
  | O, _ => EmptyString
  | S n', String a r => String a (substringTo n' r)
  | S _, EmptyString => EmptyString
  end.

(** [s.substring(s.length - 4)]: a negative start counts as 0. *)
Definition lastChars (n : nat) (s : string) : string :=
  sliceFrom (String.length s - n) s.

(** [s.split(c)] for a one-character separator. *)
Fixpoint split (c : ascii) (s : string) : list string :=
  match s with
  | EmptyString => [EmptyString]
  | String a r =>
      if Ascii.eqb a c then EmptyString :: split c r
      else match split c r with
           | h :: t => String a h :: t
           | [] => [String a EmptyString]
           end
  end.

(** [l.join(c)] *)
Fixpoint join (c : string) (l : list string) : string :=
  match l with
  | [] => EmptyString
  | [x] => x
  | x :: r => x +:+ c +:+ join c r
  end.

(** [l.filter(Boolean)] on strings: the empty string is dropped. *)
Definition filterBoolean (l : list string) : list string :=
  List.filter (fun x => negb (String.eqb x "")) l.

End JsText.

(* ===================================================================== *)
(** * Numbers in strings *)
(* ===================================================================== *)

Module JsNumber.
Import JsString.

(** [n.toString()] for a non-negative integer. *)
Definition toString (n : nat) : string := NilZero.string_of_uint (Nat.to_uint n).

(** [s.padStart(n, c)] for a one-character [c]. *)
Definition padStart (n : nat) (c : ascii) (s : string) : string :=
  string_of_list_ascii (replicate (n - String.length s) c) +:+ s.

(** White space as [parseInt] skips it, within ASCII. *)
Definition isWhiteSpace (c : ascii) : bool :=
  let n := nat_of_ascii c in
  ((9 <=? n) && (n <=? 13))%nat || (n =? 32)%nat.

Fixpoint trimStart (s : string) : string :=
  match s with
  | String c r => if isWhiteSpace c then trimStart r else s
  | EmptyString => s
  end.

(** The value of the longest prefix of decimal digits; [acc] is the value
    read so far, [None] before the first digit. *)
Fixpoint digitsPrefix (s : string) (acc : option Z) : option Z :=
  match s with
  | String c r =>
      match digitOf c with
      | Some d => digitsPrefix r (Some (10 * default 0 acc + d))
      | None => acc
      end
  | EmptyString => acc
  end.

(** [parseInt(s, 10)]; [None] is NaN. The value is the integer written,
    which is what JavaScript gives below 2^53. *)
Definition parseInt10 (s : string) : option Z :=
  match trimStart s with
  | String "-" r => Z.opp <$> digitsPrefix r None
  | String "+" r => digitsPrefix r None
  | t => digitsPrefix t None
  end.

End JsNumber.

(* ===================================================================== *)
(** * API keys and scopes: the API's utils/auth *)
(* ===================================================================== *)

Module ApiKeys.
Import Auth JsText.

(** [request.tenant] *)
Record TenantContext := {
  tc_organisationId : string;
  tc_projectId : option string;
  tc_apiKeyId : string;
  tc_apiKeyPrefix : string;
  tc_scopes : list string;
}.

(** A row of the table [apiKeys], with the columns the code reads. *)
Record ApiKeyRow := {
  row_id : string;
  row_organisationId : string;
  row_projectId : option string;
  row_prefix : string;
  row_lastFour : string;
  row_secretHash : string;
  row_active : bool;
  row_revokedAt : option Z;
  row_expiresAt : option Z;
  row_scopes : option string;
}.

(** [createHmac('sha256', salt).update(apiKey).digest('base64url')]: any
    function of the salt and the key. *)
Class Crypto := { hmacSha256Base64url : string -> string -> string }.

(** What [verifyApiKey] does: set [request.tenant], or send 401 with an
    error, counting the failure under a reason. *)
Inductive AuthResult :=
| Authenticated (tenant : TenantContext)
| Unauthorized (status : Z) (error : string) (reason : string).

(** [a || b] on header values: an array is truthy, also an empty one. *)
Definition headerTruthy (h : HeaderValue) : bool :=
  match h with
  | HeaderAbsent => false
  | HeaderString v => negb (String.eqb v "")
  | HeaderArray _ => true
  end.

(** [Array.isArray(header) ? header[0] : header] *)
Definition firstValue (h : HeaderValue) : option string :=
  match h with
  | HeaderArray vs => head vs
  | HeaderString v => Some v
  | HeaderAbsent => None
  end.

(** [process.env.API_KEY_SALT || 'dev-api-key-salt'] *)
Definition getKeyDerivationSalt (API_KEY_SALT : option string) : string :=
  if truthy API_KEY_SALT then default "" API_KEY_SALT else "dev-api-key-salt".

(** [.where(and(eq(apiKeys.prefix, prefix), eq(apiKeys.lastFour, lastFour))).limit(10)]
    over the rows of the table, in the order the database yields them. *)
Definition selectCandidates (table : list ApiKeyRow) (prefix lastFour : string)
    : list ApiKeyRow :=
  take 10 (List.filter (fun k => String.eqb (row_prefix k) prefix
                                && String.eqb (row_lastFour k) lastFour) table).

(** The test of [candidates.find]. *)
Definition usable (computed : string) (now : Z) (k : ApiKeyRow) : bool :=
  String.eqb (row_secretHash k) computed && row_active k
  && negb (bool_decide (is_Some (row_revokedAt k)))
  && match row_expiresAt k with
     | None => true
     | Some expiresAt => expiresAt >? now
     end.

(** [(match.scopes || '').split(',').filter(Boolean)] *)
Definition parseScopes (scopes : option string) : list string :=
  filterBoolean (split "," (if truthy scopes then default "" scopes else "")).

Section Verify.
Context `{Crypto}.

Definition verifyApiKey (API_KEY_SALT : option string) (now : Z) (table : list ApiKeyRow)
    (authorization xApiKey : HeaderValue) : AuthResult :=
  let header := if headerTruthy authorization then authorization else xApiKey in
  let apiKeyRaw := firstValue header in
  if negb (truthy apiKeyRaw) then Unauthorized 401 "Missing API key" "missing_api_key"
  else
    let raw := default "" apiKeyRaw in
    let apiKey := if startsWith "Bearer " raw then sliceFrom 7 raw else raw in
    match indexOf "." apiKey with
    | None | Some O => Unauthorized 401 "Invalid API key format" "invalid_format"
    | Some dotIndex =>
        let prefix := substringTo dotIndex apiKey in
        let lastFour := lastChars 4 apiKey in
        let candidates := selectCandidates table prefix lastFour in
        let computed := hmacSha256Base64url (getKeyDerivationSalt API_KEY_SALT) apiKey in
        match List.find (usable computed now) candidates with
        | None => Unauthorized 401 "Invalid API key" "invalid_key"
        | Some match_ =>
            Authenticated
              {| tc_organisationId := row_organisationId match_;
                 tc_projectId := row_projectId match_;
                 tc_apiKeyId := row_id match_;
                 tc_apiKeyPrefix := row_prefix match_;
                 tc_scopes := parseScopes (row_scopes match_) |}
        end
    end.

End Verify.

(** What the pre-handler built by [requireScopes(scopes)] does: return, or
    send 403, counting the denial under the scope that is missing. *)
Inductive ScopeCheck :=
| Granted
| Forbidden (status : Z) (scope : string).

(** [for (const s of scopes) if (!have.has(s)) ...] *)
Fixpoint checkScopes (have : gset string) (scopes : list string) : ScopeCheck :=
  match scopes with
  | [] => Granted
  | s :: rest => if bool_decide (s ∈ have) then checkScopes have rest
                 else Forbidden 403 s
  end.

Definition requireScopes (scopes : list string) (env : ProcessEnv)
    (tenant : option TenantContext) : ScopeCheck :=
  if BYPASS_AUTH env || testBypass env then Granted
  else
    let have : gset string := list_to_set (default [] (tc_scopes <$> tenant)) in
    checkScopes have scopes.

End ApiKeys.

(* ===================================================================== *)
(** * The queues of the events routes *)
(* ===================================================================== *)

Module Queues.
Import Auth.

Record DefaultJobOptions := {
  d_removeOnComplete : Z;
  d_removeOnFail : Z;
  d_attempts : Z;
  d_backoffType : string;
  d_backoffDelay : Z;
}.

(** What [createQueue] returns when it returns a queue: the stub of the
    test environment, whose [add] and [addBulk] do nothing, or a queue on
    the Redis connection. *)
Inductive Queue :=
| StubQueue
| RedisQueue (name : string) (defaultJobOptions : DefaultJobOptions).

(** [createQueue(name)]; [None] is [undefined]. [redisConn] says whether
    the database module gave a connection. *)
Definition createQueue (env : ProcessEnv) (USE_REDIS_IN_TEST : option string)
    (redisConn : bool) (name : string) : option Queue :=
  let isTest := NODE_ENV_test env in
  if isTest && negb (truthy USE_REDIS_IN_TEST) then Some StubQueue
  else if negb redisConn then None
  else Some (RedisQueue name
               {| d_removeOnComplete := 100; d_removeOnFail := 1000; d_attempts := 3;
                  d_backoffType := "exponential"; d_backoffDelay := 2000 |}).

End Queues.

(* ===================================================================== *)
(** * The backfill routes: POST and GET /v1/events/backfill *)
(* ===================================================================== *)

Module Backfill.
Import JsDate JsString JsText JsNumber Auth Queues.

(** [JSON.stringify] of the events array of a body: any function. *)
Class JsonEvents (E : Type) := { JSON_stringify : list E -> string }.

(** [[request.id], [request.headers['user-agent']], [request.ip]] *)
Record Metadata := {
  md_requestId : string;
  md_userAgent : HeaderValue;
  md_ip : string;
}.

(** A backfill operation, as the route builds it and as a repository
    returns it: any of its properties may be missing. *)
Record Operation := {
  op_id : option string;
  op_operationId : option string;
  op_tenantId : option string;
  op_metric : option string;
  op_customerRef : option string;
  op_periodStart : option string;
  op_periodEnd : option string;
  op_status : option string;
  op_reason : option string;
  op_actor : option string;
  op_sourceType : option string;
  op_sourceData : option string;
  op_sourceUrl : option string;
  op_totalEvents : option Z;
  op_processedEvents : option Z;
  op_failedEvents : option Z;
  op_duplicateEvents : option Z;
  op_createdAt : option string;
  op_updatedAt : option string;
  op_metadata : option Metadata;
}.

(** [{}] *)
Definition emptyOperation : Operation :=
  {| op_id := None; op_operationId := None; op_tenantId := None; op_metric := None;
     op_customerRef := None; op_periodStart := None; op_periodEnd := None;
     op_status := None; op_reason := None; op_actor := None; op_sourceType := None;
     op_sourceData := None; op_sourceUrl := None; op_totalEvents := None;
     op_processedEvents := None; op_failedEvents := None; op_duplicateEvents := None;
     op_createdAt := None; op_updatedAt := None; op_metadata := None |}.

(** The job handed to [backfillQueue.add('process-backfill', data, opts)]. *)
Record BackfillJob := {
  bj_name : string;
  bj_operationId : option string;
  bj_tenantId : option string;
  bj_metric : string;
  bj_customerRef : option string;
  bj_periodStart : string;
  bj_periodEnd : string;
  bj_sourceType : string;
  bj_sourceData : string;
  bj_sourceUrl : option string;
  bj_reason : string;
  bj_actor : string;
  bj_jobId : option string;
  bj_attempts : Z;
  bj_backoffType : string;
  bj_backoffDelay : Z;
}.

(** The query of GET /v1/events/backfill, and what is passed to
    [backfillRepo.list]. *)
Record ListQuery := {
  q_tenantId : option string;
  q_status : option string;
  q_limit : option Z;
  q_offset : option Z;
}.

(** The backfill repository: each method answers or throws ([None]);
    [create] answers with an object, [getById] with one or with null. *)
Class BackfillRepository (DB : Type) := {
  create : Operation -> DB -> option Operation * DB;
  getById : string -> DB -> option (option Operation) * DB;
  list_ : ListQuery -> DB -> option (list Operation) * DB;
}.

(** The state a request runs in: the repository's, the module's in-memory
    operations, and the jobs [backfillQueue.add] took. *)
Record State (DB : Type) := mkState {
  db : DB;
  inMemoryBackfillOps : list Operation;
  queued : list BackfillJob;
}.
Arguments mkState {DB}.
Arguments db {DB}.
Arguments inMemoryBackfillOps {DB}.
Arguments queued {DB}.

(** The server: its environment, the queue [createQueue('backfill')]
    gave, whether [add] on a queue of the Redis connection resolves for a
    job (it rejects otherwise), and the clock, read at each [new Date()] in
    turn. *)
Record Server := {
  env : ProcessEnv;
  MAX_DIRECT_BACKFILL_SIZE : option string;
  backfillQueue : option Queue;
  redisAdd : BackfillJob -> bool;
  now : nat -> Z;
}.

(** The text of a reply's [message]; the one of the size check is kept as
    the two numbers it is written from ([None] is NaN). *)
Inductive Message :=
| Text (s : string)
| SizeExceeded (dataSize : Z) (maxDirectSize : option Z).

(** What the POST handler does with the request. *)
Inductive Reply :=
| Pending (operationId : string)        (* 200, status 'pending' *)
| Failure (status : Z) (error : string) (message : Message)
| Refused (status : Z)                  (* sent by [requireTenantMatch] *)
| Thrown (msg : string).                (* an exception leaves the handler *)

Definition zeroId : string := "00000000-0000-0000-0000-000000000000".

(** [a || b] on strings that may be missing. *)
Definition orElse (a b : option string) : option string :=
  if truthy a then a else b.

(** The id of the [n]-th operation of the in-memory store. *)
Definition inMemoryId (n : nat) : string :=
  "00000000-0000-0000-0000-" +:+ padStart 12 "0" (toString n).

Section Route.
Context {E : Type} `{JsonEvents E} {DB : Type} `{BackfillRepository DB}.

(** [validationResult.data] of a body that passed [backfillRequestSchema]. *)
Record BackfillRequestInput := {
  metric : string;
  customerRef : option string;
  periodStart : string;
  periodEnd : option string;
  events : option (list E);
  csvData : option string;
  reason : string;
}.

(** The request: what the tenant checks read, the metadata, the tenant id
    of the raw body, and the outcome of [backfillRequestSchema.safeParse]
    (the messages of the errors, or the data). *)
Record BackfillRequest := {
  auth : Request;
  userAgent : HeaderValue;
  ip : string;
  bodyTenantId : option string;
  validationResult : list string + BackfillRequestInput;
}.

Context (server : Server).

(** The source type and data: the events as JSON, else the CSV text if
    there is one and it is not empty. *)
Definition source (data : BackfillRequestInput) : option (string * string) :=
  match events data with
  | Some evs => Some ("json", JSON_stringify evs)
  | None =>
      if truthy (csvData data) then Some ("csv", default "" (csvData data))
      else None
  end.

(** [parseInt(process.env.MAX_DIRECT_BACKFILL_SIZE || '1048576', 10)] *)
Definition maxDirectSize : option Z :=
  parseInt10 (default "1048576" (orElse (MAX_DIRECT_BACKFILL_SIZE server) None)).

(** [dataSize > maxDirectSize], false against NaN. *)
Definition exceeds (dataSize : Z) (maxDirectSize : option Z) : bool :=
  match maxDirectSize with
  | Some m => dataSize >? m
  | None => false
  end.

Definition metadataOf (request : BackfillRequest) : Metadata :=
  {| md_requestId := requestId (auth request);
     md_userAgent := userAgent request;
     md_ip := ip request |}.

(** [periodEnd || periodStart] *)
Definition periodEndOf (data : BackfillRequestInput) : string :=
  default (periodStart data) (orElse (periodEnd data) None).

(** The operation built under BYPASS_AUTH, the store holding [n] operations. *)
Definition inMemoryOperation (request : BackfillRequest) (data : BackfillRequestInput)
    (tenantId : option string) (sourceType sourceData : string) (n : nat) : Operation :=
  {| op_id := Some (inMemoryId (n + 1));
     op_operationId := None;
     op_tenantId := tenantId;
     op_metric := Some (metric data);
     op_customerRef := customerRef data;
     op_periodStart := Some (periodStart data);
     op_periodEnd := Some (periodEndOf data);
     op_status := Some "pending";
     op_reason := Some (reason data);
     op_actor := Some "api:backfill";
     op_sourceType := Some sourceType;
     op_sourceData := Some sourceData;
     op_sourceUrl := None;
     op_totalEvents := Some 0;
     op_processedEvents := Some 0;
     op_failedEvents := Some 0;
     op_duplicateEvents := Some 0;
     op_createdAt := Some (toISOString (now server 0));
     op_updatedAt := Some (toISOString (now server 1));
     op_metadata := Some (metadataOf request) |}.

(** The operation handed to [backfillRepo.create] otherwise. *)
Definition newOperation (request : BackfillRequest) (data : BackfillRequestInput)
    (tenantId : option string) (sourceType sourceData : string) : Operation :=
  {| op_id := None;
     op_operationId := None;
     op_tenantId := tenantId;
     op_metric := Some (metric data);
     op_customerRef := customerRef data;
     op_periodStart := Some (periodStart data);
     op_periodEnd := Some (periodEndOf data);
     op_status := Some "pending";
     op_reason := Some (reason data);
     op_actor := Some "api:backfill";
     op_sourceType := Some sourceType;
     op_sourceData := Some sourceData;
     op_sourceUrl := None;
     op_totalEvents := None;
     op_processedEvents := None;
     op_failedEvents := None;
     op_duplicateEvents := None;
     op_createdAt := None;
     op_updatedAt := None;
     op_metadata := Some (metadataOf request) |}.

(** "Create backfill operation record": the operation, or [None] when
    [backfillRepo.create] threw outside BYPASS_AUTH. Under BYPASS_AUTH the
    operation is pushed on the in-memory store and the repository is asked
    to persist it, whatever comes of that. *)
Definition createOperation (request : BackfillRequest) (data : BackfillRequestInput)
    (tenantId : option string) (sourceType sourceData : string) (st : State DB)
    : option Operation * State DB :=
  if BYPASS_AUTH (env server) then
    let operation :=
      inMemoryOperation request data tenantId sourceType sourceData
        (length (inMemoryBackfillOps st)) in
    let '(_, db') := create operation (db st) in
    (Some operation, mkState db' (inMemoryBackfillOps st ++ [operation]) (queued st))
  else
    let '(res, db') :=
      create (newOperation request data tenantId sourceType sourceData) (db st) in
    (res, mkState db' (inMemoryBackfillOps st) (queued st)).

Definition backfillJob (data : BackfillRequestInput) (tenantId : option string)
    (sourceType sourceData : string) (operation : Operation) : BackfillJob :=
  {| bj_name := "process-backfill";
     bj_operationId := op_id operation;
     bj_tenantId := tenantId;
     bj_metric := metric data;
     bj_customerRef := customerRef data;
     bj_periodStart := periodStart data;
     bj_periodEnd := periodEndOf data;
     bj_sourceType := sourceType;
     bj_sourceData := sourceData;
     bj_sourceUrl := None;
     bj_reason := reason data;
     bj_actor := "api:backfill";
     bj_jobId := op_id operation;
     bj_attempts := 3;
     bj_backoffType := "exponential";
     bj_backoffDelay := 5000 |}.

(** Whether [if (backfillQueue) await backfillQueue.add(...)] goes through:
    the [add] of the stub always resolves. *)
Definition addResolves (job : BackfillJob) : bool :=
  match backfillQueue server with
  | Some (RedisQueue _ _) => redisAdd server job
  | Some StubQueue | None => true
  end.

(** The state once it went through. *)
Definition enqueue (job : BackfillJob) (st : State DB) : State DB :=
  match backfillQueue server with
  | Some _ => mkState (db st) (inMemoryBackfillOps st) (queued st ++ [job])
  | None => st
  end.

(** [(operation && operation.id) || operation?.operationId || '0000...'] *)
Definition replyId (operation : Operation) : string :=
  default zeroId (orElse (op_id operation) (orElse (op_operationId operation) None)).

Definition internalError : Reply :=
  Failure 500 "Internal Server Error" (Text "Failed to process backfill request").

(** The end of the handler's [try] block: the operation is created, the job
    queued and the reply sent; what throws on the way is caught and answered
    500. *)
Definition createAndQueue (request : BackfillRequest) (data : BackfillRequestInput)
    (tenantId : option string) (sourceType sourceData : string) (st : State DB)
    : Reply * State DB :=
  match createOperation request data tenantId sourceType sourceData st with
  | (None, st1) => (internalError, st1)
  | (Some operation, st1) =>
      let job := backfillJob data tenantId sourceType sourceData operation in
      if addResolves job then (Pending (replyId operation), enqueue job st1)
      else (internalError, st1)
  end.

(** The handler of POST /v1/events/backfill. *)
Definition postBackfill (request : BackfillRequest) (st : State DB) : Reply * State DB :=
  match requireTenantMatch (env server) (auth request) (bodyTenantId request) with
  | Denied status => (Refused status, st)
  | Allowed =>
      match getTenantId (env server) (auth request) with
      | None => (Thrown "tenant_not_resolved", st)
      | Some authTenantId =>
          match validationResult request with
          | inl messages =>
              (Failure 400 "Validation Error" (Text (join ", " messages)), st)
          | inr data =>
              let tenantId :=
                if BYPASS_AUTH (env server) then bodyTenantId request
                else Some authTenantId in
              match source data with
              | None =>
                  (Failure 400 "Invalid Request"
                     (Text "Either events or csvData must be provided"), st)
              | Some (sourceType, sourceData) =>
                  let dataSize := Z.of_nat (String.length sourceData) in
                  if exceeds dataSize maxDirectSize then
                    (Failure 413 "Payload Too Large" (SizeExceeded dataSize maxDirectSize),
                     st)
                  else createAndQueue request data tenantId sourceType sourceData st
              end
          end
      end
  end.

(** What the GET handlers do with the request. *)
Inductive GetReply :=
| Found (operation : Operation)
| Listed (operations : list Operation) (total : nat)
| GetFailure (status : Z) (error message : string)
| GetRefused (status : Z)
| GetThrown (msg : string).

(** The handler of GET /v1/events/backfill/:operationId. *)
Definition getBackfill (operationId : string) (st : State DB) : GetReply * State DB :=
  let inMemory :=
    if BYPASS_AUTH (env server)
    then List.find (fun o => bool_decide (op_id o = Some operationId))
           (inMemoryBackfillOps st)
    else None in
  match inMemory with
  | Some operation => (Found operation, st)
  | None =>
      let '(res, db') := getById operationId (db st) in
      let st' := mkState db' (inMemoryBackfillOps st) (queued st) in
      match res with
      | None =>
          (GetFailure 500 "Internal Server Error" "Failed to retrieve backfill operation", st')
      | Some None => (GetFailure 404 "Not Found" "Backfill operation not found", st')
      | Some (Some operation) => (Found operation, st')
      end
  end.

(** The filter both branches of the list handler apply. *)
Definition matchesQuery (query : ListQuery) (op : Operation) : bool :=
  if truthy (q_tenantId query) && negb (bool_decide (op_tenantId op = q_tenantId query))
  then false
  else if truthy (q_status query) && negb (bool_decide (op_status op = q_status query))
  then false
  else true.

(** The handler of GET /v1/events/backfill. *)
Definition listBackfill (request : Request) (query : ListQuery) (st : State DB)
    : GetReply * State DB :=
  match requireTenantMatch (env server) request (q_tenantId query) with
  | Denied status => (GetRefused status, st)
  | Allowed =>
      match getTenantId (env server) request with
      | None => (GetThrown "tenant_not_resolved", st)
      | Some tenantId =>
          if BYPASS_AUTH (env server) then
            let filtered := List.filter (matchesQuery query) (inMemoryBackfillOps st) in
            (Listed filtered (length filtered), st)
          else
            let '(res, db') :=
              list_ {| q_tenantId := Some tenantId; q_status := q_status query;
                      q_limit := q_limit query; q_offset := q_offset query |} (db st) in
            let st' := mkState db' (inMemoryBackfillOps st) (queued st) in
            match res with
            | None =>
                (GetFailure 500 "Internal Server Error" "Failed to list backfill operations",
                 st')
            | Some operations =>
                let filtered := List.filter (matchesQuery query) operations in
                (Listed filtered (length filtered), st')
            end
      end
  end.

End Route.

Arguments BackfillRequestInput : clear implicits.
Arguments BackfillRequest : clear implicits.

(** The fallback the route builds when the database module cannot be
    loaded: [create() { return {} }], [getById() { return null }],
    [list() { return [] }]. *)
#[global] Instance fallbackRepository : BackfillRepository unit := {|
  create _ d := (Some emptyOperation, d);
  getById _ d := (Some None, d);
  list_ _ d := (Some [], d);
|}.

End Backfill.

(* ===================================================================== *)
(** * The listing route: GET /v1/events *)
(* ===================================================================== *)

Module EventsList.
Import JsDate JsString Auth Ingest.

(** [request.query], after the route's schema filled in its defaults. *)
Record GetEventsQuery := {
  q_tenantId : string;
  q_metric : option string;
  q_customerRef : option string;
  q_source : option string;
  q_limit : option Z;
  q_offset : option Z;
  q_sort : option string;
  q_sortDir : option string;
  q_startTime : option string;
  q_endTime : option string;
}.

(** [param], as passed to the repository. *)
Record Param := {
  p_tenantId : string;
  p_metric : option string;
  p_customerRef : option string;
  p_source : option string;
  p_limit : option Z;
  p_offset : option Z;
  p_sort : option string;
  p_sortDir : option string;
  p_startTime : option Z;
  p_endTime : option Z;
}.

(** An event of the response. *)
Record EventView := {
  ev_id : string;
  ev_tenantId : string;
  ev_metric : string;
  ev_customerRef : string;
  ev_resourceId : option string;
  ev_quantity : Q;
  ev_timestamp : string;
  ev_source : string;
  ev_meta : option string;
}.

(** What the handler does with the request. *)
Inductive ListReply :=
| Events (status : Z) (total : Z) (events : list EventView)
    (errors : option (list (nat * string)))
| ListThrown (msg : string).

(** The reading side of the events repository; [None] is a rejected promise. *)
Class EventsReader (DB : Type) := {
  getEventsByParam : Param -> DB -> option (list NewEvent) * DB;
  getEventsCountByParam : Param -> DB -> option Z * DB;
}.

(** An index of [slice], counted from the end when negative. *)
Definition relativeIndex (len k : Z) : Z :=
  if k <? 0 then Z.max (len + k) 0 else Z.min k len.

(** [l.slice(start, end)] for integers [start] and [end]. *)
Definition slice {A} (l : list A) (start end_ : Z) : list A :=
  let len := Z.of_nat (length l) in
  let from := relativeIndex len start in
  let to := relativeIndex len end_ in
  take (Z.to_nat (to - from)) (drop (Z.to_nat from) l).

(** The object an event is mapped to. *)
Definition view (event : NewEvent) : EventView :=
  {| ev_id := ne_idempotencyKey event;
     ev_tenantId := ne_tenantId event;
     ev_metric := ne_metric event;
     ev_customerRef := ne_customerRef event;
     ev_resourceId := orElse (ne_resourceId event) None;
     ev_quantity := ne_quantity event;
     ev_timestamp := toISOString (ne_ts event);
     ev_source := ne_source event;
     ev_meta := ne_meta event |}.

(** [errors.map((err, index) => ({ index, error: err.message }))] *)
Definition indexedErrors (messages : list string) : list (nat * string) :=
  imap (fun index message => (index, message)) messages.

Section Route.
Context `{CoreLib} {DB : Type} `{EventsReader DB}.
Context (env : ProcessEnv).

Definition paramOf (query : GetEventsQuery) : Param :=
  {| p_tenantId := q_tenantId query;
     p_metric := q_metric query;
     p_customerRef := q_customerRef query;
     p_source := q_source query;
     p_limit := q_limit query;
     p_offset := q_offset query;
     p_sort := q_sort query;
     p_sortDir := q_sortDir query;
     p_startTime := if truthy (q_startTime query)
                    then Date_parse <$> q_startTime query else None;
     p_endTime := if truthy (q_endTime query)
                  then Date_parse <$> q_endTime query else None |}.

(** The events of the in-memory store the BYPASS_AUTH branch selects. *)
Definition selected (param : Param) (inMemoryEvents : list NewEvent) : list NewEvent :=
  let list := List.filter (fun e => String.eqb (ne_tenantId e) (p_tenantId param))
                inMemoryEvents in
  let list := if truthy (p_metric param)
              then List.filter (fun e => bool_decide (Some (ne_metric e) = p_metric param)) list
              else list in
  if truthy (p_customerRef param)
  then List.filter (fun e => bool_decide (Some (ne_customerRef e) = p_customerRef param)) list
  else list.

(** The handler of GET /v1/events; [validation] holds the messages of
    the errors of [getEventsQuerySchema.safeParse], if it failed. *)
Definition getEvents (validation : option (list string)) (query : GetEventsQuery)
    (st : State DB) : ListReply * State DB :=
  match validation with
  | Some messages => (Events 400 0 [] (Some (indexedErrors messages)), st)
  | None =>
      let param := paramOf query in
      if BYPASS_AUTH env then
        let list := selected param (inMemoryEvents st) in
        let start := default 0 (p_offset param) in
        let end_ := start + default (Z.of_nat (length list)) (p_limit param) in
        let page := slice list start end_ in
        (Events 200 (Z.of_nat (length list)) (view <$> page) None, st)
      else
        let '(evts, db1) := getEventsByParam param (db st) in
        let '(count, db2) := getEventsCountByParam param db1 in
        let st' := mkState db2 (inMemoryIdempotencyKeys st) (inMemoryEvents st) (queued st) in
        match evts, count with
        | Some evts, Some count => (Events 200 count (view <$> evts) None, st')
        | _, _ => (ListThrown "getEvents", st')
        end
  end.

End Route.

(** The fallback the route builds when the database module cannot be
    loaded: [getEventsByParam() { return [] }],
    [getEventsCountByParam() { return 0 }]. *)
#[global] Instance fallbackReader : EventsReader unit := {|
  getEventsByParam _ d := (Some [], d);
  getEventsCountByParam _ d := (Some 0, d);
|}.

End EventsList.

(* ===================================================================== *)
(** * The ingestion route, whatever the body *)
(* ===================================================================== *)

Module IngestRoute.
Import Auth Ingest EventsList.

(** An element of [events] of the raw body, which passed no schema:
    [null] or [undefined], of which no property can be read, or a value of
    which the handler reads the five properties the key is derived from,
    taken here to have the types [generateIdempotencyKey] expects (elements
    whose properties have other types are not described). *)
Inductive RawEvent :=
| Nullish
| Fields (input : KeyInput).

(** The body of a request to POST /v1/events/ingest: the outcome of
    [ingestEventRequestSchema.safeParse] (the messages of the errors, or the
    events), and [events] of the raw body when it is an array (the empty
    array when it is not). *)
Record IngestBody := {
  validationResult : list string + list Event;
  rawEvents : list RawEvent;
}.

(** What the route does with the request. *)
Inductive RouteReply :=
| Valid (reply : Reply)                          (* the body passed the schema *)
| Lenient (status : Z) (body : IngestResponse)   (* 200, the body did not *)
| ValidationError (status : Z) (requestId : string) (errors : list (nat * string))
                                                 (* 400, accepted 0, duplicates 0 *)
| RawThrown (msg : string).                      (* reading the first raw event threw *)

Section Route.
Context `{CoreLib} {DB : Type} `{EventsRepository DB}.
Context (server : Server).

(** The reply for the first event of an invalid body. *)
Definition counted (request : Request) (acceptedKey : string) (status : Status)
    : IngestResponse :=
  {| resp_accepted := match status with accepted => 1 | _ => 0 end;
     resp_duplicates := match status with duplicate => 1 | _ => 0 end;
     resp_requestId := requestId request;
     resp_results := [{| r_idempotencyKey := acceptedKey; r_status := status;
                         r_error := None |}];
     resp_errors := None |}.

(** "In test bypass mode, accept minimal events for dedup tests". *)
Definition acceptMinimal (request : Request) (first : KeyInput) (st : State DB)
    : RouteReply * State DB :=
  let acceptedKey := generateIdempotencyKey first in
  let isDup := bool_decide (acceptedKey ∈ inMemoryIdempotencyKeys st) in
  if negb isDup then
    (Lenient 200 (counted request acceptedKey accepted),
     mkState (db st) ({[acceptedKey]} ∪ inMemoryIdempotencyKeys st) (inMemoryEvents st)
       (queued st))
  else (Lenient 200 (counted request acceptedKey duplicate), st).

(** The handler of POST /v1/events/ingest. *)
Definition ingestRoute (request : Request) (body : IngestBody) (st : State DB)
    : RouteReply * State DB :=
  match getTenantId (env server) request with
  | None => (Valid (Thrown "tenant_not_resolved"), st)
  | Some authTenantId =>
      match validationResult body with
      | inl messages =>
          match BYPASS_AUTH (env server), rawEvents body with
          | true, Fields first :: _ => acceptMinimal request first st
          | true, Nullish :: _ => (RawThrown "TypeError", st)
          | _, _ =>
              (ValidationError 400 (requestId request) (indexedErrors messages), st)
          end
      | inr eventBatch =>
          let '(reply, st') := ingest server request eventBatch st in
          (Valid reply, st')
      end
  end.

End Route.

End IngestRoute.

(* ===================================================================== *)
(** * The events plugin: what the routes are set up with *)
(* ===================================================================== *)

Module EventsRoutes.
Import Auth Queues.

(** The two servers the plugin [eventsRoutes] sets its routes up with:
    [aggregationQueue = createQueue('aggregation')] is used by the ingestion
    route for its truth value, [backfillQueue = createQueue('backfill')] by
    the backfill route. *)
Record Plugin := {
  ingestServer : Ingest.Server;
  backfillServer : Backfill.Server;
}.

Definition eventsRoutes (env : ProcessEnv) (USE_REDIS_IN_TEST : option string)
    (redisConn : bool) (MAX_DIRECT_BACKFILL_SIZE : option string)
    (redisAdd : Backfill.BackfillJob -> bool)
    (redisAddBulk : list Ingest.BulkJob -> bool) (now : nat -> Z) : Plugin :=
  let aggregationQueue := createQueue env USE_REDIS_IN_TEST redisConn "aggregation" in
  let backfillQueue := createQueue env USE_REDIS_IN_TEST redisConn "backfill" in
  {| ingestServer :=
       {| Ingest.env := env;
          Ingest.aggregationQueue := bool_decide (is_Some aggregationQueue);
          Ingest.addBulk := match aggregationQueue with
                            | Some (RedisQueue _ _) => redisAddBulk
                            | _ => fun _ => true
                            end;
          Ingest.now := now |};
     backfillServer :=
       {| Backfill.env := env;
          Backfill.MAX_DIRECT_BACKFILL_SIZE := MAX_DIRECT_BACKFILL_SIZE;
          Backfill.backfillQueue := backfillQueue;
          Backfill.redisAdd := redisAdd;
          Backfill.now := now |} |}.

End EventsRoutes.

(* ===================================================================== *)
(** * The price mapping route: apps/api/src/routes/mappings.ts *)
(* ===================================================================== *)

Module Mappings.
Import Auth.

(** The body of POST /v1/mappings, as the route's schema admits it. *)
Record PriceMapping := {
  pm_tenantId : string;
  pm_metric : string;
  pm_aggregation : string;
  pm_stripeAccount : string;
  pm_priceId : string;
  pm_subscriptionItemId : option string;
  pm_currency : option string;
  pm_active : option bool;
}.

(** [{ ...body, tenantId }] *)
Definition withTenant (tenantId : string) (body : PriceMapping) : PriceMapping :=
  {| pm_tenantId := tenantId;
     pm_metric := pm_metric body;
     pm_aggregation := pm_aggregation body;
     pm_stripeAccount := pm_stripeAccount body;
     pm_priceId := pm_priceId body;
     pm_subscriptionItemId := pm_subscriptionItemId body;
     pm_currency := pm_currency body;
     pm_active := pm_active body |}.

(** The table [priceMappings]:
    [db.insert(priceMappings).values(body).returning()] answers with the
    row or throws ([None]). *)
Class MappingsTable (DB : Type) := {
  insertReturning : PriceMapping -> DB -> option PriceMapping * DB;
}.

(** What the POST handler does with the request. *)
Inductive MappingReply :=
| Created (status : Z) (row : PriceMapping)       (* 201 *)
| Refused (status : Z)                            (* sent by [requireTenantMatch] *)
| Thrown (msg : string).

Section Route.
Context {DB : Type} `{MappingsTable DB}.
Context (env : ProcessEnv).

(** The handler of POST /v1/mappings. *)
Definition postMapping (request : Request) (requestBody : PriceMapping) (d : DB)
    : MappingReply * DB :=
  match requireTenantMatch env request (Some (pm_tenantId requestBody)) with
  | Denied status => (Refused status, d)
  | Allowed =>
      match getTenantId env request with
      | None => (Thrown "tenant_not_resolved", d)
      | Some tenantId =>
          let body := withTenant tenantId requestBody in
          match insertReturning body d with
          | (Some row, d') => (Created 201 row, d')
          | (None, d') =>
              if BYPASS_AUTH env then (Created 201 body, d')
              else (Thrown "insert", d')
          end
      end
  end.

End Route.

End Mappings.

(* ===================================================================== *)
(** * The demo emitter: examples/demo-emitter/index.js *)
(* ===================================================================== *)

Module DemoEmitter.
Import JsString JsText.

(** [date.toISOString().slice(0, 7)] *)
Definition currentPeriodYYYYMM (date : Z) : string := substringTo 7 (toISOString date).

(** A call [sendEvent(idemKey, quantity, ts)]. *)
Record SentEvent := {
  se_idemKey : string;
  se_quantity : Z;
  se_ts : string;
}.

(** The events [main] sends, [now] being the clock it reads: one of an hour
    ago, twice, and one of two hours ago. *)
Definition mainEvents (now : Z) : list SentEvent :=
  let ts1 := toISOString (now - 60 * 60 * 1000) in
  let tsLate := toISOString (now - 2 * 60 * 60 * 1000) in
  [{| se_idemKey := "demo-event-1"; se_quantity := 100; se_ts := ts1 |};
   {| se_idemKey := "demo-event-1"; se_quantity := 100; se_ts := ts1 |};
   {| se_idemKey := "demo-event-late"; se_quantity := 50; se_ts := tsLate |}].

End DemoEmitter.

(* ===================================================================== *)
(** * Facts about time values *)
(* ===================================================================== *)

Module JsDateFacts.
Import JsDate.

Lemma DayFromYear_succ y : DayFromYear (y + 1) = DayFromYear y + DaysInYear y.
Proof.
  unfold DayFromYear, DaysInYear, isLeap.
  destruct (Z.eqb_spec (y mod 4) 0), (Z.eqb_spec (y mod 100) 0),
    (Z.eqb_spec (y mod 400) 0); cbn [andb orb negb];
    Z.div_mod_to_equations; lia.
Qed.

Lemma YearFromDay_spec d :
  DayFromYear (YearFromDay d) <= d < DayFromYear (YearFromDay d + 1).
Proof.
  unfold YearFromDay.
  set (y0 := 1970 + 400 * d / 146097).
  destruct (Z.ltb_spec d (DayFromYear y0)) as [Hlt|Hge].
  - replace (y0 - 1 + 1) with y0 by lia. split; [|lia].
    subst y0. unfold DayFromYear in *. Z.div_mod_to_equations. lia.
  - destruct (Z.leb_spec (DayFromYear (y0 + 1)) d) as [Hle|Hgt]; [|lia].
    split; [lia|].
    subst y0. unfold DayFromYear in *. Z.div_mod_to_equations. lia.
Qed.

Lemma DayFromYear_lt y y' : y < y' -> DayFromYear y < DayFromYear y'.
Proof. unfold DayFromYear. intros. Z.div_mod_to_equations. lia. Qed.

Lemma YearFromDay_unique d y :
  DayFromYear y <= d < DayFromYear (y + 1) -> YearFromDay d = y.
Proof.
  intros Hy. pose proof (YearFromDay_spec d) as Hs.
  destruct (Z.lt_trichotomy (YearFromDay d) y) as [Hlt|[Heq|Hgt]]; [|done|].
  - assert (DayFromYear (YearFromDay d + 1) <= DayFromYear y); [|lia].
    destruct (Z.eq_dec (YearFromDay d + 1) y) as [->|]; [lia|].
    apply Z.lt_le_incl, DayFromYear_lt. lia.
  - assert (DayFromYear (y + 1) <= DayFromYear (YearFromDay d)); [|lia].
    destruct (Z.eq_dec (y + 1) (YearFromDay d)) as [->|]; [lia|].
    apply Z.lt_le_incl, DayFromYear_lt. lia.
Qed.

Lemma Day_MakeDate d tod : 0 <= tod < msPerDay -> Day (MakeDate d tod) = d.
Proof.
  unfold Day, MakeDate, msPerDay. intros. Z.div_mod_to_equations. lia.
Qed.

Lemma TimeWithinDay_MakeDate d tod :
  0 <= tod < msPerDay -> TimeWithinDay (MakeDate d tod) = tod.
Proof.
  unfold TimeWithinDay, MakeDate, msPerDay. intros. Z.div_mod_to_equations. lia.
Qed.

Ltac eval_monthStart :=
  repeat match goal with
    | H : context [monthStart ?l ?m] |- _ =>
        let v := eval compute in (monthStart l m) in
        change (monthStart l m) with v in H
    | |- context [monthStart ?l ?m] =>
        let v := eval compute in (monthStart l m) in
        change (monthStart l m) with v
    end.

(** A calendar date: month [m] in 0..11, day [d] within the month. *)
Definition validDate (y m d : Z) : Prop :=
  0 <= m <= 11 /\ 1 <= d <= DaysInMonth y m.

Lemma monthStart_bounds y m d :
  validDate y m d ->
  0 <= monthStart (if isLeap y then 1 else 0) m + d - 1 < DaysInYear y.
Proof.
  unfold validDate, DaysInMonth, DaysInYear. intros [Hm Hd].
  assert (m = 0 \/ m = 1 \/ m = 2 \/ m = 3 \/ m = 4 \/ m = 5 \/ m = 6 \/
          m = 7 \/ m = 8 \/ m = 9 \/ m = 10 \/ m = 11) as Hcases by lia.
  destruct (isLeap y);
    repeat (destruct Hcases as [->|Hcases]); try subst m; eval_monthStart; lia.
Qed.

Lemma MakeDay_in_year y m d :
  validDate y m d ->
  MakeDay y m d = DayFromYear y + (monthStart (if isLeap y then 1 else 0) m + d - 1).
Proof.
  intros [Hm Hd]. unfold MakeDay.
  replace (m / 12) with 0 by (Z.div_mod_to_equations; lia).
  replace (m mod 12) with m by (Z.div_mod_to_equations; lia).
  rewrite Z.add_0_r. cbn zeta. lia.
Qed.

Lemma YearFromDay_MakeDay y m d : validDate y m d -> YearFromDay (MakeDay y m d) = y.
Proof.
  intros Hv. apply YearFromDay_unique.
  rewrite DayFromYear_succ, (MakeDay_in_year _ _ _ Hv).
  pose proof (monthStart_bounds _ _ _ Hv). lia.
Qed.

Lemma monthOfDay_monthStart y m d :
  validDate y m d ->
  monthOfDay (if isLeap y then 1 else 0)
    (monthStart (if isLeap y then 1 else 0) m + d - 1) = m.
Proof.
  unfold validDate, DaysInMonth. intros [Hm Hd].
  assert (m = 0 \/ m = 1 \/ m = 2 \/ m = 3 \/ m = 4 \/ m = 5 \/ m = 6 \/
          m = 7 \/ m = 8 \/ m = 9 \/ m = 10 \/ m = 11) as Hcases by lia.
  unfold monthOfDay.
  destruct (isLeap y);
    repeat (destruct Hcases as [->|Hcases]); try subst m; eval_monthStart;
    repeat (match goal with |- context [?a <? ?b] =>
              destruct (Z.ltb_spec a b); try lia end); reflexivity.
Qed.

(** The calendar fields of a time value built from a calendar date are
    that date: [MakeDay] and [YearFromTime], [MonthFromTime],
    [DateFromTime] are inverse to each other. *)
Lemma fields_of_MakeDate y m d tod :
  validDate y m d -> 0 <= tod < msPerDay ->
  let t := MakeDate (MakeDay y m d) tod in
  YearFromTime t = y /\ MonthFromTime t = m /\ DateFromTime t = d /\
  TimeWithinDay t = tod.
Proof.
  intros Hv Ht t.
  assert (Hy : YearFromTime t = y).
  { unfold YearFromTime, t. rewrite Day_MakeDate by done.
    by apply YearFromDay_MakeDay. }
  assert (Hdiy : DayWithinYear t = monthStart (if isLeap y then 1 else 0) m + d - 1).
  { unfold DayWithinYear. rewrite Hy. unfold t. rewrite Day_MakeDate by done.
    rewrite (MakeDay_in_year _ _ _ Hv). lia. }
  assert (Hm : MonthFromTime t = m).
  { unfold MonthFromTime, InLeapYear. rewrite Hy, Hdiy.
    by apply monthOfDay_monthStart. }
  repeat split; [done|done| |by apply TimeWithinDay_MakeDate].
  unfold DateFromTime, InLeapYear. rewrite Hm, Hy, Hdiy. lia.
Qed.

(** Every time value falls on a calendar date. *)
Lemma validDate_of_time t :
  validDate (YearFromTime t) (MonthFromTime t) (DateFromTime t).
Proof.
  unfold validDate, DateFromTime, MonthFromTime, DaysInMonth, InLeapYear, DayWithinYear.
  pose proof (YearFromDay_spec (Day t)) as Hs.
  rewrite DayFromYear_succ in Hs. unfold DaysInYear in Hs.
  fold (YearFromTime t) in Hs.
  set (diy := Day t - DayFromYear (YearFromTime t)) in *.
  assert (0 <= diy) by lia.
  unfold monthOfDay.
  destruct (isLeap (YearFromTime t));
    repeat (match goal with |- context [?a <? ?b] =>
              destruct (Z.ltb_spec a b) end); eval_monthStart; lia.
Qed.

Lemma MakeDay_of_fields t :
  MakeDay (YearFromTime t) (MonthFromTime t) (DateFromTime t) = Day t.
Proof.
  rewrite (MakeDay_in_year _ _ _ (validDate_of_time t)).
  unfold DateFromTime, InLeapYear, DayWithinYear. lia.
Qed.

End JsDateFacts.

(* ===================================================================== *)
(** * Facts about strings *)
(* ===================================================================== *)

Module StringFacts.

Lemma append_assoc (a b c : string) : (a +:+ b) +:+ c = a +:+ (b +:+ c).
Proof.
  induction a as [|x a IH]; [done|].
  change (String x ((a +:+ b) +:+ c) = String x (a +:+ (b +:+ c))). by f_equal.
Qed.

Lemma append_nil_l (s : string) : "" +:+ s = s.
Proof. reflexivity. Qed.

Lemma append_cons c (a s : string) : String c a +:+ s = String c (a +:+ s).
Proof. reflexivity. Qed.

Lemma append_nil_r (a : string) : a +:+ "" = a.
Proof.
  induction a as [|x a IH]; [done|].
  change (String x (a +:+ "") = String x a). by f_equal.
Qed.

End StringFacts.

(* ===================================================================== *)
(** * Facts about the billing driver *)
(* ===================================================================== *)

Module DriverFacts.
Import JsDate JsDateFacts JsString Driver.

Definition configMsg : string :=
  "Stripe test client not configured (STRIPE_TEST_SECRET_KEY missing)".

(** The client a mode stands for, when the driver has one. *)
Definition selectedClient (this : StripeBillingDriverImpl) (m : StripeEnvironment)
    : option Stripe :=
  match m with
  | test => stripeTest this
  | live => Some (stripeLive this)
  end.

(** The keys the constructor resolves. *)
Definition resolvedLiveKey (opts : option Opts) (env : ProcessEnv) : string :=
  nullish (opts ≫= liveKey) (nullish (STRIPE_SECRET_KEY env) "").
Definition resolvedTestKey (opts : option Opts) (env : ProcessEnv) : string :=
  nullish (opts ≫= testKey) (nullish (STRIPE_TEST_SECRET_KEY env) "").

(** What [recordUsage] transmits. *)
Definition usagePayload (p : RecordUsageParams) : UsageRecordCreateParams :=
  {| urc_quantity := Math_round (quantity p);
     urc_timestamp := (fun ms => ms / 1000) <$> Date_getTime (periodStart p);
     urc_action := "set" |}.
Definition usageOptions (p : RecordUsageParams) : RequestOptions :=
  {| ro_idempotencyKey := Some (idempotencyKey p);
     ro_stripeAccount := accountHeader (stripeAccount p) |}.

Lemma truthy_empty s : truthy s = false <-> s = "".
Proof.
  unfold truthy. destruct (String.eqb_spec s ""); cbn; split; congruence.
Qed.

Lemma constructor_stripeTest opts env :
  stripeTest (constructor opts env) =
    if truthy (resolvedTestKey opts env)
    then Some {| apiKey := resolvedTestKey opts env |} else None.
Proof. reflexivity. Qed.

Lemma DaysInMonth_le_31 y m : 0 <= m <= 11 -> DaysInMonth y m <= 31.
Proof.
  intros Hm. unfold DaysInMonth.
  assert (m = 0 \/ m = 1 \/ m = 2 \/ m = 3 \/ m = 4 \/ m = 5 \/ m = 6 \/
          m = 7 \/ m = 8 \/ m = 9 \/ m = 10 \/ m = 11) as Hcases by lia.
  destruct (isLeap y);
    repeat (destruct Hcases as [->|Hcases]); try subst m; cbn zeta;
    eval_monthStart; lia.
Qed.

Lemma Date_getTime_valid s y m d :
  parseDateOnly s = Some (y, m, d) -> validDate y (m - 1) d ->
  Date_getTime s = Some (MakeDate (MakeDay y (m - 1) d) 0).
Proof.
  intros Hp [Hm Hd]. unfold Date_getTime. rewrite Hp. cbn.
  pose proof (DaysInMonth_le_31 y (m - 1) Hm).
  destruct (Z.leb_spec 1 m); [|lia]. destruct (Z.leb_spec m 12); [|lia].
  destruct (Z.leb_spec 1 d); [|lia]. destruct (Z.leb_spec d 31); [|lia].
  reflexivity.
Qed.

Lemma Math_round_nearest (q : Q) :
  (inject_Z (Math_round q) - (1 # 2) <= q)%Q /\
  (q < inject_Z (Math_round q) + (1 # 2))%Q.
Proof.
  unfold Math_round.
  pose proof (Qfloor_le (q + (1 # 2))) as Hlo.
  pose proof (Qlt_floor (q + (1 # 2))) as Hhi.
  rewrite inject_Z_plus in Hhi. change (inject_Z 1) with 1%Q in Hhi.
  split; lra.
Qed.

Section WithProvider.
Context {W : Type} `{StripeApi W}.

Lemma recordUsage_unfold this p (s : St W) :
  recordUsage this p s =
    match selectedClient this (mode p) with
    | None => (inl (ConfigError configMsg), s)
    | Some client =>
        subscriptionItems_createUsageRecord client (subscriptionItemId p)
          (usagePayload p) (usageOptions p) s
    end.
Proof.
  unfold recordUsage, clientForMode, selectedClient.
  destruct (mode p); [reflexivity|].
  destruct (stripeTest this); reflexivity.
Qed.

(** [recordUsage] makes one request, on the selected client, and never sleeps. *)
Lemma recordUsage_calls this p client (s : St W) :
  selectedClient this (mode p) = Some client ->
  exists o,
    calls (recordUsage this p s).2 =
      calls s ++ [(client, CreateUsageRecord (subscriptionItemId p) (usagePayload p)
                             (usageOptions p), o)] /\
    sleeps (recordUsage this p s).2 = sleeps s /\
    match (recordUsage this p s).1 with
    | inl e => exists e', e = ApiError e' /\ o = Failed e'
    | inr r => o = GotUsageRecord r
    end.
Proof.
  intros Hc. rewrite recordUsage_unfold, Hc.
  unfold subscriptionItems_createUsageRecord, request.
  destruct (api_createUsageRecord _ _ _ _ _) as [[e|r] w']; cbn; eauto 6.
Qed.

(** ** The requests of [getUsageSummary] *)

Definition listEntry (client : Stripe) (item : string) (hdr sa : option string)
    (o : Outcome) : Stripe * Call * Outcome :=
  (client, ListUsageRecordSummaries item 100 sa hdr, o).

(** The cursor sent after page [p]: the id of its last summary. *)
Definition cursorAfter (p : ApiList) : option string := urs_id <$> last (data p).

(** The list requests that fetch [pages], each starting after the last
    summary of the page before. *)
Fixpoint pageCalls (client : Stripe) (item : string) (hdr sa : option string)
    (pages : list ApiList) : list (Stripe * Call * Outcome) :=
  match pages with
  | [] => []
  | p :: ps => listEntry client item hdr sa (GotList p)
               :: pageCalls client item hdr (cursorAfter p) ps
  end.

Definition sumPages (pages : list ApiList) : Z :=
  foldr (fun p acc => pageTotal (data p) + acc) 0 pages.

Definition onClient (client : Stripe) (e : Stripe * Call * Outcome) : Prop :=
  e.1.1 = client.

Definition isRetrieve (e : Stripe * Call * Outcome) : bool :=
  match e.1.2 with Retrieve _ _ => true | _ => false end.

(** Every attempt starts with one [retrieve], so the attempts of a run
    are the [retrieve] requests in its trace. *)
Definition attemptsIn (tr : list (Stripe * Call * Outcome)) : nat :=
  length (filter (fun e => isRetrieve e = true) tr).

Arguments attemptsIn : simpl never.

(** The delay before retry number [attempt + 1]. *)
Definition delayMs (attempt : Z) : Z := 2 ^ attempt * 250.

Lemma pageCalls_onClient client item hdr sa pages :
  Forall (onClient client) (pageCalls client item hdr sa pages).
Proof.
  revert sa. induction pages as [|p ps IH]; intros sa; cbn; constructor; auto.
  reflexivity.
Qed.

Lemma pageCalls_attempts client item hdr sa pages :
  attemptsIn (pageCalls client item hdr sa pages) = 0%nat.
Proof.
  revert sa. unfold attemptsIn.
  induction pages as [|p ps IH]; intros sa; cbn [pageCalls]; [done|].
  rewrite filter_cons_False by (cbn; congruence). apply IH.
Qed.

Lemma attemptsIn_cons e tr :
  attemptsIn (e :: tr) = ((if isRetrieve e then 1 else 0) + attemptsIn tr)%nat.
Proof.
  unfold attemptsIn. destruct (isRetrieve e) eqn:He.
  - by rewrite filter_cons_True.
  - rewrite filter_cons_False; [done|congruence].
Qed.

Lemma attemptsIn_app tr1 tr2 :
  attemptsIn (tr1 ++ tr2) = (attemptsIn tr1 + attemptsIn tr2)%nat.
Proof. unfold attemptsIn. by rewrite filter_app, length_app. Qed.

Lemma listPages_ok n client item hdr sa acc (s s' : St W) total :
  listPages n client item hdr sa acc s = (inr total, s') ->
  exists pages,
    (length pages <= n)%nat /\ (n <> 0%nat -> pages <> []) /\
    calls s' = calls s ++ pageCalls client item hdr sa pages /\
    total = acc + sumPages pages /\
    sleeps s' = sleeps s.
Proof.
  revert sa acc s. induction n as [|n IH]; intros sa acc s Hrun.
  - cbn in Hrun. injection Hrun as <- <-. exists []. cbn.
    rewrite app_nil_r. repeat split; [lia|congruence|lia].
  - cbn [listPages] in Hrun.
    unfold mbind, M_bind, bind, subscriptionItems_listUsageRecordSummaries, request in Hrun.
    destruct (api_listUsageRecordSummaries _ _ _ _ _ _) as [[e|resp] w']; [done|].
    destruct (has_more resp).
    + apply IH in Hrun as (pages & Hlen & _ & Hcalls & Htot & Hsl). cbn in *.
      exists (resp :: pages). cbn. rewrite Hcalls, <- app_assoc. cbn.
      repeat split; [lia|congruence|unfold sumPages in *; lia|done].
    + injection Hrun as <- <-. exists [resp]. cbn.
      repeat split; [lia|congruence|lia].
Qed.

Lemma listPages_fail n client item hdr sa acc (s s' : St W) e :
  listPages n client item hdr sa acc s = (inl e, s') ->
  exists pages e' sa',
    (length pages < n)%nat /\ e = ApiError e' /\
    calls s' = calls s ++ pageCalls client item hdr sa pages
                       ++ [listEntry client item hdr sa' (Failed e')] /\
    sleeps s' = sleeps s.
Proof.
  revert sa acc s. induction n as [|n IH]; intros sa acc s Hrun.
  - discriminate Hrun.
  - cbn [listPages] in Hrun.
    unfold mbind, M_bind, bind, subscriptionItems_listUsageRecordSummaries, request in Hrun.
    destruct (api_listUsageRecordSummaries _ _ _ _ _ _) as [[e0|resp] w'].
    + injection Hrun as <- <-. exists [], e0, sa. cbn. repeat split; lia.
    + destruct (has_more resp); [|done].
      apply IH in Hrun as (pages & e' & sa' & Hlen & -> & Hcalls & Hsl). cbn in *.
      exists (resp :: pages), e', sa'. cbn. rewrite Hcalls, <- app_assoc. cbn.
      repeat split; [lia|done].
Qed.

(** A successful attempt: one [retrieve], then one to five pages. *)
Lemma summaryAttempt_ok client item ps acct (s s' : St W) r :
  summaryAttempt client item ps acct s = (inr r, s') ->
  exists it pages,
    (1 <= length pages <= 5)%nat /\
    calls s' = calls s ++ (client, Retrieve item (accountHeader acct), GotItem it)
                 :: pageCalls client item (accountHeader acct) None pages /\
    r = {| sum_subscriptionItemId := item; sum_stripeAccount := acct;
           sum_periodStart := ps; totalUsage := sumPages pages |} /\
    sleeps s' = sleeps s.
Proof.
  unfold summaryAttempt, mbind, M_bind, bind, subscriptionItems_retrieve, request.
  destruct (api_retrieve _ _ _ _) as [[e|it] w']; [done|].
  destruct (listPages _ _ _ _ _ _ _) as [[e|total] s1] eqn:Hl; [done|].
  intros [= <- <-]. apply listPages_ok in Hl as (pages & Hlen & Hne & Hcalls & -> & Hsl).
  cbn in *. exists it, pages. rewrite Hcalls, <- app_assoc. cbn.
  repeat split; [|lia|done].
  destruct pages; [by destruct Hne|cbn; lia].
Qed.

(** A failed attempt fails with what the provider answered to its last
    request, and sleeps nowhere. *)
Lemma summaryAttempt_fail client item ps acct (s s' : St W) e :
  summaryAttempt client item ps acct s = (inl e, s') ->
  exists new e',
    e = ApiError e' /\ calls s' = calls s ++ new /\
    Forall (onClient client) new /\ attemptsIn new = 1%nat /\
    sleeps s' = sleeps s.
Proof.
  unfold summaryAttempt, mbind, M_bind, bind, subscriptionItems_retrieve, request.
  destruct (api_retrieve _ _ _ _) as [[e0|it] w'].
  - intros [= <- <-]. cbn. eexists [_], e0. repeat split.
    by repeat constructor.
  - destruct (listPages _ _ _ _ _ _ _) as [[e1|total] s1] eqn:Hl; [|done].
    intros [= <- <-].
    apply listPages_fail in Hl as (pages & e' & sa' & Hlen & -> & Hcalls & Hsl).
    cbn in *. eexists (_ :: _ ++ [_]), e'. rewrite Hcalls, <- app_assoc. cbn.
    repeat split; [|..|done].
    + constructor; [done|]. apply Forall_app. split; [apply pageCalls_onClient|].
      by repeat constructor.
    + by rewrite attemptsIn_cons, attemptsIn_app, pageCalls_attempts.
Qed.

Lemma summaryAttempt_ok_trace client item ps acct (s s' : St W) r :
  summaryAttempt client item ps acct s = (inr r, s') ->
  exists new,
    calls s' = calls s ++ new /\
    Forall (onClient client) new /\ attemptsIn new = 1%nat /\
    sleeps s' = sleeps s.
Proof.
  intros Hrun. apply summaryAttempt_ok in Hrun as (it & pages & _ & Hcalls & _ & Hsl).
  eexists. split; [exact Hcalls|]. repeat split; [|..|done].
  - constructor; [done|]. apply pageCalls_onClient.
  - by rewrite attemptsIn_cons, pageCalls_attempts.
Qed.

(** ** The retry loop *)

(** The state after [await new Promise(r => setTimeout(r, d))]. *)
Definition afterSleep (d : Z) (s : St W) : St W :=
  mkSt (world s) (calls s) (sleeps s ++ [d]).

(** The delays of [k] retries in a row, the first one after attempt [a]. *)
Fixpoint delaysFrom (a : Z) (k : nat) : list Z :=
  match k with
  | O => []
  | S k' => delayMs a :: delaysFrom (a + 1) k'
  end.

Lemma retryLoop_step fuel client item ps acct a (s : St W) :
  retryLoop (S fuel) client item ps acct a s =
    match summaryAttempt client item ps acct s with
    | (inr r, s') => Some (inr r, s')
    | (inl error, s') =>
        if retryable (errorStatus error) && (a <? maxRetries)
        then retryLoop fuel client item ps acct (a + 1) (afterSleep (delayMs a) s')
        else Some (inl error, s')
    end.
Proof. reflexivity. Qed.

(** From attempt number [a] on, the loop returns after [k] retries with
    [a + k <= 3], having slept [250 * 2^a], [250 * 2^(a+1)], ... before each;
    an error it returns is not retryable, or the retries are used up. *)
Lemma retryLoop_run fuel client item ps acct a (s : St W) :
  0 <= a <= maxRetries -> (Z.to_nat (maxRetries + 1 - a) <= fuel)%nat ->
  exists res s' k new,
    retryLoop fuel client item ps acct a s = Some (res, s') /\
    a + Z.of_nat k <= maxRetries /\
    sleeps s' = sleeps s ++ delaysFrom a k /\
    calls s' = calls s ++ new /\
    Forall (onClient client) new /\
    attemptsIn new = S k /\
    match res with
    | inl e => retryable (errorStatus e) = false \/ a + Z.of_nat k = maxRetries
    | inr _ => True
    end.
Proof.
  unfold maxRetries. revert a s. induction fuel as [|fuel IH]; intros a s Ha Hfuel; [lia|].
  rewrite retryLoop_step.
  destruct (summaryAttempt client item ps acct s) as [[e|r] s1] eqn:Hatt.
  - apply summaryAttempt_fail in Hatt as (new & e' & -> & Hcalls & Hcl & Hn & Hsl).
    destruct (retryable (errorStatus (ApiError e'))) eqn:Hre; cbn [andb].
    + unfold maxRetries. destruct (Z.ltb_spec a 3) as [Hlt|Hge].
      * destruct (IH (a + 1) (afterSleep (delayMs a) s1)) as
          (res & s' & k & new' & Hrun & Hk & Hsl' & Hcalls' & Hcl' & Hn' & Hres);
          [lia|lia|].
        exists res, s', (S k), (new ++ new'). rewrite Hrun. cbn in Hsl', Hcalls'.
        repeat split.
        -- lia.
        -- rewrite Hsl', Hsl, <- app_assoc. reflexivity.
        -- rewrite Hcalls', Hcalls, <- app_assoc. reflexivity.
        -- by apply Forall_app.
        -- rewrite attemptsIn_app, Hn, Hn'. reflexivity.
        -- destruct res; [|done]. destruct Hres; [by left|right; lia].
      * exists (inl (ApiError e')), s1, 0%nat, new. cbn [delaysFrom].
        rewrite app_nil_r. repeat split; try done; [lia|right; lia].
    + exists (inl (ApiError e')), s1, 0%nat, new. cbn [delaysFrom].
      rewrite app_nil_r. repeat split; try done; [lia|by left].
  - apply summaryAttempt_ok_trace in Hatt as (new & Hcalls & Hcl & Hn & Hsl).
    exists (inr r), s1, 0%nat, new. cbn [delaysFrom].
    rewrite app_nil_r. repeat split; try done. lia.
Qed.

(** A summary that is returned comes from the last attempt: its
    [retrieve], then the pages that attempt fetched. *)
Lemma retryLoop_ok fuel client item ps acct a (s s' : St W) r :
  retryLoop fuel client item ps acct a s = Some (inr r, s') ->
  exists earlier it pages,
    calls s' = calls s ++ earlier
                 ++ (client, Retrieve item (accountHeader acct), GotItem it)
                 :: pageCalls client item (accountHeader acct) None pages /\
    Forall (onClient client) earlier /\
    (1 <= length pages <= 5)%nat /\
    r = {| sum_subscriptionItemId := item; sum_stripeAccount := acct;
           sum_periodStart := ps; totalUsage := sumPages pages |}.
Proof.
  revert a s. induction fuel as [|fuel IH]; intros a s Hrun; [done|].
  rewrite retryLoop_step in Hrun.
  destruct (summaryAttempt client item ps acct s) as [[e|r0] s1] eqn:Hatt.
  - destruct (retryable (errorStatus e) && (a <? maxRetries)); [|done].
    apply IH in Hrun as (earlier & it & pages & Hcalls & Hcl & Hlen & Hr).
    apply summaryAttempt_fail in Hatt as (new & e' & -> & Hcalls1 & Hcl1 & _ & _).
    exists (new ++ earlier), it, pages. cbn in Hcalls.
    rewrite Hcalls, Hcalls1, <- !app_assoc. repeat split; try done; try lia.
    by apply Forall_app.
  - injection Hrun as -> ->.
    apply summaryAttempt_ok in Hatt as (it & pages & Hlen & Hcalls & Hr & _).
    exists [], it, pages. cbn. repeat split; try done; lia.
Qed.

(** An attempt begins with the [retrieve], whatever comes of it, and a
    failed attempt ends on the request the provider rejected. *)
Lemma summaryAttempt_first client item ps acct (s : St W) :
  exists o rest,
    calls (summaryAttempt client item ps acct s).2 =
      calls s ++ (client, Retrieve item (accountHeader acct), o) :: rest.
Proof.
  unfold summaryAttempt, mbind, M_bind, bind, subscriptionItems_retrieve, request.
  destruct (api_retrieve _ _ _ _) as [[e0|it] w']; [by eexists _, []|].
  destruct (listPages _ _ _ _ _ _ _) as [[e1|total] s1] eqn:Hl.
  - apply listPages_fail in Hl as (pages & e' & sa' & _ & _ & Hcalls & _).
    cbn in *. rewrite Hcalls, <- app_assoc. by eexists _, _.
  - apply listPages_ok in Hl as (pages & _ & _ & Hcalls & _).
    cbn in *. rewrite Hcalls, <- app_assoc. by eexists _, _.
Qed.

Lemma summaryAttempt_fail_last client item ps acct (s s' : St W) e :
  summaryAttempt client item ps acct s = (inl e, s') ->
  exists before c e',
    e = ApiError e' /\ calls s' = calls s ++ before ++ [(client, c, Failed e')].
Proof.
  unfold summaryAttempt, mbind, M_bind, bind, subscriptionItems_retrieve, request.
  destruct (api_retrieve _ _ _ _) as [[e0|it] w'].
  - intros [= <- <-]. by exists [], (Retrieve item (accountHeader acct)), e0.
  - destruct (listPages _ _ _ _ _ _ _) as [[e1|total] s1] eqn:Hl; [|done].
    intros [= <- <-].
    apply listPages_fail in Hl as (pages & e' & sa' & _ & -> & Hcalls & _).
    cbn in *. eexists (_ :: _), _, e'. split; [done|].
    rewrite Hcalls, <- app_assoc. reflexivity.
Qed.

Lemma retryLoop_first fuel client item ps acct a (s s' : St W) res :
  retryLoop fuel client item ps acct a s = Some (res, s') ->
  exists o rest,
    calls s' = calls s ++ (client, Retrieve item (accountHeader acct), o) :: rest.
Proof.
  destruct fuel as [|fuel]; [done|]. rewrite retryLoop_step.
  destruct (summaryAttempt_first client item ps acct s) as (o & rest & Hfirst).
  destruct (summaryAttempt client item ps acct s) as [[e|r] s1] eqn:Hatt; cbn [snd] in Hfirst.
  - destruct (retryable (errorStatus e) && (a <? maxRetries)).
    + intros Hrun.
      assert (Hgrow : forall f b (t t' : St W) x,
                retryLoop f client item ps acct b t = Some (x, t') ->
                exists more, calls t' = calls t ++ more).
      { clear. induction f as [|f IH]; intros b t t' x Hr; [done|].
        rewrite retryLoop_step in Hr.
        destruct (summaryAttempt client item ps acct t) as [[e|r] t1] eqn:Hatt.
        - apply summaryAttempt_fail in Hatt as (new & e' & He' & Hc & _).
          destruct (retryable (errorStatus e) && (b <? maxRetries)).
          + apply IH in Hr as [more Hm]. cbn in Hm. exists (new ++ more).
            by rewrite Hm, Hc, <- app_assoc.
          + injection Hr as <- <-. by exists new.
        - apply summaryAttempt_ok_trace in Hatt as (new & Hc & _).
          injection Hr as <- <-. by exists new. }
      apply Hgrow in Hrun as [more Hm]. cbn in Hm.
      exists o, (rest ++ more). by rewrite Hm, Hfirst, <- app_assoc.
    + intros [= <- <-]. by exists o, rest.
  - intros [= <- <-]. by exists o, rest.
Qed.

(** An error the loop returns is the provider's answer to the last request
    made. *)
Lemma retryLoop_err fuel client item ps acct a (s s' : St W) e :
  retryLoop fuel client item ps acct a s = Some (inl e, s') ->
  exists before c e',
    e = ApiError e' /\ calls s' = calls s ++ before ++ [(client, c, Failed e')].
Proof.
  revert a s. induction fuel as [|fuel IH]; intros a s Hrun; [done|].
  rewrite retryLoop_step in Hrun.
  destruct (summaryAttempt client item ps acct s) as [[e0|r0] s1] eqn:Hatt; [|done].
  destruct (retryable (errorStatus e0) && (a <? maxRetries)).
  - apply IH in Hrun as (before & c & e' & -> & Hcalls).
    apply summaryAttempt_fail in Hatt as (new & e0' & He0 & Hc & _).
    exists (new ++ before), c, e'. split; [done|]. cbn in Hcalls.
    by rewrite Hcalls, Hc, <- !app_assoc.
  - injection Hrun as <- <-. by eapply summaryAttempt_fail_last.
Qed.

(** [pageTotal] adds up [total_usage ?? 0] over a page. *)
Definition usageOf (x : UsageRecordSummary) : Z := nullish (total_usage x) 0.

Lemma pageTotal_sum l : pageTotal l = foldr Z.add 0 (usageOf <$> l).
Proof.
  unfold pageTotal.
  assert (forall acc, foldl (fun a x => a + nullish (total_usage x) 0) acc l
                      = acc + foldr Z.add 0 (usageOf <$> l)) as Hgen.
  { induction l as [|x l IH]; intros acc; cbn; [lia|]. rewrite IH. unfold usageOf. lia. }
  rewrite Hgen. lia.
Qed.

Lemma sumPages_sum pages :
  sumPages pages = foldr Z.add 0 (usageOf <$> concat (data <$> pages)).
Proof.
  induction pages as [|p pages IH]; [done|].
  cbn [sumPages foldr fmap list_fmap concat] in *. fold (sumPages pages).
  rewrite IH, pageTotal_sum, fmap_app, foldr_app.
  generalize (foldr Z.add 0 (usageOf <$> concat (data <$> pages))).
  induction (usageOf <$> data p) as [|x l IHl]; intros z; cbn; [done|].
  specialize (IHl z). lia.
Qed.

End WithProvider.

(** ** Against a provider that answers *)

(** The pages a provider holds for the page loop with [n] turns left: each
    one but the last says [has_more], and after the last turn none is
    left. *)
Fixpoint wellPaged (n : nat) (pages : list ApiList) : Prop :=
  match n, pages with
  | O, [] => True
  | S n', p :: ps => if has_more p then wellPaged n' ps else ps = []
  | _, _ => False
  end.

Lemma listPages_scripted n client item hdr sa acc pages (rest : Script) cs sl :
  wellPaged n pages ->
  listPages n client item hdr sa acc (mkSt ((GotList <$> pages) ++ rest) cs sl) =
    (inr (acc + sumPages pages),
     mkSt rest (cs ++ pageCalls client item hdr sa pages) sl).
Proof.
  revert sa acc pages cs. induction n as [|n IH]; intros sa acc [|p ps] cs Hw; try done.
  - cbn. by rewrite Z.add_0_r, app_nil_r.
  - cbn [wellPaged] in Hw. cbn [listPages].
    unfold mbind, M_bind, bind, subscriptionItems_listUsageRecordSummaries, request.
    cbn [fmap list_fmap app world calls sleeps api_listUsageRecordSummaries Script_api scripted].
    destruct (has_more p) eqn:Hmore.
    + rewrite (IH _ _ ps _ Hw). cbn [pageCalls sumPages foldr].
      fold (sumPages ps). unfold cursorAfter, listEntry. rewrite <- app_assoc.
      f_equal. f_equal. lia.
    + subst ps. cbn. unfold listEntry, ret. by rewrite Z.add_0_r.
Qed.

Lemma retryLoop_scripted fuel client item ps acct a it pages (rest : Script) cs sl :
  wellPaged 5 pages ->
  retryLoop (S fuel) client item ps acct a
    (mkSt (GotItem it :: (GotList <$> pages) ++ rest) cs sl) =
    Some (inr {| sum_subscriptionItemId := item; sum_stripeAccount := acct;
                 sum_periodStart := ps; totalUsage := sumPages pages |},
          mkSt rest
            (cs ++ (client, Retrieve item (accountHeader acct), GotItem it)
                :: pageCalls client item (accountHeader acct) None pages) sl).
Proof.
  intros Hw. rewrite retryLoop_step. unfold summaryAttempt at 1.
  unfold mbind, M_bind, bind, subscriptionItems_retrieve, request.
  cbn [world calls sleeps api_retrieve Script_api scripted].
  rewrite (listPages_scripted 5 _ _ _ _ _ pages rest _ _ Hw).
  cbn [ret]. rewrite <- app_assoc. reflexivity.
Qed.

End DriverFacts.

(* ===================================================================== *)
(** * Properties of the billing driver *)
(* ===================================================================== *)

Module DriverProps.
Import JsDate JsDateFacts JsString Driver DriverFacts.

Lemma retryable_iff st : retryable st = true <-> st = 429 \/ 500 <= st <= 599.
Proof.
  unfold retryable.
  destruct (Z.eqb_spec st 429), (Z.leb_spec 500 st), (Z.ltb_spec st 600);
    cbn; split; intros; try done; try lia; auto.
Qed.

Lemma delaysFrom_0 k :
  (k <= 3)%nat -> delaysFrom 0 k = take k [250; 500; 1000].
Proof.
  intros Hk.
  destruct k as [|[|[|[|k]]]]; [reflexivity..|lia].
Qed.

(** A small driver and request used to run the definitions. *)
Definition demoDriver : StripeBillingDriverImpl :=
  constructor None {| STRIPE_SECRET_KEY := Some "sk_live_1";
                      STRIPE_TEST_SECRET_KEY := Some "sk_test_1" |}.
Definition liveOnlyDriver : StripeBillingDriverImpl :=
  constructor None {| STRIPE_SECRET_KEY := Some "sk_live_1";
                      STRIPE_TEST_SECRET_KEY := None |}.
Definition demoParams (m : StripeEnvironment) : RecordUsageParams :=
  {| mode := m; stripeAccount := "acct_123"; subscriptionItemId := "si_123";
     quantity := (201 # 2)%Q; periodStart := "2025-01-01";
     idempotencyKey := "push:test" |}.
Definition start {W} (w : W) : St W := mkSt w [] [].

Example recordUsage_demo :
  recordUsage demoDriver (demoParams live) (start [GotUsageRecord {| ur_id := "ur_test" |}]) =
    (inr {| ur_id := "ur_test" |},
     mkSt []
       [({| apiKey := "sk_live_1" |},
         CreateUsageRecord "si_123"
           {| urc_quantity := 101; urc_timestamp := Some 1735689600; urc_action := "set" |}
           {| ro_idempotencyKey := Some "push:test"; ro_stripeAccount := Some "acct_123" |},
         GotUsageRecord {| ur_id := "ur_test" |})]
       []).
Proof. reflexivity. Qed.

Section WithProvider.
Context {W : Type} `{StripeApi W}.

(** C3. [recordUsage] transmits one usage record whose timestamp is
    midnight UTC of the period-start date (its UTC calendar fields are that
    date and its time of day is zero; it depends on [periodStart] alone),
    whose quantity is the input rounded to the nearest integer, and whose
    action is "set". On a provider that applies "set" as a replacement,
    pushing the same record again leaves the recorded usage as it was. *)
Theorem recordUsage_payload this p client (s : St W) (l : St Ledger) y m d :
  selectedClient this (mode p) = Some client ->
  parseDateOnly (periodStart p) = Some (y, m, d) ->
  validDate y (m - 1) d ->
  let ts := 86400 * MakeDay y (m - 1) d in
  let sent := {| urc_quantity := Math_round (quantity p);
                 urc_timestamp := Some ts;
                 urc_action := "set" |} in
  (exists o, calls (recordUsage this p s).2 =
               calls s ++ [(client, CreateUsageRecord (subscriptionItemId p) sent
                                      (usageOptions p), o)]) /\
  (YearFromTime (1000 * ts) = y /\ MonthFromTime (1000 * ts) = m - 1 /\
   DateFromTime (1000 * ts) = d /\ TimeWithinDay (1000 * ts) = 0) /\
  ((inject_Z (Math_round (quantity p)) - (1 # 2) <= quantity p)%Q /\
   (quantity p < inject_Z (Math_round (quantity p)) + (1 # 2))%Q) /\
  world (recordUsage this p (recordUsage this p l).2).2 = world (recordUsage this p l).2.
Proof.
  intros Hc Hp Hv ts sent.
  assert (Hpay : usagePayload p = sent).
  { unfold usagePayload, sent. rewrite (Date_getTime_valid _ _ _ _ Hp Hv). cbn.
    do 2 f_equal. unfold ts, MakeDate, msPerDay. Z.div_mod_to_equations. lia. }
  split; [|split; [|split]].
  - destruct (recordUsage_calls this p client s Hc) as (o & Hcalls & _).
    exists o. by rewrite Hcalls, Hpay.
  - replace (1000 * ts) with (MakeDate (MakeDay y (m - 1) d) 0)
      by (unfold ts, MakeDate, msPerDay; lia).
    apply (fields_of_MakeDate y (m - 1) d 0 Hv). unfold msPerDay. lia.
  - apply Math_round_nearest.
  - rewrite !recordUsage_unfold, Hc.
    unfold subscriptionItems_createUsageRecord, request. cbn.
    unfold applyUsage. cbn. apply insert_insert_eq.
Qed.

End WithProvider.

Lemma recordUsage_payload_witness :
  (selectedClient demoDriver live = Some {| apiKey := "sk_live_1" |} /\
   parseDateOnly "2025-01-01" = Some (2025, 1, 1) /\
   validDate 2025 0 1) /\
  exists o,
    calls (recordUsage demoDriver (demoParams live)
             (start [GotUsageRecord {| ur_id := "ur_test" |}])).2 =
      [({| apiKey := "sk_live_1" |},
        CreateUsageRecord "si_123"
          {| urc_quantity := Math_round (201 # 2);
             urc_timestamp := Some (86400 * MakeDay 2025 0 1);
             urc_action := "set" |}
          (usageOptions (demoParams live)), o)].
Proof.
  assert (Hv : validDate 2025 0 1) by (split; [lia|by vm_compute]).
  split; [repeat split; [lia|lia|apply Hv|apply Hv]|].
  exact (proj1 (recordUsage_payload demoDriver (demoParams live) {| apiKey := "sk_live_1" |}
                  (start [GotUsageRecord {| ur_id := "ur_test" |}])
                  (start (∅ : Ledger)) 2025 1 1 eq_refl eq_refl Hv)).
Defined.

Section ModeSelection.
Context {W : Type} `{StripeApi W}.

(** C8. On a driver constructed without a test credential, every operation
    requested in mode "test" ([recordUsage] with that mode, [createTestClock],
    [advanceTestClock]) fails with the configuration error and leaves the
    state as it was: no request is made, on the live client or any other.
    With a test credential, mode "test" selects the client bound to it and
    mode "live" the client bound to the live credential. *)
Theorem mode_selection opts env p cp ap (s : St W) :
  let this := constructor opts env in
  let testClient := {| apiKey := resolvedTestKey opts env |} in
  let liveClient := {| apiKey := resolvedLiveKey opts env |} in
  (resolvedTestKey opts env = "" ->
     clientForMode this test s = (inl (ConfigError configMsg), s) /\
     (mode p = test -> recordUsage this p s = (inl (ConfigError configMsg), s)) /\
     createTestClock this cp s = (inl (ConfigError configMsg), s) /\
     advanceTestClock this ap s = (inl (ConfigError configMsg), s)) /\
  (resolvedTestKey opts env <> "" ->
     clientForMode this test s = (inr testClient, s) /\
     (mode p = test ->
        exists o, calls (recordUsage this p s).2 =
          calls s ++ [(testClient, CreateUsageRecord (subscriptionItemId p)
                                     (usagePayload p) (usageOptions p), o)])) /\
  clientForMode this live s = (inr liveClient, s) /\
  (mode p = live ->
     exists o, calls (recordUsage this p s).2 =
       calls s ++ [(liveClient, CreateUsageRecord (subscriptionItemId p)
                                  (usagePayload p) (usageOptions p), o)]).
Proof.
  intros this testClient liveClient.
  assert (Hlive : stripeLive this = liveClient) by reflexivity.
  pose proof (constructor_stripeTest opts env) as Htest. fold this in Htest.
  clearbody this.
  split; [|split; [|split]].
  - intros Hk. apply truthy_empty in Hk. rewrite Hk in Htest.
    assert (Hcl : clientForMode this test s = (inl (ConfigError configMsg), s)).
    { unfold clientForMode. by rewrite Htest. }
    split; [exact Hcl|]. split; [|split].
    + intros Hm. rewrite recordUsage_unfold, Hm. cbn. by rewrite Htest.
    + unfold createTestClock, mbind, M_bind, bind. by rewrite Hcl.
    + unfold advanceTestClock, mbind, M_bind, bind. by rewrite Hcl.
  - intros Hk.
    assert (truthy (resolvedTestKey opts env) = true) as Ht.
    { destruct (truthy _) eqn:E; [done|]. by apply truthy_empty in E. }
    rewrite Ht in Htest. split.
    + unfold clientForMode. by rewrite Htest.
    + intros Hm. destruct (recordUsage_calls this p testClient s) as (o & Hc & _).
      { rewrite Hm. cbn. by rewrite Htest. }
      by exists o.
  - cbn. by rewrite Hlive.
  - intros Hm. destruct (recordUsage_calls this p liveClient s) as (o & Hc & _).
    { rewrite Hm. cbn. by rewrite Hlive. }
    by exists o.
Qed.

End ModeSelection.

Lemma mode_selection_witness :
  resolvedTestKey None {| STRIPE_SECRET_KEY := Some "sk_live_1";
                          STRIPE_TEST_SECRET_KEY := None |} = "" /\
  mode (demoParams test) = test /\
  recordUsage liveOnlyDriver (demoParams test)
      (start [GotUsageRecord {| ur_id := "ur_test" |}]) =
    (inl (ConfigError configMsg), start [GotUsageRecord {| ur_id := "ur_test" |}]).
Proof.
  split; [reflexivity|]. split; [reflexivity|].
  exact (proj1 (proj2 (proj1
    (mode_selection None {| STRIPE_SECRET_KEY := Some "sk_live_1";
                            STRIPE_TEST_SECRET_KEY := None |}
       (demoParams test) {| frozenTime := 123; name := None |}
       {| clockId := "clock_123"; adv_frozenTime := 456 |}
       (start [GotUsageRecord {| ur_id := "ur_test" |}])) eq_refl)) eq_refl).
Defined.

Section Summary.
Context {W : Type} `{StripeApi W}.

(** C10. [getUsageSummary] returns (with fuel for its four possible
    attempts) and queries the provider: its first request is the [retrieve]
    of the subscription item, and every request it makes goes through the
    client bound to the live credential, whatever test client the driver
    holds. What it returns is a summary, unless the provider rejected the
    last request made, which is then the error returned. A summary comes from
    the last attempt: one [retrieve], then one to five list requests of
    limit 100, each starting after the last summary of the page before;
    [totalUsage] is the sum over the summaries of those pages of
    [total_usage], taken as 0 where absent. Against a provider that answers
    the [retrieve] and holds one to five pages, the summary of these pages is
    returned after these requests and no other. *)
Theorem getUsageSummary_live_total fuel this item ps acct (s : St W) :
  (4 <= fuel)%nat ->
  (exists res s' new,
    getUsageSummary fuel this item ps acct s = Some (res, s') /\
    calls s' = calls s ++ new /\
    Forall (onClient (stripeLive this)) new /\
    (exists o rest,
       new = (stripeLive this, Retrieve item (accountHeader acct), o) :: rest) /\
    (forall e, res = inl e ->
       exists before c e',
         e = ApiError e' /\ new = before ++ [(stripeLive this, c, Failed e')]) /\
    forall r, res = inr r ->
      exists earlier it pages,
        new = earlier
              ++ (stripeLive this, Retrieve item (accountHeader acct), GotItem it)
              :: pageCalls (stripeLive this) item (accountHeader acct) None pages /\
        (1 <= length pages <= 5)%nat /\
        totalUsage r = foldr Z.add 0 (usageOf <$> concat (data <$> pages)) /\
        sum_subscriptionItemId r = item /\ sum_stripeAccount r = acct /\
        sum_periodStart r = ps) /\
  (forall it pages (rest : Script) cs sl,
     wellPaged 5 pages ->
     getUsageSummary fuel this item ps acct
       (mkSt (GotItem it :: (GotList <$> pages) ++ rest) cs sl) =
       Some (inr {| sum_subscriptionItemId := item; sum_stripeAccount := acct;
                    sum_periodStart := ps;
                    totalUsage := foldr Z.add 0 (usageOf <$> concat (data <$> pages)) |},
             mkSt rest
               (cs ++ (stripeLive this, Retrieve item (accountHeader acct), GotItem it)
                   :: pageCalls (stripeLive this) item (accountHeader acct) None pages)
               sl)).
Proof.
  intros Hfuel. split.
  - unfold getUsageSummary.
    destruct (retryLoop_run fuel (stripeLive this) item ps acct 0 s)
      as (res & s' & k & new & Hrun & _ & _ & Hcalls & Hcl & _);
      [done|by change (Z.to_nat (maxRetries + 1 - 0)) with 4%nat|].
    exists res, s', new. split; [done|]. split; [done|]. split; [done|].
    split; [|split].
    + destruct (retryLoop_first _ _ _ _ _ _ _ _ _ Hrun) as (o & rest & Hfirst).
      exists o, rest. rewrite Hfirst in Hcalls. by apply (inj (app (calls s))) in Hcalls.
    + intros e ->.
      destruct (retryLoop_err _ _ _ _ _ _ _ _ _ Hrun) as (before & c & e' & -> & Hlast).
      exists before, c, e'. split; [done|]. rewrite Hlast in Hcalls.
      by apply (inj (app (calls s))) in Hcalls.
    + intros r ->.
      apply retryLoop_ok in Hrun as (earlier & it & pages & Hcalls' & _ & Hlen & ->).
      exists earlier, it, pages. rewrite Hcalls' in Hcalls.
      apply (inj (app (calls s))) in Hcalls. cbn. rewrite sumPages_sum.
      repeat split; [done|lia|lia].
  - intros it pages rest cs sl Hw. unfold getUsageSummary.
    destruct fuel as [|fuel]; [lia|].
    by rewrite (retryLoop_scripted fuel _ _ _ _ _ it pages rest cs sl Hw), sumPages_sum.
Qed.

(** C4 (as the code has it). [getUsageSummary] runs its attempt, retries
    it after a failure of status 429 or 5xx, sleeping 250, 500, 1000 ms
    before the first, second and third retry, and makes no attempt after the
    third retry; an error of another status propagates at once. Failing
    with 429 twice and then succeeding, it returns the third attempt's
    summary after exactly three attempts and sleeps of 250 and 500 ms.
    [recordUsage], [createTestClock] and [advanceTestClock] make their one
    request and propagate its failure, whatever the status. *)
Theorem getUsageSummary_retry fuel this item ps acct (s : St W) :
  (4 <= fuel)%nat ->
  let attempt := summaryAttempt (stripeLive this) item ps acct in
  (exists res s' k new,
     getUsageSummary fuel this item ps acct s = Some (res, s') /\
     (k <= 3)%nat /\
     sleeps s' = sleeps s ++ take k [250; 500; 1000] /\
     calls s' = calls s ++ new /\ attemptsIn new = S k /\
     match res with
     | inl e => retryable (errorStatus e) = false \/ k = 3%nat
     | inr _ => True
     end) /\
  (forall st, retryable st = true <-> st = 429 \/ 500 <= st <= 599) /\
  (forall e s1,
     attempt s = (inl e, s1) -> retryable (errorStatus e) = false ->
     getUsageSummary fuel this item ps acct s = Some (inl e, s1)) /\
  (forall e1 e2 r s1 s2 s3,
     attempt s = (inl e1, s1) -> errorStatus e1 = 429 ->
     attempt (afterSleep 250 s1) = (inl e2, s2) -> errorStatus e2 = 429 ->
     attempt (afterSleep 500 s2) = (inr r, s3) ->
     getUsageSummary fuel this item ps acct s = Some (inr r, s3) /\
     sleeps s3 = sleeps s ++ [250; 500] /\
     exists new, calls s3 = calls s ++ new /\ attemptsIn new = 3%nat) /\
  (forall p client e w',
     selectedClient this (mode p) = Some client ->
     api_createUsageRecord client (subscriptionItemId p) (usagePayload p)
       (usageOptions p) (world s) = (inl e, w') ->
     recordUsage this p s =
       (inl (ApiError e),
        mkSt w' (calls s ++ [(client, CreateUsageRecord (subscriptionItemId p)
                                        (usagePayload p) (usageOptions p), Failed e)])
          (sleeps s))) /\
  (forall cp client e w',
     stripeTest this = Some client ->
     api_testClocksCreate client (frozenTime cp) (name cp) (world s) = (inl e, w') ->
     createTestClock this cp s =
       (inl (ApiError e),
        mkSt w' (calls s ++ [(client, TestClocksCreate (frozenTime cp) (name cp), Failed e)])
          (sleeps s))) /\
  (forall ap client e w',
     stripeTest this = Some client ->
     api_testClocksAdvance client (clockId ap) (adv_frozenTime ap) (world s) = (inl e, w') ->
     advanceTestClock this ap s =
       (inl (ApiError e),
        mkSt w' (calls s ++ [(client, TestClocksAdvance (clockId ap) (adv_frozenTime ap),
                              Failed e)])
          (sleeps s))).
Proof.
  intros Hfuel attempt.
  destruct fuel as [|[|[|[|fuel]]]]; try lia. clear Hfuel.
  split; [|split; [|split; [|split; [|split; [|split]]]]].
  - destruct (retryLoop_run (4 + fuel) (stripeLive this) item ps acct 0 s)
      as (res & s' & k & new & Hrun & Hk & Hsl & Hcalls & _ & Hn & Hres);
      [done|change (Z.to_nat (maxRetries + 1 - 0)) with 4%nat; lia|].
    unfold maxRetries in *.
    exists res, s', k, new. rewrite <- delaysFrom_0 by lia.
    repeat split; try done; [lia|].
    destruct res; [|done]. destruct Hres; [by left|right; lia].
  - apply retryable_iff.
  - intros e s1 Hatt Hre. unfold getUsageSummary.
    rewrite retryLoop_step. fold attempt. by rewrite Hatt, Hre.
  - intros e1 e2 r s1 s2 s3 H1 He1 H2 He2 H3. unfold getUsageSummary.
    rewrite retryLoop_step. fold attempt. rewrite H1, He1. cbn [retryable andb].
    change (retryable 429 && (0 <? maxRetries)) with true. cbn iota.
    rewrite retryLoop_step. fold attempt. change (delayMs 0) with 250.
    rewrite H2, He2. change (retryable 429 && (0 + 1 <? maxRetries)) with true.
    cbn iota. rewrite retryLoop_step. fold attempt. change (delayMs (0 + 1)) with 500.
    rewrite H3. split; [done|].
    apply summaryAttempt_fail in H1 as (n1 & ? & _ & Hc1 & _ & Ha1 & Hs1).
    apply summaryAttempt_fail in H2 as (n2 & ? & _ & Hc2 & _ & Ha2 & Hs2).
    apply summaryAttempt_ok_trace in H3 as (n3 & Hc3 & _ & Ha3 & Hs3).
    cbn in Hc2, Hs2, Hc3, Hs3. split.
    + rewrite Hs3, Hs2, Hs1, <- app_assoc. reflexivity.
    + exists (n1 ++ n2 ++ n3). rewrite Hc3, Hc2, Hc1, <- !app_assoc.
      split; [done|]. by rewrite !attemptsIn_app, Ha1, Ha2, Ha3.
  - intros p client e w' Hc Hapi. rewrite recordUsage_unfold, Hc.
    unfold subscriptionItems_createUsageRecord, request. by rewrite Hapi.
  - intros cp client e w' Hc Hapi.
    unfold createTestClock, clientForMode, mbind, M_bind, bind. rewrite Hc. cbn.
    unfold testClocks_create, request. by rewrite Hapi.
  - intros ap client e w' Hc Hapi.
    unfold advanceTestClock, clientForMode, mbind, M_bind, bind. rewrite Hc. cbn.
    unfold testClocks_advance, request. by rewrite Hapi.
Qed.

End Summary.

(** ** Runs against a scripted provider *)

Definition page1 : ApiList :=
  {| data := [ {| urs_id := "urs_1"; total_usage := Some 10 |};
               {| urs_id := "urs_2"; total_usage := None |} ];
     has_more := true |}.
Definition page2 : ApiList :=
  {| data := [ {| urs_id := "urs_3"; total_usage := Some 5 |} ];
     has_more := false |}.

(** Two pages, fetched at the first attempt. *)
Definition twoPages : Script :=
  [GotItem {| si_id := "si_123" |}; GotList page1; GotList page2].

(** Two attempts rejected with 429, the third one answered. *)
Definition twice429 : Script :=
  [Failed (httpError 429); Failed (httpError 429);
   GotItem {| si_id := "si_123" |}; GotList page2].

Example getUsageSummary_twoPages :
  getUsageSummary 4 demoDriver "si_123" "2025-01-01" "default" (start twoPages) =
    Some (inr {| sum_subscriptionItemId := "si_123"; sum_stripeAccount := "default";
                 sum_periodStart := "2025-01-01"; totalUsage := 15 |},
          mkSt []
            [({| apiKey := "sk_live_1" |}, Retrieve "si_123" None,
              GotItem {| si_id := "si_123" |});
             ({| apiKey := "sk_live_1" |},
              ListUsageRecordSummaries "si_123" 100 None None, GotList page1);
             ({| apiKey := "sk_live_1" |},
              ListUsageRecordSummaries "si_123" 100 (Some "urs_2") None, GotList page2)]
            []).
Proof. reflexivity. Qed.

Lemma getUsageSummary_live_total_witness :
  ((4 <= 4)%nat /\ wellPaged 5 [page1; page2]) /\
  exists r s',
    getUsageSummary 4 demoDriver "si_123" "2025-01-01" "default" (start twoPages)
      = Some (inr r, s') /\
    totalUsage r = 15 /\
    Forall (onClient {| apiKey := "sk_live_1" |}) (calls s') /\
    length (calls s') = 3%nat.
Proof.
  split; [split; [lia|reflexivity]|].
  destruct (getUsageSummary_live_total 4 demoDriver "si_123" "2025-01-01" "default"
              (start twoPages) (le_n 4))
    as [(res & s' & new & Hrun & Hcalls & Hcl & _) Hanswer].
  pose proof (Hanswer {| si_id := "si_123" |} [page1; page2] [] [] [] eq_refl) as Hsum.
  assert (Hsame : getUsageSummary 4 demoDriver "si_123" "2025-01-01" "default"
                    (start twoPages) =
                  getUsageSummary 4 demoDriver "si_123" "2025-01-01" "default"
                    (mkSt (GotItem {| si_id := "si_123" |}
                             :: (GotList <$> [page1; page2]) ++ []) [] []))
    by reflexivity.
  rewrite Hsame, Hsum in Hrun. injection Hrun as <- <-.
  eexists _, _. split; [rewrite Hsame; exact Hsum|]. split; [reflexivity|].
  split; [|reflexivity]. change (calls (start twoPages) ++ new) with new in Hcalls.
  rewrite <- Hcalls in Hcl. exact Hcl.
Defined.

Lemma getUsageSummary_retry_witness :
  (4 <= 4)%nat /\
  (summaryAttempt {| apiKey := "sk_live_1" |} "si_123" "2025-01-01" "default"
     (start twice429)).1 = inl (ApiError (httpError 429)) /\
  errorStatus (ApiError (httpError 429)) = 429 /\
  exists r s3,
    getUsageSummary 4 demoDriver "si_123" "2025-01-01" "default" (start twice429)
      = Some (inr r, s3) /\
    sleeps s3 = [250; 500] /\
    exists new, calls s3 = new /\ attemptsIn new = 3%nat.
Proof.
  split; [lia|]. split; [reflexivity|]. split; [reflexivity|].
  pose (att := summaryAttempt (W := Script) {| apiKey := "sk_live_1" |}
                 "si_123" "2025-01-01" "default").
  pose (s1 := (att (start twice429)).2).
  pose (s2 := (att (afterSleep 250 s1)).2).
  pose (s3 := (att (afterSleep 500 s2)).2).
  exists {| sum_subscriptionItemId := "si_123"; sum_stripeAccount := "default";
            sum_periodStart := "2025-01-01"; totalUsage := 5 |}, s3.
  exact (proj1 (proj2 (proj2 (proj2
    (getUsageSummary_retry 4 demoDriver "si_123" "2025-01-01" "default"
       (start twice429) (le_n 4)))))
    (ApiError (httpError 429)) (ApiError (httpError 429)) _ s1 s2 s3
    eq_refl eq_refl eq_refl eq_refl eq_refl).
Defined.

(** [recordUsage] against a provider that answers 429 once and would
    accept the next request: the status is one [getUsageSummary] retries on,
    yet the one request is all that is made, nothing is slept, and the error
    is returned; the acceptance scripted next is never asked for. *)
Lemma recordUsage_not_retried :
  retryable (errorStatus (ApiError (httpError 429))) = true /\
  recordUsage demoDriver (demoParams live)
      (start [Failed (httpError 429); GotUsageRecord {| ur_id := "ur_test" |}]) =
    (inl (ApiError (httpError 429)),
     mkSt [GotUsageRecord {| ur_id := "ur_test" |}]
       [({| apiKey := "sk_live_1" |},
         CreateUsageRecord "si_123" (usagePayload (demoParams live))
           (usageOptions (demoParams live)),
         Failed (httpError 429))]
       []).
Proof. split; reflexivity. Qed.

End DriverProps.

(* ===================================================================== *)
(** * Properties of the push idempotency key *)
(* ===================================================================== *)

Module CoreProps.
Import JsString Core StringFacts.

Definition isDigit (c : ascii) : Prop := is_Some (digitOf c).

Lemma digitChar_isDigit n : isDigit (digitChar n).
Proof.
  unfold isDigit, digitChar, digitOf.
  assert (0 <= n mod 10 < 10) as Hr by (apply Z.mod_pos_bound; lia).
  rewrite nat_ascii_embedding by lia.
  destruct (Z.leb_spec 48 (Z.of_nat (48 + Z.to_nat (n mod 10)))); [|lia].
  destruct (Z.leb_spec (Z.of_nat (48 + Z.to_nat (n mod 10))) 57); [|lia].
  cbn. eauto.
Qed.

Lemma pad6_digits n :
  String.length (pad6 n) = 6%nat /\ Forall isDigit (list_ascii_of_string (pad6 n)).
Proof.
  split; [reflexivity|].
  unfold pad6, pad4, pad3, pad2. cbn [list_ascii_of_string].
  repeat constructor; apply digitChar_isDigit.
Qed.

(** The number a string of decimal digits writes; [None] when a character
    is no digit, or there is none. *)
Fixpoint decimalValue (s : string) (acc : Z) : option Z :=
  match s with
  | EmptyString => Some acc
  | String c r => d ← digitOf c; decimalValue r (10 * acc + d)
  end.

Definition valueOf (s : string) : option Z :=
  match s with
  | EmptyString => None
  | _ => decimalValue s 0
  end.

Lemma digitOf_digitChar n : digitOf (digitChar n) = Some (n mod 10).
Proof.
  unfold digitChar, digitOf.
  assert (0 <= n mod 10 < 10) as Hr by (apply Z.mod_pos_bound; lia).
  rewrite nat_ascii_embedding by lia.
  destruct (Z.leb_spec 48 (Z.of_nat (48 + Z.to_nat (n mod 10)))); [|lia].
  destruct (Z.leb_spec (Z.of_nat (48 + Z.to_nat (n mod 10))) 57); [|lia].
  cbn [andb]. f_equal. lia.
Qed.

Lemma valueOf_pad6 n : 0 <= n < 1000000 -> valueOf (pad6 n) = Some n.
Proof.
  intros Hn. unfold valueOf, pad6, pad4, pad3, pad2. cbn [decimalValue].
  rewrite !digitOf_digitChar. cbn [mbind option_bind decimalValue]. f_equal.
  Z.div_mod_to_equations. lia.
Qed.

Ltac eval_digitOf :=
  repeat match goal with
         | |- context [digitOf (Ascii ?a ?b ?c ?d ?e ?f ?g ?h)] =>
             let v := eval vm_compute in (digitOf (Ascii a b c d e f g h)) in
             change (digitOf (Ascii a b c d e f g h)) with v
         end.

Lemma decimalValue_of_uint_acc u acc :
  decimalValue (NilEmpty.string_of_uint u) (Z.pos acc) = Some (Z.pos (Pos.of_uint_acc u acc)).
Proof.
  revert acc. induction u as [|u IH|u IH|u IH|u IH|u IH|u IH|u IH|u IH|u IH|u IH];
    intros acc; cbn [NilEmpty.string_of_uint decimalValue Pos.of_uint_acc]; [done|..];
    (etransitivity; [|apply IH]); eval_digitOf; cbn [mbind option_bind]; f_equal; lia.
Qed.

Lemma decimalValue_of_uint u :
  decimalValue (NilEmpty.string_of_uint u) 0 = Some (Z.of_N (Pos.of_uint u)).
Proof.
  induction u as [|u IH|u IH|u IH|u IH|u IH|u IH|u IH|u IH|u IH|u IH];
    cbn [NilEmpty.string_of_uint decimalValue Pos.of_uint]; [done|exact IH|..];
    (etransitivity; [|apply decimalValue_of_uint_acc]); eval_digitOf; reflexivity.
Qed.

Lemma valueOf_string_of_uint u :
  valueOf (NilZero.string_of_uint u) = Some (Z.of_N (Pos.of_uint u)).
Proof.
  destruct u; rewrite <- decimalValue_of_uint; reflexivity.
Qed.

Lemma valueOf_wholeDigits n : 0 <= n -> valueOf (wholeDigits n) = Some n.
Proof.
  intros Hn. unfold wholeDigits. rewrite valueOf_string_of_uint.
  pose proof (DecimalN.Unsigned.of_to (Z.to_N n)) as Hof. unfold N.of_uint in Hof.
  rewrite Hof. f_equal. lia.
Qed.

(** The integer part is written without leading zeros. *)
Lemma wholeDigits_canonical n :
  wholeDigits n = "0" \/
  exists c r, wholeDigits n = String c r /\ c <> "0"%char.
Proof.
  unfold wholeDigits. set (k := Z.to_N n).
  assert (Hnorm : Decimal.unorm (N.to_uint k) = N.to_uint k).
  { rewrite <- DecimalN.Unsigned.to_of. by rewrite DecimalN.Unsigned.of_to. }
  destruct (N.to_uint k) as [|u|u|u|u|u|u|u|u|u|u] eqn:Hu;
    try (right; eexists _, _; split; [reflexivity|done]).
  assert (u = Decimal.Nil \/ u <> Decimal.Nil) as [->|Hne]
    by (destruct u; first [by left|by right]); [by left|].
  rewrite DecimalFacts.unorm_D0 in Hnorm.
  pose proof (DecimalFacts.nb_digits_unorm u Hne) as Hlen.
  rewrite Hnorm in Hlen. cbn in Hlen. lia.
Qed.

(** [scaled6 x] is the integer nearest to [|x| * 10^6], the larger one on
    a tie. *)
Lemma scaled6_nearest (x : Q) :
  0 <= scaled6 x /\
  (inject_Z (scaled6 x) - (1 # 2) <= Qabs x * 1000000)%Q /\
  (Qabs x * 1000000 < inject_Z (scaled6 x) + (1 # 2))%Q.
Proof.
  unfold scaled6. set (y := (Qabs x * 1000000 + (1 # 2))%Q).
  pose proof (Qfloor_le y) as Hle. pose proof (Qlt_floor y) as Hlt.
  assert (Hy : (0 <= y)%Q).
  { unfold y. pose proof (Qabs_nonneg x). lra. }
  rewrite inject_Z_plus in Hlt. change (inject_Z 1) with 1%Q in Hlt.
  assert (Heq : (y == Qabs x * 1000000 + (1 # 2))%Q) by reflexivity.
  split; [|clearbody y; split; lra].
  change 0 with (Qfloor 0). by apply Qfloor_resp_le.
Qed.

(** C2. The push idempotency key is "push:", the tenant id, the
    subscription item, the period start and the quantity, joined by colons.
    The quantity is written with exactly six decimal places: a minus sign
    when it is negative, then the digits of [n / 10^6], a point, and the six
    digits of [n mod 10^6], [n] being the integer nearest to the absolute
    value of the quantity times 10^6 (the larger one on a tie); the digits
    before the point have no leading zero. The key is a
    function of these four values, and for the quantity 100.5 and the period
    "2025-01-01" it is the string push:T:S:2025-01-01:100.500000. *)
Theorem push_key_format (T S P : string) (q : Q) :
  let key := generateStripeIdempotencyKey
               {| tenantId := T; subscriptionItemId := S; periodStart := P;
                  quantity := q |} in
  (exists sign whole frac n,
     key = "push:" +:+ T +:+ ":" +:+ S +:+ ":" +:+ P +:+ ":"
           +:+ sign +:+ whole +:+ "." +:+ frac /\
     (sign = "-" /\ (q < 0)%Q \/ sign = "" /\ (0 <= q)%Q) /\
     String.length frac = 6%nat /\
     Forall isDigit (list_ascii_of_string frac) /\
     0 <= n /\
     (inject_Z n - (1 # 2) <= Qabs q * 1000000)%Q /\
     (Qabs q * 1000000 < inject_Z n + (1 # 2))%Q /\
     valueOf whole = Some (n / 1000000) /\
     valueOf frac = Some (n mod 1000000) /\
     (whole = "0" \/ exists c r, whole = String c r /\ c <> "0"%char)) /\
  generateStripeIdempotencyKey
    {| tenantId := T; subscriptionItemId := S; periodStart := "2025-01-01";
       quantity := (201 # 2)%Q |}
  = "push:" +:+ T +:+ ":" +:+ S +:+ ":2025-01-01:100.500000".
Proof.
  cbn zeta. split.
  - unfold generateStripeIdempotencyKey, toFixed6. cbn [tenantId subscriptionItemId
      periodStart quantity].
    destruct (scaled6_nearest q) as (Hn & Hlo & Hhi).
    exists (if Qlt_le_dec q 0 then "-" else ""), (wholeDigits (scaled6 q / 1000000)),
      (pad6 (scaled6 q mod 1000000)), (scaled6 q).
    split; [reflexivity|].
    split; [destruct (Qlt_le_dec q 0); [by left|by right]|].
    split; [apply pad6_digits|]. split; [apply pad6_digits|].
    split; [done|]. split; [done|]. split; [done|].
    split; [|split].
    + apply valueOf_wholeDigits. apply Z.div_pos; lia.
    + apply valueOf_pad6. apply Z.mod_pos_bound. lia.
    + apply wholeDigits_canonical.
  - unfold generateStripeIdempotencyKey. cbn [tenantId subscriptionItemId
      periodStart quantity].
    by change (toFixed6 (201 # 2)) with "100.500000".
Qed.

Example push_key_of_the_test :
  generateStripeIdempotencyKey
    {| tenantId := "123e4567-e89b-12d3-a456-426614174000";
       subscriptionItemId := "si_ABC123"; periodStart := "2025-01-01";
       quantity := (201 # 2)%Q |}
  = "push:123e4567-e89b-12d3-a456-426614174000:si_ABC123:2025-01-01:100.500000".
Proof. reflexivity. Qed.

Example toFixed6_examples :
  toFixed6 (1 # 3) = "0.333333" /\ toFixed6 (-(5 # 2)) = "-2.500000" /\
  toFixed6 12345 = "12345.000000" /\ toFixed6 (2 # 3) = "0.666667".
Proof. repeat split; reflexivity. Qed.

End CoreProps.

(* ===================================================================== *)
(** * Facts about the ingestion route *)
(* ===================================================================== *)

Module IngestFacts.
Import JsDate JsDateFacts JsString StringFacts Auth Ingest.

(** The events of a batch with their indices, counted from [i]. *)
Fixpoint indexed {A} (i : nat) (l : list A) : list (nat * A) :=
  match l with
  | [] => []
  | x :: r => (i, x) :: indexed (S i) r
  end.

Lemma indexed_lookup {A} (l : list A) i j x :
  l !! j = Some x -> (i + j, x)%nat ∈ indexed i l.
Proof.
  revert i j. induction l as [|y l IH]; intros i j Hj; [done|].
  destruct j as [|j]; cbn in *.
  - injection Hj as ->. rewrite Nat.add_0_r. apply list_elem_of_here.
  - apply list_elem_of_further. replace (i + S j)%nat with (S i + j)%nat by lia. by apply IH.
Qed.

Lemma indexed_elem_of {A} (l : list A) i j x :
  (j, x) ∈ indexed i l -> (i <= j)%nat /\ l !! (j - i)%nat = Some x.
Proof.
  revert i. induction l as [|y l IH]; intros i Hin; cbn in Hin.
  - by apply elem_of_nil in Hin.
  - apply elem_of_cons in Hin as [[= -> ->]|Hin].
    + rewrite Nat.sub_diag. split; [lia|done].
    + apply IH in Hin as [Hle Hl]. split; [lia|].
      replace (j - i)%nat with (S (j - S i)) by lia. done.
Qed.

Arguments toISOString : simpl never.
Arguments periodStart : simpl never.
Arguments periodStartISO : simpl never.
Arguments aggregationKey : simpl never.

(** ** The period bucket *)

Lemma periodStart_spec t :
  periodStart t = MakeDate (MakeDay (YearFromTime t) (MonthFromTime t) 1) 0 /\
  YearFromTime (periodStart t) = YearFromTime t /\
  MonthFromTime (periodStart t) = MonthFromTime t /\
  DateFromTime (periodStart t) = 1 /\
  TimeWithinDay (periodStart t) = 0 /\
  periodStart t <= t.
Proof.
  pose proof (validDate_of_time t) as [Hm Hd].
  assert (Hv : validDate (YearFromTime t) (MonthFromTime t) 1) by (split; lia).
  assert (Htod : 0 <= TimeWithinDay t < msPerDay).
  { unfold TimeWithinDay, msPerDay. apply Z.mod_pos_bound. lia. }
  assert (Heq : periodStart t = MakeDate (MakeDay (YearFromTime t) (MonthFromTime t) 1) 0).
  { unfold periodStart, setUTCHours, setUTCDate. by rewrite Day_MakeDate. }
  split; [done|]. rewrite Heq.
  destruct (fields_of_MakeDate _ _ _ 0 Hv) as (Hy & Hmo & Hda & Ht);
    [unfold msPerDay; lia|].
  repeat split; try done.
  pose proof (MakeDay_of_fields t) as Hday.
  rewrite (MakeDay_in_year _ _ _ (validDate_of_time t)) in Hday.
  rewrite (MakeDay_in_year _ _ _ Hv).
  unfold MakeDate, Day, msPerDay in *. Z.div_mod_to_equations. lia.
Qed.

Lemma periodStart_idem t : periodStart (periodStart t) = periodStart t.
Proof.
  destruct (periodStart_spec t) as (Heq & Hy & Hm & _).
  destruct (periodStart_spec (periodStart t)) as (Heq' & _).
  by rewrite Heq', Hy, Hm, <- Heq.
Qed.

(** ** Key strings and the groups they stand for *)

Fixpoint noColon (s : string) : bool :=
  match s with
  | EmptyString => true
  | String c r => negb (Ascii.eqb c ":") && noColon r
  end.

Lemma split_at_colon a a' r r' :
  noColon a = true -> noColon a' = true ->
  a +:+ ":" +:+ r = a' +:+ ":" +:+ r' -> a = a' /\ r = r'.
Proof.
  revert a'. induction a as [|c a IH]; intros [|c' a'] Ha Ha' Heq;
    rewrite ?append_cons, ?append_nil_l in Heq.
  - by injection Heq as ->.
  - injection Heq as <- _. done.
  - injection Heq as -> _. done.
  - injection Heq as -> Heq. cbn in Ha, Ha'.
    apply andb_prop in Ha as [_ Ha]. apply andb_prop in Ha' as [_ Ha'].
    destruct (IH a' Ha Ha' Heq) as [-> ->]. done.
Qed.

Lemma aggregationKey_inj t m c p t' m' c' p' :
  noColon t = true -> noColon m = true -> noColon c = true ->
  noColon t' = true -> noColon m' = true -> noColon c' = true ->
  aggregationKey t m c p = aggregationKey t' m' c' p' ->
  t = t' /\ m = m' /\ c = c' /\ p = p'.
Proof.
  unfold aggregationKey. intros Ht Hm Hc Ht' Hm' Hc' Heq.
  apply split_at_colon in Heq as [-> Heq]; [|done..].
  apply split_at_colon in Heq as [-> Heq]; [|done..].
  apply split_at_colon in Heq as [-> ->]; done.
Qed.

(** The key string of a group. *)
Definition jobKey (job : AggregationJob) : string :=
  aggregationKey (j_tenantId job) (j_metric job) (j_customerRef job) (j_periodStart job).

Definition colonFree (e : NewEvent) : Prop :=
  noColon (ne_tenantId e) = true /\ noColon (ne_metric e) = true /\
  noColon (ne_customerRef e) = true.

Lemma jobKey_eventJob e : jobKey (eventJob e) = eventJobKey e.
Proof. reflexivity. Qed.



(** The grouping loop over any way [grp] of taking the group of an
    element: an entry is added under the key string of the group unless the
    key is there already. *)
Section Grouping.
Context {A : Type} (key : A -> string) (grp : A -> AggregationJob).
Context (key_grp : forall x, key x = jobKey (grp x)).

Definition addGroup (m : list (string * AggregationJob)) (x : A)
    : list (string * AggregationJob) :=
  if has m (key x) then m else m ++ [(key x, grp x)].

Definition grouped (m : list (string * AggregationJob)) (done : list A) : Prop :=
  NoDup m.*1 /\
  (forall k job, (k, job) ∈ m -> k = jobKey job /\ exists x, x ∈ done /\ job = grp x) /\
  (forall x, x ∈ done -> jobKey (grp x) ∈ m.*1).

Lemma addGroup_grouped m done x :
  grouped m done -> grouped (addGroup m x) (done ++ [x]).
Proof.
  intros (Hnd & Hsrc & Hcov). unfold addGroup, has. rewrite key_grp.
  case_bool_decide as Hhas.
  - split; [done|]. split.
    + intros k job Hin. destruct (Hsrc k job Hin) as (-> & y & Hy & ->).
      split; [done|]. exists y. split; [set_solver|done].
    + intros y [Hy|Hy]%elem_of_app; [by apply Hcov|].
      by apply list_elem_of_singleton in Hy as ->.
  - split; [|split].
    + rewrite fmap_app. apply NoDup_app. split; [done|]. split; [|apply NoDup_singleton].
      intros k Hk Hk'. cbn in Hk'. by apply list_elem_of_singleton in Hk' as ->.
    + intros k job [Hin|Hin]%elem_of_app.
      * destruct (Hsrc k job Hin) as (-> & y & Hy & ->).
        split; [done|]. exists y. split; [set_solver|done].
      * apply list_elem_of_singleton in Hin as [= -> ->].
        split; [done|]. exists x. split; [set_solver|done].
    + intros y [Hy|Hy]%elem_of_app; rewrite fmap_app.
      * apply elem_of_app. left. by apply Hcov.
      * apply list_elem_of_singleton in Hy as ->. apply elem_of_app. right.
        cbn. apply list_elem_of_here.
Qed.

Lemma foldl_addGroup_grouped l m done :
  grouped m done -> grouped (foldl addGroup m l) (done ++ l).
Proof.
  revert m done. induction l as [|x l IH]; intros m done Hinv; cbn [foldl].
  - by rewrite app_nil_r.
  - replace (done ++ x :: l) with ((done ++ [x]) ++ l) by (by rewrite <- app_assoc).
    by apply IH, addGroup_grouped.
Qed.

Lemma grouped_nil : grouped [] [].
Proof.
  split; [apply NoDup_nil_2|]. split; [intros ? ? Hin|intros ? Hin];
    by apply elem_of_nil in Hin.
Qed.

End Grouping.

Lemma aggregationJobs_unfold inserted :
  aggregationJobs inserted = foldl (addGroup eventJobKey eventJob) [] inserted.
Proof. reflexivity. Qed.

Lemma aggregationJobs_spec (inserted : list NewEvent) :
  grouped eventJob (aggregationJobs inserted) inserted.
Proof.
  rewrite aggregationJobs_unfold.
  apply (foldl_addGroup_grouped eventJobKey eventJob
           (fun e => eq_sym (jobKey_eventJob e)) inserted [] []), grouped_nil.
Qed.

Definition jobIds (js : list BulkJob) : list string := (fun j => jobId (job_opts j)) <$> js.

Lemma jobs_ids inserted : jobIds (jobs inserted) = (aggregationJobs inserted).*1.
Proof.
  destruct (aggregationJobs_spec inserted) as (_ & Hsrc & _).
  unfold jobIds, jobs.
  induction (aggregationJobs inserted) as [|[k job] m IH]; [done|].
  cbn. f_equal.
  - symmetry. apply (Hsrc k job). apply list_elem_of_here.
  - apply IH. intros k' job' Hin. apply Hsrc. by apply list_elem_of_further.
Qed.

(** One job per key string of the inserted events; each job's id is the
    key string of its data, its delay the batching window, and its data the
    group of an inserted event. *)
Lemma jobs_spec inserted :
  NoDup (jobIds (jobs inserted)) /\
  (forall e, e ∈ inserted -> eventJobKey e ∈ jobIds (jobs inserted)) /\
  (forall j, j ∈ jobs inserted ->
     job_name j = "aggregate-counter" /\ delay (job_opts j) = 1000 /\
     jobId (job_opts j) = jobKey (job_data j) /\
     exists e, e ∈ inserted /\ job_data j = eventJob e).
Proof.
  rewrite jobs_ids.
  destruct (aggregationJobs_spec inserted) as (Hnd & Hsrc & Hcov).
  split; [done|]. split.
  - intros e He. rewrite <- jobKey_eventJob. by apply Hcov.
  - intros j (job & -> & Hin)%list_elem_of_fmap.
    apply list_elem_of_fmap in Hin as ([k job'] & -> & Hin).
    destruct (Hsrc k job' Hin) as (_ & e & He & ->).
    split; [done|]. split; [done|]. split; [done|]. eauto.
Qed.


Section Route.
Context `{CoreLib} {DB : Type} `{EventsRepository DB}.
Context (server : Server).

Definition errorResult (key : string) : Result :=
  {| r_idempotencyKey := key; r_status := error; r_error := Some tooFarMsg |}.

(** The turns of the loop that reject their event, and those that keep it. *)
Definition rejected (i : nat) (eventBatch : list Event) : list (nat * Event) :=
  List.filter (fun p => tooFar server p.1 p.2) (indexed i eventBatch).
Definition kept (i : nat) (eventBatch : list Event) : list (nat * Event) :=
  List.filter (fun p => negb (tooFar server p.1 p.2)) (indexed i eventBatch).

Lemma processEvents_run auth request i eventBatch acc loop :
  processEvents server auth request i eventBatch acc = inl loop ->
  errors loop = errors acc ++ ((fun p => (p.1, tooFarMsg)) <$> rejected i eventBatch) /\
  results loop =
    results acc ++ ((fun p => errorResult (eventKey server auth request p.2))
                      <$> rejected i eventBatch) /\
  eventsToInsert loop =
    eventsToInsert acc ++ ((fun p => prepared server auth request p.2)
                             <$> kept i eventBatch).
Proof.
  revert i acc. induction eventBatch as [|ev rest IH]; intros i acc Hrun.
  - injection Hrun as <-. cbn. by rewrite !app_nil_r.
  - cbn [processEvents] in Hrun.
    destruct (requireTenantMatch _ _ _); [|done].
    apply IH in Hrun as (He & Hr & Hi). rewrite He, Hr, Hi.
    unfold processEvent, rejected, kept. cbn [indexed List.filter fst snd].
    destruct (tooFar server i ev); cbn [negb errors results eventsToInsert fmap list_fmap];
      by rewrite <- ?app_assoc.
Qed.

(** The loop runs to its end exactly when the tenant check allows every event. *)
Lemma processEvents_allowed auth request i eventBatch acc :
  Forall (fun ev => requireTenantMatch (env server) request (Some (tenantId ev)) = Allowed)
    eventBatch ->
  exists loop, processEvents server auth request i eventBatch acc = inl loop.
Proof.
  revert i acc. induction eventBatch as [|ev rest IH]; intros i acc Hall; cbn.
  - eauto.
  - inversion Hall as [|? ? Hev Hrest]; subst. rewrite Hev. by apply IH.
Qed.

Lemma processEvents_inl auth request i eventBatch acc loop :
  processEvents server auth request i eventBatch acc = inl loop ->
  Forall (fun ev => requireTenantMatch (env server) request (Some (tenantId ev)) = Allowed)
    eventBatch.
Proof.
  revert i acc. induction eventBatch as [|ev rest IH]; intros i acc Hrun; [constructor|].
  cbn in Hrun.
  destruct (requireTenantMatch _ _ _) eqn:Hev; [|done].
  constructor; [done|]. by eapply IH.
Qed.

Lemma processEvents_denied auth request i eventBatch acc ev status :
  ev ∈ eventBatch ->
  requireTenantMatch (env server) request (Some (tenantId ev)) = Denied status ->
  exists status', processEvents server auth request i eventBatch acc = inr status'.
Proof.
  intros Hin Hden.
  destruct (processEvents server auth request i eventBatch acc) as [loop|st] eqn:Hrun;
    [|eauto].
  apply processEvents_inl in Hrun.
  rewrite Forall_forall in Hrun. specialize (Hrun ev Hin). congruence.
Qed.

(** ** The insertion *)

Lemma simulate_spec (evs : list NewEvent) (keys : gset string) :
  let '(newlyInserted, dupKeys, keys') := simulate evs keys in
  newlyInserted ⊆ evs /\
  dupKeys ⊆ ne_idempotencyKey <$> evs /\
  keys' = list_to_set (ne_idempotencyKey <$> evs) ∪ keys /\
  (forall e, e ∈ newlyInserted -> ne_idempotencyKey e ∉ keys) /\
  (forall e, e ∈ evs -> ne_idempotencyKey e ∈ keys' ) /\
  (length newlyInserted + length dupKeys = length evs)%nat.
Proof.
  unfold simulate.
  assert (forall (acc : list NewEvent * list string * gset string) done,
    (acc.1.1 ⊆ done /\ acc.1.2 ⊆ ne_idempotencyKey <$> done /\
     acc.2 = list_to_set (ne_idempotencyKey <$> done) ∪ keys /\
     (forall e, e ∈ acc.1.1 -> ne_idempotencyKey e ∉ keys) /\
     (length acc.1.1 + length acc.1.2 = length done)%nat) ->
    let r := foldl (fun '(newlyInserted, dupKeys, keys) e =>
                 let key := ne_idempotencyKey e in
                 if bool_decide (key ∈ keys) then (newlyInserted, dupKeys ++ [key], keys)
                 else (newlyInserted ++ [e], dupKeys, {[key]} ∪ keys)) acc evs in
    r.1.1 ⊆ done ++ evs /\ r.1.2 ⊆ ne_idempotencyKey <$> (done ++ evs) /\
    r.2 = list_to_set (ne_idempotencyKey <$> (done ++ evs)) ∪ keys /\
    (forall e, e ∈ r.1.1 -> ne_idempotencyKey e ∉ keys) /\
    (length r.1.1 + length r.1.2 = length (done ++ evs))%nat) as Hgen.
  { induction evs as [|e evs IH]; intros [[ins dups] ks] done Hinv; cbn [foldl].
    - by rewrite app_nil_r.
    - destruct Hinv as (Hi & Hd & Hk & Hfresh & Hlen). cbn in Hi, Hd, Hk, Hfresh, Hlen.
      replace (done ++ e :: evs) with ((done ++ [e]) ++ evs) by (by rewrite <- app_assoc).
      apply IH. clear IH. case_bool_decide as Hmem; cbn.
      + repeat split.
        * set_solver.
        * rewrite fmap_app. set_solver.
        * rewrite fmap_app, list_to_set_app_L. set_solver.
        * done.
        * rewrite !length_app. cbn. lia.
      + repeat split.
        * set_solver.
        * rewrite fmap_app. set_solver.
        * rewrite fmap_app, list_to_set_app_L. set_solver.
        * intros e' [He'|He']%elem_of_app; [by apply Hfresh|].
          apply list_elem_of_singleton in He' as ->. set_solver.
        * rewrite !length_app. cbn. lia. }
  specialize (Hgen ([], [], keys) []). cbn [app] in Hgen.
  destruct (foldl _ _ evs) as [[ins dups] ks]. cbn in Hgen.
  destruct Hgen as (Hi & Hd & Hk & Hfresh & Hlen).
  { cbn. repeat split; set_solver. }
  repeat split; try done. intros e He. rewrite Hk. set_solver.
Qed.

(** What any repository must respect for the route's bookkeeping to make
    sense: the events it reports inserted are among those it was given. *)
Class RepositoryContract := {
  inserted_given evs d ins dups d' :
    upsertBatch evs d = (Some (ins, dups), d') -> ins ⊆ evs;
}.

Lemma persist_queued evs (st st1 : State DB) ins dups :
  persist server evs st = Some (ins, dups, st1) -> queued st1 = queued st.
Proof.
  unfold persist. destruct (upsertBatch evs (db st)) as [res db'].
  destruct res as [[i d]|]; cbn.
  - destruct (_ && _ && _ && _).
    + destruct (simulate _ _) as [[? ?] ?]. by intros [= <- <- <-].
    + by intros [= <- <- <-].
  - destruct (BYPASS_AUTH (env server)); [|done]. cbn.
    destruct (_ && _ && _).
    + destruct (simulate _ _) as [[? ?] ?]. by intros [= <- <- <-].
    + by intros [= <- <- <-].
Qed.

Lemma persist_inserted_given `{!RepositoryContract} evs (st st1 : State DB) ins dups :
  persist server evs st = Some (ins, dups, st1) -> ins ⊆ evs.
Proof.
  unfold persist. destruct (upsertBatch evs (db st)) as [res db'] eqn:Hup.
  pose proof (simulate_spec evs (inMemoryIdempotencyKeys st)) as Hsim.
  destruct res as [[i d]|]; cbn.
  - destruct (_ && _ && _ && _).
    + destruct (simulate _ _) as [[? ?] ?]. intros [= <- <- <-]. apply Hsim.
    + intros [= <- <- <-]. by eapply inserted_given.
  - destruct (BYPASS_AUTH (env server)); [|done]. cbn.
    destruct (_ && _ && _).
    + destruct (simulate _ _) as [[? ?] ?]. intros [= <- <- <-]. apply Hsim.
    + intros [= <- <- <-]. set_solver.
Qed.

(** Outside the in-memory stand-in, nothing is added to [inMemoryEvents];
    inside it, only events handed to the insertion are. *)
Lemma persist_inMemoryEvents evs (st st1 : State DB) ins dups :
  persist server evs st = Some (ins, dups, st1) ->
  exists added, inMemoryEvents st1 = inMemoryEvents st ++ added /\ added ⊆ evs.
Proof.
  unfold persist. destruct (upsertBatch evs (db st)) as [res db'] eqn:Hup.
  pose proof (simulate_spec evs (inMemoryIdempotencyKeys st)) as Hsim.
  destruct res as [[i d]|]; cbn.
  - destruct (_ && _ && _ && _).
    + destruct (simulate _ _) as [[? ?] ?]. intros [= <- <- <-]. cbn. eexists. split; [done|apply Hsim].
    + intros [= <- <- <-]. exists []. cbn. rewrite app_nil_r. set_solver.
  - destruct (BYPASS_AUTH (env server)); [|done]. cbn.
    destruct (_ && _ && _).
    + destruct (simulate _ _) as [[? ?] ?]. intros [= <- <- <-]. cbn. eexists. split; [done|apply Hsim].
    + intros [= <- <- <-]. exists []. cbn. rewrite app_nil_r. set_solver.
Qed.

(** What the insertion does: the repository is handed the events, once;
    under BYPASS_AUTH, when it threw or reported nothing for events it was
    given, the in-memory stand-in decides; otherwise its answer is taken and
    the in-memory store is left alone. *)
Lemma persist_spec evs (st st1 : State DB) ins dups :
  persist server evs st = Some (ins, dups, st1) ->
  db st1 = (upsertBatch evs (db st)).2 /\ queued st1 = queued st /\
  (forall i d, (upsertBatch evs (db st)).1 = Some (i, d) ->
     BYPASS_AUTH (env server) = false \/ evs = [] \/ i <> [] \/ d <> [] ->
     ins = i /\ dups = d /\ inMemoryEvents st1 = inMemoryEvents st /\
     inMemoryIdempotencyKeys st1 = inMemoryIdempotencyKeys st) /\
  (BYPASS_AUTH (env server) = true -> evs <> [] ->
     (upsertBatch evs (db st)).1 = None \/ (upsertBatch evs (db st)).1 = Some ([], []) ->
     simulate evs (inMemoryIdempotencyKeys st) = (ins, dups, inMemoryIdempotencyKeys st1) /\
     inMemoryEvents st1 = inMemoryEvents st ++ ins).
Proof.
  unfold persist. destruct (upsertBatch evs (db st)) as [res db'] eqn:Hup. cbn [fst snd].
  destruct res as [[i0 d0]|]; cbn [mbind option_bind].
  - destruct (BYPASS_AUTH (env server)) eqn:Hb; cbn [andb].
    + case_bool_decide as He; cbn [negb andb].
      * intros [= <- <- <-]. cbn. split; [done|]. split; [done|]. split; [|done].
        by intros i d [= <- <-] _.
      * case_bool_decide as Hi; cbn [andb]; [case_bool_decide as Hd|].
        -- destruct (simulate _ _) as [[newly dupKeys] keys] eqn:Hsim.
           intros [= <- <- <-]. cbn. split; [done|]. split; [done|]. split.
           ++ intros i d [= <- <-] [?|[?|[?|?]]]; done.
           ++ done.
        -- intros [= <- <- <-]. cbn. split; [done|]. split; [done|]. split.
           ++ by intros i d [= <- <-] _.
           ++ intros _ _ [?|[= -> ->]]; done.
        -- intros [= <- <- <-]. cbn. split; [done|]. split; [done|]. split.
           ++ by intros i d [= <- <-] _.
           ++ intros _ _ [?|[= -> ->]]; done.
    + intros [= <- <- <-]. cbn. split; [done|]. split; [done|]. split; [|done].
      by intros i d [= <- <-] _.
  - destruct (BYPASS_AUTH (env server)) eqn:Hb; [|done]. cbn [mbind option_bind andb].
    case_bool_decide as He; cbn [negb andb].
    + intros [= <- <- <-]. cbn. split; [done|]. split; [done|]. split; done.
    + rewrite !bool_decide_eq_true_2 by done. cbn [andb].
      destruct (simulate _ _) as [[newly dupKeys] keys] eqn:Hsim.
      intros [= <- <- <-]. cbn. split; [done|]. split; [done|]. split; done.
Qed.

(** ** The handler, stage by stage *)

Lemma ingest_send auth request eventBatch loop inserted duplicates (st st1 : State DB) :
  getTenantId (env server) request = Some auth ->
  processEvents server auth request 0 eventBatch (mkLoop [] [] []) = inl loop ->
  persist server (eventsToInsert loop) st = Some (inserted, duplicates, st1) ->
  addBulkRejected server inserted = false ->
  ingest server request eventBatch st =
    (Send {| resp_accepted := length inserted;
             resp_duplicates := length duplicates;
             resp_requestId := requestId request;
             resp_results :=
               results loop ++ statusResults (eventsToInsert loop) inserted duplicates;
             resp_errors := if bool_decide (errors loop = []) then None
                            else Some (errors loop) |},
     enqueue server inserted st1).
Proof. intros Ha Hl Hp Hq. unfold ingest. by rewrite Ha, Hl, Hp, Hq. Qed.

(** [addBulk] is not called for nothing, nor without a queue. *)
Lemma addBulkRejected_nil : addBulkRejected server [] = false.
Proof. reflexivity. Qed.

Lemma addBulkRejected_resolves inserted :
  addBulk server (jobs inserted) = true -> addBulkRejected server inserted = false.
Proof. unfold addBulkRejected. intros ->. apply andb_false_r. Qed.

Lemma addBulkRejected_true inserted :
  addBulkRejected server inserted = true <->
  inserted <> [] /\ aggregationQueue server = true /\
  addBulk server (jobs inserted) = false.
Proof.
  unfold addBulkRejected. case_bool_decide as Hnil; cbn [negb andb].
  - split; [done|]. by intros [? _].
  - destruct (aggregationQueue server), (addBulk server (jobs inserted)); cbn;
      split; try done; intros (_ & ? & ?); done.
Qed.

Lemma ingest_refused auth request eventBatch status (st : State DB) :
  getTenantId (env server) request = Some auth ->
  processEvents server auth request 0 eventBatch (mkLoop [] [] []) = inr status ->
  ingest server request eventBatch st = (Refused status, st).
Proof. intros Ha Hl. unfold ingest. by rewrite Ha, Hl. Qed.

(** A reply is sent only after the loop ended and the insertion answered. *)
Lemma ingest_sent request eventBatch body (st st' : State DB) :
  ingest server request eventBatch st = (Send body, st') ->
  exists auth loop inserted duplicates st1,
    getTenantId (env server) request = Some auth /\
    processEvents server auth request 0 eventBatch (mkLoop [] [] []) = inl loop /\
    persist server (eventsToInsert loop) st = Some (inserted, duplicates, st1) /\
    body = {| resp_accepted := length inserted;
              resp_duplicates := length duplicates;
              resp_requestId := requestId request;
              resp_results :=
                results loop ++ statusResults (eventsToInsert loop) inserted duplicates;
              resp_errors := if bool_decide (errors loop = []) then None
                             else Some (errors loop) |} /\
    st' = enqueue server inserted st1.
Proof.
  unfold ingest.
  destruct (getTenantId _ _) as [auth|] eqn:Ha; [|done].
  destruct (processEvents _ _ _ _ _ _) as [loop|status] eqn:Hl; [|done].
  destruct (persist _ _ _) as [[[inserted duplicates] st1]|] eqn:Hp; [|done].
  destruct (addBulkRejected server inserted); [done|].
  intros [= <- <-]. by exists auth, loop, inserted, duplicates, st1.
Qed.

Lemma enqueue_queued inserted (st : State DB) :
  queued (enqueue server inserted st) =
    queued st ++ (if aggregationQueue server then jobs inserted else []).
Proof.
  unfold enqueue. destruct (bool_decide (inserted = [])) eqn:Hnil; cbn [negb andb].
  - apply bool_decide_eq_true in Hnil as ->.
    destruct (aggregationQueue server); by rewrite app_nil_r.
  - destruct (aggregationQueue server); [done|]. by rewrite app_nil_r.
Qed.

Lemma enqueue_inMemoryEvents inserted (st : State DB) :
  inMemoryEvents (enqueue server inserted st) = inMemoryEvents st.
Proof. unfold enqueue. by destruct (_ && _). Qed.

(** A request that is refused leaves the state as it was. One that throws
    does so before the loop (no tenant), when the repository threw, or when
    [addBulk] rejected the jobs: then the insertion is done, and the state
    is the one it left. *)
Lemma ingest_refused_inv request eventBatch status (st st' : State DB) :
  ingest server request eventBatch st = (Refused status, st') -> st' = st.
Proof.
  unfold ingest.
  destruct (getTenantId _ _) as [auth|]; [|done].
  destruct (processEvents _ _ _ _ _ _) as [loop|status']; [|by intros [= _ <-]].
  destruct (persist _ _ _) as [[[inserted duplicates] st1]|]; [|done].
  by destruct (addBulkRejected server inserted).
Qed.

Lemma ingest_thrown_inv request eventBatch msg (st st' : State DB) :
  ingest server request eventBatch st = (Thrown msg, st') ->
  (inMemoryEvents st' = inMemoryEvents st /\
   inMemoryIdempotencyKeys st' = inMemoryIdempotencyKeys st /\ queued st' = queued st) \/
  exists auth loop inserted duplicates,
    getTenantId (env server) request = Some auth /\
    processEvents server auth request 0 eventBatch (mkLoop [] [] []) = inl loop /\
    persist server (eventsToInsert loop) st = Some (inserted, duplicates, st') /\
    addBulkRejected server inserted = true.
Proof.
  unfold ingest.
  destruct (getTenantId _ _) as [auth|] eqn:Ha; [|intros [= _ <-]; by left].
  destruct (processEvents _ _ _ _ _ _) as [loop|status'] eqn:Hl; [|done].
  destruct (persist _ _ _) as [[[inserted duplicates] st1]|] eqn:Hp.
  - destruct (addBulkRejected server inserted) eqn:Hq; [|done].
    intros [= _ <-]. right. by exists auth, loop, inserted, duplicates.
  - intros [= _ <-]. by left.
Qed.

Lemma ingest_thrown_db request eventBatch msg (st st' : State DB) :
  ingest server request eventBatch st = (Thrown msg, st') ->
  db st' = db st \/
  exists auth loop,
    getTenantId (env server) request = Some auth /\
    processEvents server auth request 0 eventBatch (mkLoop [] [] []) = inl loop /\
    db st' = (upsertBatch (eventsToInsert loop) (db st)).2.
Proof.
  unfold ingest.
  destruct (getTenantId _ _) as [auth|] eqn:Ha; [|intros [= _ <-]; by left].
  destruct (processEvents _ _ _ _ _ _) as [loop|status'] eqn:Hl; [|done].
  destruct (persist _ _ _) as [[[inserted duplicates] st1]|] eqn:Hp.
  - destruct (addBulkRejected server inserted) eqn:Hq; [|done].
    intros [= _ <-]. right. exists auth, loop. split; [done|]. split; [done|].
    by destruct (persist_spec _ _ _ _ _ Hp) as (? & _).
  - intros [= _ <-]. right. by exists auth, loop.
Qed.

(** The status of an event handed to the repository depends on its key
    alone: two events of one batch with the same key are reported alike. *)
Definition statusOf (insertedKeys duplicateKeys : gset string) (e : NewEvent)
    : option Result :=
  let key := ne_idempotencyKey e in
  if bool_decide (key ∈ insertedKeys)
  then Some {| r_idempotencyKey := key; r_status := accepted; r_error := None |}
  else if bool_decide (key ∈ duplicateKeys)
  then Some {| r_idempotencyKey := key; r_status := duplicate; r_error := None |}
  else None.

Lemma statusResults_omap evs inserted duplicates :
  statusResults evs inserted duplicates =
    omap (statusOf (list_to_set (ne_idempotencyKey <$> inserted))
            (list_to_set duplicates)) evs.
Proof.
  unfold statusResults. cbn zeta.
  set (ik := list_to_set (ne_idempotencyKey <$> inserted) : gset string).
  set (dk := list_to_set duplicates : gset string).
  assert (forall acc,
    foldl (fun results e =>
             let key := ne_idempotencyKey e in
             if bool_decide (key ∈ ik)
             then results ++ [{| r_idempotencyKey := key; r_status := accepted;
                                 r_error := None |}]
             else if bool_decide (key ∈ dk)
             then results ++ [{| r_idempotencyKey := key; r_status := duplicate;
                                 r_error := None |}]
             else results) acc evs
    = acc ++ omap (statusOf ik dk) evs) as Hgen.
  { induction evs as [|e evs IH]; intros acc; cbn [foldl omap list_omap].
    - by rewrite app_nil_r.
    - rewrite IH. unfold statusOf at 2. cbn zeta.
      repeat case_bool_decide; by rewrite <- ?app_assoc. }
  apply (Hgen []).
Qed.

Lemma same_key_same_status insertedKeys duplicateKeys e1 e2 :
  ne_idempotencyKey e1 = ne_idempotencyKey e2 ->
  statusOf insertedKeys duplicateKeys e1 = statusOf insertedKeys duplicateKeys e2.
Proof. unfold statusOf. by intros ->. Qed.

End Route.

(** ** The two repositories keep the contract *)

Lemma upsertIfAbsent_spec (evs : list NewEvent) (t : Table) :
  let '(inserted, duplicates, t') := upsertIfAbsent evs t in
  inserted ⊆ evs /\
  duplicates ⊆ ne_idempotencyKey <$> evs /\
  dom t' = list_to_set (ne_idempotencyKey <$> evs) ∪ dom t /\
  (forall e, e ∈ inserted -> t !! ne_idempotencyKey e = None) /\
  (forall k, k ∈ duplicates -> is_Some (t' !! k)) /\
  (length inserted + length duplicates = length evs)%nat.
Proof.
  unfold upsertIfAbsent.
  assert (forall (acc : list NewEvent * list string * Table) done,
    (acc.1.1 ⊆ done /\ acc.1.2 ⊆ ne_idempotencyKey <$> done /\
     dom acc.2 = list_to_set (ne_idempotencyKey <$> done) ∪ dom t /\
     (forall e, e ∈ acc.1.1 -> t !! ne_idempotencyKey e = None) /\
     (forall k, k ∈ acc.1.2 -> is_Some (acc.2 !! k)) /\
     (length acc.1.1 + length acc.1.2 = length done)%nat) ->
    let r := foldl (fun '(inserted, duplicates, t) e =>
                 let key := ne_idempotencyKey e in
                 match t !! key with
                 | Some _ => (inserted, duplicates ++ [key], t)
                 | None => (inserted ++ [e], duplicates, <[key := e]> t)
                 end) acc evs in
    r.1.1 ⊆ done ++ evs /\ r.1.2 ⊆ ne_idempotencyKey <$> (done ++ evs) /\
    dom r.2 = list_to_set (ne_idempotencyKey <$> (done ++ evs)) ∪ dom t /\
    (forall e, e ∈ r.1.1 -> t !! ne_idempotencyKey e = None) /\
    (forall k, k ∈ r.1.2 -> is_Some (r.2 !! k)) /\
    (length r.1.1 + length r.1.2 = length (done ++ evs))%nat) as Hgen.
  { induction evs as [|e evs IH]; intros [[ins dups] t0] done Hinv; cbn [foldl].
    - by rewrite app_nil_r.
    - destruct Hinv as (Hi & Hd & Hk & Hfresh & Hdup & Hlen).
      cbn in Hi, Hd, Hk, Hfresh, Hdup, Hlen.
      replace (done ++ e :: evs) with ((done ++ [e]) ++ evs) by (by rewrite <- app_assoc).
      apply IH. clear IH. cbn zeta.
      destruct (t0 !! ne_idempotencyKey e) as [old|] eqn:Hlook; cbn.
      + split; [set_solver|]. split; [rewrite fmap_app; set_solver|].
        split; [|split; [done|split]].
        * rewrite fmap_app, list_to_set_app_L, Hk. cbn.
          apply elem_of_dom_2 in Hlook. set_solver.
        * intros k [Hk'|Hk']%elem_of_app; [by apply Hdup|].
          apply list_elem_of_singleton in Hk' as ->. eauto.
        * rewrite !length_app. cbn. lia.
      + split; [set_solver|]. split; [rewrite fmap_app; set_solver|].
        split; [|split; [|split]].
        * rewrite dom_insert_L, fmap_app, list_to_set_app_L, Hk. cbn. set_solver.
        * intros e' [He'|He']%elem_of_app; [by apply Hfresh|].
          apply list_elem_of_singleton in He' as ->.
          apply not_elem_of_dom. apply not_elem_of_dom in Hlook. set_solver.
        * intros k Hk'. destruct (decide (k = ne_idempotencyKey e)) as [->|Hne].
          -- rewrite lookup_insert_eq. eauto.
          -- rewrite lookup_insert_ne by done. by apply Hdup.
        * rewrite !length_app. cbn. lia. }
  specialize (Hgen ([], [], t) []). cbn [app] in Hgen.
  destruct (foldl _ _ evs) as [[ins dups] t']. cbn in Hgen.
  apply Hgen. cbn. split; [set_solver|]. split; [set_solver|]. split; [set_solver|].
  split; [intros ? Hin; by apply elem_of_nil in Hin|].
  split; [intros ? Hin; by apply elem_of_nil in Hin|done].
Qed.

#[global] Instance fallback_contract : RepositoryContract (DB := unit).
Proof. constructor. intros evs d ins dups d' [= <- <- <-]. set_solver. Qed.

#[global] Instance table_contract : RepositoryContract (DB := Table).
Proof.
  constructor. intros evs d ins dups d'. cbn.
  pose proof (upsertIfAbsent_spec evs d) as Hspec.
  destruct (upsertIfAbsent evs d) as [[i du] t']. intros [= <- <- <-]. apply Hspec.
Qed.

End IngestFacts.

(* ===================================================================== *)
(** * Properties of the ingestion route *)
(* ===================================================================== *)

Module IngestProps.
Import JsDate JsDateFacts JsString StringFacts Auth Ingest IngestFacts.

(** ** A concrete setting to run the route in *)

Definition digitsAt (s : string) (pos len : nat) : Z :=
  fold_left (fun acc c => 10 * acc + default 0 (digitOf c))
    (list_ascii_of_string (substring pos len s)) 0.

(** A stand-in for the Date of an event's [ts], reading the UTC forms
    [YYYY-MM-DDTHH:mm:ssZ] and [YYYY-MM-DDTHH:mm:ss.sssZ]; it is used to run
    the route on examples only, and answers 0 on other strings. *)
Definition parseIsoUtc (s : string) : Z :=
  match Date_getTime (substring 0 10 s) with
  | Some day =>
      day + MakeTime (digitsAt s 11 2) (digitsAt s 14 2) (digitsAt s 17 2)
              (if String.eqb (substring 19 1 s) "." then digitsAt s 20 3 else 0)
  | None => 0
  end.

(** A stand-in for the key derivation of @stripemeter/core: the five inputs
    joined by bars. *)
Definition joinedKey (k : KeyInput) : string :=
  "evt|" +:+ k_tenantId k +:+ "|" +:+ k_metric k +:+ "|" +:+ k_customerRef k
  +:+ "|" +:+ default "" (k_resourceId k) +:+ "|" +:+ k_ts k.

#[local] Instance demoCore : CoreLib := {|
  generateIdempotencyKey := joinedKey;
  Date_parse := parseIsoUtc;
|}.

Definition noon : Z := parseIsoUtc "2025-01-15T12:00:00.000Z".

Definition production : ProcessEnv :=
  {| BYPASS_AUTH := false; NODE_ENV_test := false; FORCE_AUTH := false |}.
Definition bypassing : ProcessEnv :=
  {| BYPASS_AUTH := true; NODE_ENV_test := false; FORCE_AUTH := false |}.

Definition liveServer : Server :=
  {| env := production; aggregationQueue := true; addBulk := fun _ => true;
     now := fun _ => noon |}.
Definition bypassServer : Server :=
  {| env := bypassing; aggregationQueue := true; addBulk := fun _ => true;
     now := fun _ => noon |}.

Definition requestOf (org : string) : Request :=
  {| organisationId := Some org; idempotencyKeyHeader := HeaderAbsent; requestId := "req-1" |}.

Definition usage (tenant metric0 customer at_ : string) (key : option string) : Event :=
  {| tenantId := tenant; metric := metric0; customerRef := customer; resourceId := None;
     quantity := 100%Q; ts := at_; meta := None; idempotencyKey := key; source := None |}.

Definition fresh {DB} (d : DB) : State DB := mkState d ∅ [] [].

Definition c1 : Event := usage "org-1" "requests" "c1" "2025-01-15T10:00:00.000Z" None.

Section Route.
Context `{CoreLib} {DB : Type} `{EventsRepository DB}.
Context (server : Server).

Lemma tooFar_iff i ev :
  tooFar server i ev = true <-> Date_parse (ts ev) > now server i + 3600000.
Proof.
  unfold tooFar. cbn zeta. change (60 * 60 * 1000) with 3600000.
  rewrite Z.gtb_ltb, Z.ltb_lt. lia.
Qed.


(** C6 (as the code has it). An event whose timestamp is more than one
    hour (3 600 000 ms) after the clock reading of its turn is never handed
    to the repository, never stored in memory and gives rise to no job,
    however the request ends. When a reply is sent, it carries an error
    under the event's index and a result of status [error] for it, and the
    other events are processed as a batch of their own: the repository is
    handed, once, the prepared events of exactly the other turns, in order;
    the reply counts what the insertion reports inserted and duplicate and
    holds, after the results of the rejected events, one result per event
    handed over whose key is reported; the insertion is the repository's
    answer, or under BYPASS_AUTH the in-memory stand-in when the repository
    threw or reported nothing; and the jobs of the inserted events are added
    to the queue when there is one. No error is reported under the index
    when no reply is sent: a request refused for the tenant of another event
    leaves the state as it was, and when the handler throws, nothing is
    queued, the repository was handed nothing or the prepared events of the
    other turns, and what was added to the in-memory events (when [addBulk]
    rejected the jobs after the insertion) is among the events of the other
    turns. *)
Theorem future_event_rejected `{!RepositoryContract} request eventBatch i ev
    (st : State DB) :
  eventBatch !! i = Some ev ->
  Date_parse (ts ev) > now server i + 3600000 ->
  match ingest server request eventBatch st with
  | (Send body, st') =>
      exists auth loop inserted duplicates st1,
        processEvents server auth request 0 eventBatch (mkLoop [] [] []) = inl loop /\
        persist server (eventsToInsert loop) st = Some (inserted, duplicates, st1) /\
        (exists errs, resp_errors body = Some errs /\ (i, tooFarMsg) ∈ errs) /\
        errorResult (eventKey server auth request ev) ∈ resp_results body /\
        eventsToInsert loop =
          (fun p => prepared server auth request p.2) <$> kept server 0 eventBatch /\
        ((i, ev) ∉ kept server 0 eventBatch) /\
        (forall j ev', eventBatch !! j = Some ev' ->
           Date_parse (ts ev') <= now server j + 3600000 ->
           (j, ev') ∈ kept server 0 eventBatch) /\
        resp_accepted body = length inserted /\
        inserted ⊆ eventsToInsert loop /\
        (exists added, inMemoryEvents st' = inMemoryEvents st ++ added /\
                       added ⊆ eventsToInsert loop) /\
        (forall j, j ∈ queued st' ->
           j ∈ queued st \/
           exists p, p ∈ kept server 0 eventBatch /\
                     job_data j = eventJob (prepared server auth request p.2)) /\
        resp_duplicates body = length duplicates /\
        resp_results body =
          ((fun p => errorResult (eventKey server auth request p.2))
             <$> rejected server 0 eventBatch)
          ++ statusResults (eventsToInsert loop) inserted duplicates /\
        resp_errors body =
          Some ((fun p => (p.1, tooFarMsg)) <$> rejected server 0 eventBatch) /\
        db st' = (upsertBatch (eventsToInsert loop) (db st)).2 /\
        (forall ins dups,
           (upsertBatch (eventsToInsert loop) (db st)).1 = Some (ins, dups) ->
           BYPASS_AUTH (env server) = false \/ eventsToInsert loop = [] \/
             ins <> [] \/ dups <> [] ->
           inserted = ins /\ duplicates = dups /\
           inMemoryEvents st' = inMemoryEvents st /\
           inMemoryIdempotencyKeys st' = inMemoryIdempotencyKeys st) /\
        (BYPASS_AUTH (env server) = true -> eventsToInsert loop <> [] ->
           (upsertBatch (eventsToInsert loop) (db st)).1 = None \/
           (upsertBatch (eventsToInsert loop) (db st)).1 = Some ([], []) ->
           simulate (eventsToInsert loop) (inMemoryIdempotencyKeys st)
             = (inserted, duplicates, inMemoryIdempotencyKeys st') /\
           inMemoryEvents st' = inMemoryEvents st ++ inserted) /\
        queued st' = queued st ++ (if aggregationQueue server then jobs inserted else []) /\
        getTenantId (env server) request = Some auth
  | (Refused _, st') => st' = st
  | (Thrown _, st') =>
      queued st' = queued st /\
      (exists added,
         inMemoryEvents st' = inMemoryEvents st ++ added /\
         (added <> [] ->
            exists auth,
              getTenantId (env server) request = Some auth /\
              added ⊆ (fun p => prepared server auth request p.2)
                        <$> kept server 0 eventBatch /\
              (i, ev) ∉ kept server 0 eventBatch)) /\
      (db st' = db st \/
       exists auth,
         getTenantId (env server) request = Some auth /\
         db st' = (upsertBatch ((fun p => prepared server auth request p.2)
                                  <$> kept server 0 eventBatch) (db st)).2)
  end.
Proof.
  intros Hi Hfar.
  assert (Hout : (i, ev) ∉ kept server 0 eventBatch).
  { unfold kept. rewrite list_elem_of_In, List.filter_In. intros [_ Hk].
    cbn in Hk. apply tooFar_iff in Hfar. by rewrite Hfar in Hk. }
  destruct (ingest server request eventBatch st) as [[body|status|msg] st'] eqn:Hrun;
    [|by eapply ingest_refused_inv|].
  2:{ pose proof (ingest_thrown_db server _ _ _ _ _ Hrun) as Hdb.
      assert (Hdb' : db st' = db st \/
                exists auth,
                  getTenantId (env server) request = Some auth /\
                  db st' = (upsertBatch ((fun p => prepared server auth request p.2)
                                           <$> kept server 0 eventBatch) (db st)).2).
      { destruct Hdb as [Hsame|(auth & loop & Ha & Hloop & Hdb)]; [by left|right].
        exists auth. split; [done|].
        apply processEvents_run in Hloop as (_ & _ & Hins).
        cbn [eventsToInsert app] in Hins. by rewrite <- Hins. }
      apply ingest_thrown_inv in Hrun
        as [(Hev & _ & Hq)|(auth & loop & inserted & duplicates & Ha & Hloop & Hp & _)].
      - split; [done|]. split; [|done].
        exists []. rewrite app_nil_r. split; [done|]. by intros [].
      - split; [by eapply persist_queued|]. split; [|done].
        destruct (persist_inMemoryEvents server _ _ _ _ _ Hp) as (added & Hadd & Hsub).
        exists added. split; [done|]. intros _. exists auth. split; [done|].
        apply processEvents_run in Hloop as (_ & _ & Hins).
        cbn [eventsToInsert app] in Hins. by rewrite <- Hins. }
  apply ingest_sent in Hrun as (auth & loop & inserted & duplicates & st1 &
                                 Ha & Hloop & Hp & -> & ->).
  exists auth, loop, inserted, duplicates, st1.
  apply processEvents_run in Hloop as Hrun. destruct Hrun as (He & Hr & Hins).
  cbn [errors results eventsToInsert app] in He, Hr, Hins.
  assert (Hrej : (i, ev) ∈ rejected server 0 eventBatch).
  { unfold rejected. apply list_elem_of_In, List.filter_In. split.
    - apply list_elem_of_In. by apply (indexed_lookup eventBatch 0 i ev).
    - by apply tooFar_iff. }
  assert (Herr : (i, tooFarMsg) ∈ errors loop).
  { rewrite He. apply list_elem_of_fmap. by exists (i, ev). }
  assert (Hres : errorResult (eventKey server auth request ev) ∈ results loop).
  { rewrite Hr. apply list_elem_of_fmap. by exists (i, ev). }
  pose proof (persist_inserted_given server _ _ _ _ _ Hp) as Hsub.
  destruct (persist_spec server _ _ _ _ _ Hp) as (Hdb & Hq & Hgiven & Hstand).
  assert (Herrs : (if bool_decide (errors loop = []) then None else Some (errors loop))
                  = Some (errors loop)).
  { case_bool_decide as Hnil; [|done]. rewrite Hnil in Herr. by apply elem_of_nil in Herr. }
  cbn [resp_errors resp_results resp_accepted resp_duplicates].
  split; [done|]. split; [done|]. split; [rewrite Herrs; eauto|].
  split; [apply elem_of_app; by left|]. split; [done|]. split; [done|].
  split.
  { intros j ev' Hj Hle. unfold kept. apply list_elem_of_In, List.filter_In. split.
    - apply list_elem_of_In. by apply (indexed_lookup eventBatch 0 j ev').
    - cbn. destruct (tooFar server j ev') eqn:Hf; [|done].
      apply tooFar_iff in Hf. lia. }
  split; [done|]. split; [done|]. split.
  { rewrite enqueue_inMemoryEvents. by eapply persist_inMemoryEvents. }
  split.
  { intros j. rewrite enqueue_queued, Hq.
    intros [Hold|Hnew]%elem_of_app; [by left|right].
    destruct (aggregationQueue server); [|by apply elem_of_nil in Hnew].
    destruct (jobs_spec inserted) as (_ & _ & Hsrc).
    destruct (Hsrc j Hnew) as (_ & _ & _ & e & He' & Hd).
    apply Hsub in He'. rewrite Hins in He'.
    apply list_elem_of_fmap in He' as (p & -> & Hp'). eauto. }
  split; [done|]. split; [by rewrite Hr|]. split; [by rewrite Herrs, He|].
  assert (Henq : db (enqueue server inserted st1) = db st1 /\
                 inMemoryIdempotencyKeys (enqueue server inserted st1)
                   = inMemoryIdempotencyKeys st1)
    by (unfold enqueue; by destruct (_ && _)).
  destruct Henq as [Hedb Hekeys].
  split; [by rewrite Hedb|]. split.
  { intros ins dups Hans Hcase. rewrite enqueue_inMemoryEvents, Hekeys.
    by apply Hgiven. }
  split.
  { intros Hb Hne Hans. rewrite enqueue_inMemoryEvents, Hekeys. by apply Hstand. }
  split; [by rewrite enqueue_queued, Hq|done].
Qed.


Lemma requireTenantMatch_strict request org t :
  BYPASS_AUTH (env server) = false -> testBypass (env server) = false ->
  getTenantId (env server) request = Some org ->
  organisationId request = Some org /\
  requireTenantMatch (env server) request (Some t) =
    if String.eqb t "" || String.eqb t org then Allowed else Denied 403.
Proof.
  intros Hb Ht. unfold getTenantId, requireTenantMatch. rewrite Hb, Ht. cbn [orb].
  destruct (truthy (organisationId request)) eqn:Htr; cbn [negb]; [|done].
  intros Horg. split; [done|]. rewrite Horg. cbn [truthy].
  destruct (String.eqb_spec t ""); cbn [negb orb]; [done|].
  destruct (String.eqb_spec t org) as [->|Hne].
  - by rewrite bool_decide_eq_true_2.
  - rewrite bool_decide_eq_false_2; [done|congruence].
Qed.

Lemma processEvents_inr auth request i eventBatch acc status :
  processEvents server auth request i eventBatch acc = inr status ->
  exists ev, ev ∈ eventBatch /\
    requireTenantMatch (env server) request (Some (tenantId ev)) = Denied status.
Proof.
  revert i acc. induction eventBatch as [|ev rest IH]; intros i acc Hrun; [done|].
  cbn in Hrun. destruct (requireTenantMatch _ _ _) eqn:Hev.
  - apply IH in Hrun as (ev' & Hin & Hden). exists ev'. split; [|done].
    by apply list_elem_of_further.
  - injection Hrun as ->. exists ev. split; [apply list_elem_of_here|done].
Qed.

(** C9 (as the code has it). Unless BYPASS_AUTH is 1, every event handed
    to the insertion carries the authenticated tenant's id. With the bypass
    off altogether, the tenant check runs on every event before anything is
    inserted: an event whose declared tenant id is not empty and differs from
    the authenticated tenant's makes the handler answer 403 and return with
    the state untouched, so a reply is sent only for a batch whose events
    all declare the authenticated tenant (or none). Under BYPASS_AUTH the
    check allows every event and the event keeps the tenant id it declares. *)
Theorem tenant_scoping request eventBatch (st : State DB) :
  (BYPASS_AUTH (env server) = false ->
   forall auth loop,
     getTenantId (env server) request = Some auth ->
     processEvents server auth request 0 eventBatch (mkLoop [] [] []) = inl loop ->
     Forall (fun e => ne_tenantId e = auth) (eventsToInsert loop)) /\
  (BYPASS_AUTH (env server) = false -> testBypass (env server) = false ->
   forall org,
     getTenantId (env server) request = Some org ->
     organisationId request = Some org /\
     (forall ev, ev ∈ eventBatch -> tenantId ev <> "" -> tenantId ev <> org ->
        ingest server request eventBatch st = (Refused 403, st)) /\
     (forall body st',
        ingest server request eventBatch st = (Send body, st') ->
        Forall (fun ev => tenantId ev = "" \/ tenantId ev = org) eventBatch)) /\
  (BYPASS_AUTH (env server) = true ->
   forall auth ev,
     requireTenantMatch (env server) request (Some (tenantId ev)) = Allowed /\
     ne_tenantId (prepared server auth request ev) = tenantId ev).
Proof.
  split; [|split].
  - intros Hb auth loop _ Hl. apply processEvents_run in Hl as (_ & _ & ->).
    cbn [eventsToInsert app].
    apply Forall_fmap, Forall_forall. intros p _. cbn. unfold eventTenantId. by rewrite Hb.
  - intros Hb Ht org Horg.
    assert (Hstrict : forall t,
      requireTenantMatch (env server) request (Some t) =
        if String.eqb t "" || String.eqb t org then Allowed else Denied 403).
    { intros t. by apply requireTenantMatch_strict. }
    split; [by eapply (requireTenantMatch_strict request org "")|]. split.
    + intros ev Hin Hne Horg'.
      assert (Hden : requireTenantMatch (env server) request (Some (tenantId ev)) = Denied 403).
      { rewrite Hstrict. destruct (String.eqb_spec (tenantId ev) ""); [done|].
        by destruct (String.eqb_spec (tenantId ev) org). }
      destruct (processEvents_denied server org request 0 eventBatch (mkLoop [] [] [])
                  ev 403 Hin Hden) as (status & Hrun).
      apply processEvents_inr in Hrun as Hwho. destruct Hwho as (ev' & _ & Hden').
      rewrite Hstrict in Hden'. destruct (_ || _); [done|]. injection Hden' as <-.
      by apply (ingest_refused server org).
    + intros body st' Hrun.
      apply ingest_sent in Hrun as (auth & loop & _ & _ & _ & Ha & Hl & _).
      rewrite Horg in Ha. injection Ha as <-.
      apply processEvents_inl in Hl. eapply Forall_impl; [exact Hl|].
      intros ev Hev. cbn in Hev. rewrite Hstrict in Hev.
      destruct (String.eqb_spec (tenantId ev) ""); [by left|].
      destruct (String.eqb_spec (tenantId ev) org); [by right|done].
  - intros Hb auth ev. split.
    + unfold requireTenantMatch. by rewrite Hb.
    + cbn. unfold eventTenantId. by rewrite Hb.
Qed.

End Route.

Section Resubmission.
Context `{CoreLib}.

Lemma eventKey_env server server' auth request ev :
  env server' = env server ->
  prepared server' auth request ev = prepared server auth request ev.
Proof.
  intros He. unfold prepared, eventKey, eventTenantId. by rewrite He.
Qed.

(** An event sent alone in two requests in a row, to a server over the
    upsert-if-absent repository that has not stored its key, the queue (if
    any) taking its job: the first reply reports it accepted, the second a
    duplicate, and neither an error. *)
Lemma resubmission_is_duplicate server server' request ev auth (st : State Table) :
  BYPASS_AUTH (env server) = false -> env server' = env server ->
  getTenantId (env server) request = Some auth ->
  requireTenantMatch (env server) request (Some (tenantId ev)) = Allowed ->
  tooFar server 0 ev = false -> tooFar server' 0 ev = false ->
  addBulkRejected server [prepared server auth request ev] = false ->
  db st !! eventKey server auth request ev = None ->
  exists st1 st2,
    ingest server request [ev] st =
      (Send {| resp_accepted := 1; resp_duplicates := 0;
               resp_requestId := requestId request;
               resp_results :=
                 [{| r_idempotencyKey := eventKey server auth request ev;
                     r_status := accepted; r_error := None |}];
               resp_errors := None |}, st1) /\
    ingest server' request [ev] st1 =
      (Send {| resp_accepted := 0; resp_duplicates := 1;
               resp_requestId := requestId request;
               resp_results :=
                 [{| r_idempotencyKey := eventKey server auth request ev;
                     r_status := duplicate; r_error := None |}];
               resp_errors := None |}, st2).
Proof.
  intros Hb He Ha Hm Hf Hf' Hadd Hfresh.
  set (e := prepared server auth request ev) in *.
  set (K := eventKey server auth request ev) in *.
  assert (HK : ne_idempotencyKey e = K) by reflexivity.
  assert (Hloop : forall srv, env srv = env server -> tooFar srv 0 ev = false ->
            processEvents srv auth request 0 [ev] (mkLoop [] [] []) = inl (mkLoop [] [] [e])).
  { intros srv Hs Hfs. cbn [processEvents]. rewrite Hs, Hm. unfold processEvent.
    rewrite Hfs. cbn [errors results eventsToInsert app].
    by rewrite (eventKey_env server srv auth request ev Hs). }
  assert (Hp1 : persist server [e] st =
            Some ([e], [], mkState (<[K := e]> (db st)) (inMemoryIdempotencyKeys st)
                                   (inMemoryEvents st) (queued st))).
  { unfold persist. cbn [upsertBatch tableRepository]. unfold upsertIfAbsent.
    cbn [foldl]. rewrite HK, Hfresh. cbn [app]. rewrite Hb. reflexivity. }
  set (st1 := mkState (<[K := e]> (db st)) (inMemoryIdempotencyKeys st)
                (inMemoryEvents st) (queued st)) in *.
  assert (Hp2 : persist server' [e] (enqueue server [e] st1) =
            Some ([], [K], enqueue server [e] st1)).
  { unfold persist. cbn [upsertBatch tableRepository]. unfold upsertIfAbsent.
    cbn [foldl]. rewrite HK.
    assert (db (enqueue server [e] st1) = <[K := e]> (db st)) as Hdb.
    { unfold enqueue. by destruct (_ && _). }
    rewrite Hdb, lookup_insert_eq. cbn [app]. rewrite He, Hb. cbn [andb mbind option_bind].
    rewrite <- Hdb. by destruct (enqueue server [e] st1). }
  exists (enqueue server [e] st1), (enqueue server' [] (enqueue server [e] st1)).
  split.
  - rewrite (ingest_send server auth request [ev] _ _ _ st st1 Ha (Hloop server eq_refl Hf) Hp1
               Hadd).
    cbn [errors results eventsToInsert app length]. f_equal. f_equal.
    unfold statusResults. cbn [foldl fmap list_fmap]. rewrite HK.
    rewrite bool_decide_eq_true_2 by set_solver. reflexivity.
  - assert (Ha' : getTenantId (env server') request = Some auth) by (by rewrite He).
    rewrite (ingest_send server' auth request [ev] _ _ _ _ _ Ha' (Hloop server' He Hf') Hp2
               eq_refl).
    cbn [errors results eventsToInsert app length]. f_equal. f_equal.
    unfold statusResults. cbn [foldl fmap list_fmap]. rewrite HK.
    rewrite bool_decide_eq_false_2 by set_solver.
    rewrite bool_decide_eq_true_2 by set_solver. reflexivity.
Qed.

End Resubmission.

(** ** Runs of the route *)

Definition late : Event := usage "org-1" "requests" "c2" "2025-01-15T14:00:00.000Z" None.
Definition foreign : Event :=
  usage "tenant-b" "requests" "c1" "2025-01-15T10:00:00.000Z" None.

Definition acceptedResult (key : string) : Result :=
  {| r_idempotencyKey := key; r_status := accepted; r_error := None |}.
Definition duplicateResult (key : string) : Result :=
  {| r_idempotencyKey := key; r_status := duplicate; r_error := None |}.

Definition c1Key : string := "evt|org-1|requests|c1||2025-01-15T10:00:00.000Z".

Definition c1Stored : NewEvent :=
  {| ne_tenantId := "org-1"; ne_metric := "requests"; ne_customerRef := "c1";
     ne_resourceId := None; ne_quantity := 100%Q; ne_ts := 1736935200000;
     ne_meta := None; ne_idempotencyKey := c1Key; ne_source := "http" |}.

(** The batch of [c1] and a late event: what the loop leaves. *)
Example late_event_loop :
  processEvents liveServer "org-1" (requestOf "org-1") 0 [c1; late] (mkLoop [] [] []) =
    inl (mkLoop [(1%nat, tooFarMsg)]
           [errorResult "evt|org-1|requests|c2||2025-01-15T14:00:00.000Z"]
           [c1Stored]).
Proof. vm_compute. reflexivity. Qed.

(** C1, on the code. The same event twice in one batch: the insertion
    stores it once and reports its key once as a duplicate, the counts say
    one accepted and one duplicate, and both results say [accepted]. It is so
    with the in-memory stand-in under BYPASS_AUTH over the fallback
    repository, and with the upsert-if-absent repository in production. *)
Theorem duplicate_in_batch_both_accepted :
  (ingest bypassServer (requestOf "org-1") [c1; c1] (fresh tt)).1 =
    Send {| resp_accepted := 1; resp_duplicates := 1; resp_requestId := "req-1";
            resp_results := [acceptedResult c1Key; acceptedResult c1Key];
            resp_errors := None |} /\
  (ingest liveServer (requestOf "org-1") [c1; c1] (fresh (∅ : Table))).1 =
    Send {| resp_accepted := 1; resp_duplicates := 1; resp_requestId := "req-1";
            resp_results := [acceptedResult c1Key; acceptedResult c1Key];
            resp_errors := None |}.
Proof. split; vm_compute; reflexivity. Qed.

(** The same event in two requests in a row is accepted, then a duplicate. *)
Example resubmitted_is_duplicate :
  let first := ingest liveServer (requestOf "org-1") [c1] (fresh (∅ : Table)) in
  first.1 =
    Send {| resp_accepted := 1; resp_duplicates := 0; resp_requestId := "req-1";
            resp_results := [acceptedResult c1Key]; resp_errors := None |} /\
  (ingest liveServer (requestOf "org-1") [c1] first.2).1 =
    Send {| resp_accepted := 0; resp_duplicates := 1; resp_requestId := "req-1";
            resp_results := [duplicateResult c1Key]; resp_errors := None |}.
Proof. split; vm_compute; reflexivity. Qed.



Lemma future_event_rejected_witness :
  ([c1; late] !! 1%nat = Some late /\
   Date_parse (ts late) > now liveServer 1 + 3600000) /\
  exists body,
    (ingest liveServer (requestOf "org-1") [c1; late] (fresh (∅ : Table))).1 = Send body /\
    exists errs, resp_errors body = Some errs /\ (1%nat, tooFarMsg) ∈ errs.
Proof.
  assert (H2 : Date_parse (ts late) > now liveServer 1 + 3600000)
    by (vm_compute; reflexivity).
  split; [by split|].
  assert (Hsend : (ingest liveServer (requestOf "org-1") [c1; late] (fresh (∅ : Table))).1 =
    Send {| resp_accepted := 1; resp_duplicates := 0; resp_requestId := "req-1";
            resp_results :=
              [errorResult "evt|org-1|requests|c2||2025-01-15T14:00:00.000Z";
               acceptedResult c1Key];
            resp_errors := Some [(1%nat, tooFarMsg)] |}) by (vm_compute; reflexivity).
  pose proof (future_event_rejected liveServer (requestOf "org-1") [c1; late] 1 late
                (fresh (∅ : Table)) eq_refl H2) as Hthm.
  destruct (ingest liveServer (requestOf "org-1") [c1; late] (fresh ∅)) as [reply st'].
  cbn [fst] in Hsend. subst reply.
  destruct Hthm as (auth & loop & inserted & duplicates & st1 & _ & _ & Herrs & _).
  eexists. split; [reflexivity|exact Herrs].
Defined.

(** A late event in a batch with an event of another tenant, outside the
    bypass: the request is answered 403 and no error is reported under the
    index of the late event. *)
Lemma late_event_refused_without_error :
  ([late; foreign] !! 0%nat = Some late /\
   Date_parse (ts late) > now liveServer 0 + 3600000) /\
  ingest liveServer (requestOf "org-1") [late; foreign] (fresh (∅ : Table)) =
    (Refused 403, fresh ∅).
Proof.
  split; [split; [reflexivity|vm_compute; reflexivity]|]. vm_compute. reflexivity.
Qed.

(** Under BYPASS_AUTH, a queue that rejects the jobs: the handler throws
    after the insertion, the event kept is in the in-memory store, the late
    one is not, and nothing is queued. *)
Definition rejectingServer : Server :=
  {| env := bypassing; aggregationQueue := true; addBulk := fun _ => false;
     now := fun _ => noon |}.

Example addBulk_rejected_after_insert :
  let run := ingest rejectingServer (requestOf "org-1") [c1; late] (fresh tt) in
  run.1 = Thrown "addBulk" /\
  ne_idempotencyKey <$> inMemoryEvents run.2 = [c1Key] /\
  queued run.2 = [].
Proof. cbn zeta. split; [vm_compute; reflexivity|]. split; vm_compute; reflexivity. Qed.



Lemma tenant_scoping_witness :
  BYPASS_AUTH (env liveServer) = false /\
  testBypass (env liveServer) = false /\
  getTenantId (env liveServer) (requestOf "org-1") = Some "org-1" /\
  foreign ∈ [c1; foreign] /\
  ingest liveServer (requestOf "org-1") [c1; foreign] (fresh (∅ : Table)) =
    (Refused 403, fresh ∅).
Proof.
  split; [reflexivity|]. split; [reflexivity|]. split; [reflexivity|].
  assert (Hin : foreign ∈ [c1; foreign]) by (apply list_elem_of_further, list_elem_of_here).
  split; [exact Hin|].
  refine (proj1 (proj2 (proj1 (proj2 (tenant_scoping liveServer (requestOf "org-1")
            [c1; foreign] (fresh (∅ : Table)))) eq_refl eq_refl "org-1" eq_refl))
            foreign Hin _ _);
    discriminate.
Defined.

(** Under BYPASS_AUTH the tenant check passes an event of another tenant,
    its declared tenant id is kept, and it is stored and queued under it. *)
Lemma bypass_keeps_foreign_tenant :
  getTenantId (env bypassServer) (requestOf "org-1") = Some zeroTenant /\
  tenantId foreign <> zeroTenant /\
  (ingest bypassServer (requestOf "org-1") [foreign] (fresh tt)).1 =
    Send {| resp_accepted := 1; resp_duplicates := 0; resp_requestId := "req-1";
            resp_results :=
              [acceptedResult "evt|tenant-b|requests|c1||2025-01-15T10:00:00.000Z"];
            resp_errors := None |} /\
  ne_tenantId <$> inMemoryEvents
    (ingest bypassServer (requestOf "org-1") [foreign] (fresh tt)).2 = ["tenant-b"] /\
  jobIds (queued (ingest bypassServer (requestOf "org-1") [foreign] (fresh tt)).2) =
    ["tenant-b:requests:c1:2025-01-01T00:00:00.000Z"].
Proof.
  split; [reflexivity|]. split; [discriminate|].
  repeat split; vm_compute; reflexivity.
Qed.

End IngestProps.

(* ===================================================================== *)
(** * Properties of the API keys and scopes *)
(* ===================================================================== *)

Module ApiKeysProps.
Import Auth JsText ApiKeys StringFacts.

Definition chars (s : string) : list ascii := list_ascii_of_string s.

Lemma indexOf_Some c s n :
  indexOf c s = Some n ->
  s = substringTo n s +:+ String c (sliceFrom (S n) s) /\
  (c ∉ chars (substringTo n s)) /\
  String.length (substringTo n s) = n.
Proof.
  revert n. induction s as [|a r IH]; intros n Hn; [done|].
  cbn [indexOf] in Hn. destruct (Ascii.eqb_spec a c) as [->|Hne].
  - injection Hn as <-. cbn. split; [done|]. split; [apply not_elem_of_nil|done].
  - destruct (indexOf c r) as [m|] eqn:Hm; [|done]. injection Hn as <-.
    destruct (IH m eq_refl) as (Heq & Hnot & Hlen).
    cbn [substringTo sliceFrom]. rewrite append_cons. split; [by f_equal|].
    split; [|cbn; by rewrite Hlen].
    cbn. intros [?|?]%elem_of_cons; [congruence|done].
Qed.

Lemma indexOf_None c s : indexOf c s = None <-> c ∉ chars s.
Proof.
  induction s as [|a r IH]; cbn.
  - split; [intros _; apply not_elem_of_nil|done].
  - destruct (Ascii.eqb_spec a c) as [->|Hne].
    + split; [done|]. intros Hn. exfalso. apply Hn, list_elem_of_here.
    + destruct (indexOf c r); cbn.
      * split; [done|]. intros Hn. exfalso.
        assert (c ∈ chars r) as Hin.
        { destruct (decide (c ∈ chars r)) as [|Hno]; [done|]. by apply IH in Hno. }
        apply Hn. by apply list_elem_of_further.
      * split; [|done]. intros _ [?|?]%elem_of_cons; [congruence|]. by apply IH.
Qed.

Lemma startsWith_app p s : startsWith p (p +:+ s) = true.
Proof.
  induction p as [|a p IH]; [done|]. rewrite append_cons. cbn.
  by rewrite Ascii.eqb_refl.
Qed.

Lemma startsWith_sliceFrom p s :
  startsWith p s = true -> s = p +:+ sliceFrom (String.length p) s.
Proof.
  revert s. induction p as [|a p IH]; intros s Hs; [done|].
  destruct s as [|b s]; [done|]. cbn in Hs.
  apply andb_prop in Hs as [Hab Hs]. apply Ascii.eqb_eq in Hab as ->.
  rewrite append_cons. cbn. f_equal. by apply IH.
Qed.

Lemma sliceFrom_app p s : sliceFrom (String.length p) (p +:+ s) = s.
Proof. induction p as [|a p IH]; [done|]. by rewrite append_cons. Qed.

Lemma truthy_Some s : truthy (Some s) = true <-> s <> "".
Proof. cbn. destruct (String.eqb_spec s ""); cbn; split; congruence. Qed.

Lemma checkScopes_spec have scopes :
  (checkScopes have scopes = Granted <-> Forall (fun s => s ∈ have) scopes) /\
  (forall status s, checkScopes have scopes = Forbidden status s ->
     status = 403 /\
     exists before after, scopes = before ++ s :: after /\
       Forall (fun x => x ∈ have) before /\ s ∉ have).
Proof.
  induction scopes as [|x rest [IHg IHf]]; cbn [checkScopes].
  - split; [split; [constructor|done]|done].
  - case_bool_decide as Hx.
    + split.
      * rewrite IHg. split; [by constructor|]. by inversion 1.
      * intros status s Hden. destruct (IHf status s Hden) as (-> & before & after & -> & Hb & Hs).
        split; [done|]. exists (x :: before), after. split; [done|]. split; [by constructor|done].
    + split.
      * split; [done|]. by inversion 1.
      * intros status s [= <- <-]. split; [done|]. exists [], rest.
        split; [done|]. split; [constructor|done].
Qed.

(** X5. Outside the bypass modes the pre-handler built by [requireScopes]
    lets a request through exactly when every scope it requires is among the
    scopes of the request's tenant (none, when there is no tenant); a request
    it stops is answered 403 and counted under the first required scope, in
    the order given, that the tenant lacks. With BYPASS_AUTH, or in the test
    environment without FORCE_AUTH, every request goes through. *)
Theorem scopes_granted_iff scopes env tenant :
  let held := default [] (tc_scopes <$> tenant) in
  (requireScopes scopes env tenant = Granted <->
     BYPASS_AUTH env = true \/ testBypass env = true \/
     Forall (fun s => s ∈ held) scopes) /\
  (forall status s, requireScopes scopes env tenant = Forbidden status s ->
     BYPASS_AUTH env = false /\ testBypass env = false /\ status = 403 /\
     exists before after, scopes = before ++ s :: after /\
       Forall (fun x => x ∈ held) before /\ s ∉ held).
Proof.
  cbn zeta. unfold requireScopes.
  set (held := default [] (tc_scopes <$> tenant)).
  destruct (checkScopes_spec (list_to_set held) scopes) as [Hg Hf].
  destruct (BYPASS_AUTH env); [split; [tauto|done]|].
  destruct (testBypass env); [split; [tauto|done]|]. cbn [orb].
  split.
  - rewrite Hg. split.
    + intros Hall. right. right. eapply Forall_impl; [exact Hall|]. set_solver.
    + intros [?|[?|Hall]]; [done..|]. eapply Forall_impl; [exact Hall|]. set_solver.
  - intros status s Hden. destruct (Hf status s Hden) as (-> & before & after & -> & Hb & Hs).
    split; [done|]. split; [done|]. split; [done|]. exists before, after.
    split; [done|]. split; [|set_solver].
    eapply Forall_impl; [exact Hb|]. set_solver.
Qed.

(** The tenant context built from a row of the key table. *)
Definition tenantOf (k : ApiKeyRow) : TenantContext :=
  {| tc_organisationId := row_organisationId k;
     tc_projectId := row_projectId k;
     tc_apiKeyId := row_id k;
     tc_apiKeyPrefix := row_prefix k;
     tc_scopes := parseScopes (row_scopes k) |}.

Section Verify.
Context `{Crypto}.

(** A row that vouches for a key at a time: it carries the key's hash,
    its prefix and its last four characters, is active, not revoked and not
    expired. *)
Definition vouches (salt : option string) (now : Z) (apiKey : string) (k : ApiKeyRow)
    : Prop :=
  (exists pre rest, apiKey = pre +:+ "." +:+ rest /\ pre <> "" /\
     ("."%char ∉ chars pre) /\ row_prefix k = pre) /\
  row_lastFour k = lastChars 4 apiKey /\
  row_secretHash k = hmacSha256Base64url (getKeyDerivationSalt salt) apiKey /\
  row_active k = true /\ row_revokedAt k = None /\
  (forall expiresAt, row_expiresAt k = Some expiresAt -> now < expiresAt).

(** The key a header value carries: the value itself, or what follows
    "Bearer ". *)
Definition keyOf (raw : string) : string :=
  if startsWith "Bearer " raw then sliceFrom 7 raw else raw.

Lemma usable_spec computed now k :
  usable computed now k = true <->
  row_secretHash k = computed /\ row_active k = true /\ row_revokedAt k = None /\
  (forall expiresAt, row_expiresAt k = Some expiresAt -> now < expiresAt).
Proof.
  unfold usable. rewrite !andb_true_iff, String.eqb_eq, negb_true_iff, bool_decide_eq_false.
  split.
  - intros [[[Hh Ha] Hr] He]. split; [done|]. split; [done|]. split.
    + destruct (row_revokedAt k); [|done]. exfalso. apply Hr. eauto.
    + intros e He'. rewrite He' in He. lia.
  - intros (Hh & Ha & Hr & He). repeat split; try done.
    + rewrite Hr. by intros [? ?].
    + destruct (row_expiresAt k) as [e|]; [|done]. specialize (He e eq_refl). lia.
Qed.

Lemma selectCandidates_elem table prefix lastFour k :
  k ∈ selectCandidates table prefix lastFour ->
  k ∈ table /\ row_prefix k = prefix /\ row_lastFour k = lastFour.
Proof.
  unfold selectCandidates. intros Hin. apply subseteq_take in Hin.
  apply list_elem_of_In, List.filter_In in Hin as [Hin Hp].
  apply andb_prop in Hp as [Hp Hl]. apply String.eqb_eq in Hp, Hl.
  split; [by apply list_elem_of_In|done].
Qed.

(** X6. A request [verifyApiKey] authenticates carries, in the
    Authorization header or else in X-API-Key, a key (possibly after
    "Bearer ") with a non-empty prefix before its first dot, and the table
    holds a row with that prefix and the key's last four characters whose
    hash is the HMAC of the key under the derivation salt and which is
    active, not revoked and not expired now; the tenant set on the request
    is that row's organisation, project, id, prefix and scopes. *)
Theorem verifyApiKey_sound salt now table authorization xApiKey tenant :
  verifyApiKey salt now table authorization xApiKey = Authenticated tenant ->
  exists raw k,
    firstValue (if headerTruthy authorization then authorization else xApiKey) = Some raw /\
    raw <> "" /\ k ∈ table /\ vouches salt now (keyOf raw) k /\ tenant = tenantOf k.
Proof.
  unfold verifyApiKey. cbn zeta.
  destruct (firstValue _) as [raw|] eqn:Hraw; [|done].
  change (default "" (Some raw)) with raw. fold (keyOf raw).
  destruct (truthy (Some raw)) eqn:Htr; [|done]. apply truthy_Some in Htr.
  cbn [negb].
  destruct (indexOf "." (keyOf raw)) as [[|n]|] eqn:Hdot; [done| |done].
  destruct (List.find _ _) as [k|] eqn:Hfind; [|done].
  intros [= <-]. exists raw, k.
  apply List.find_some in Hfind as [Hin Hus].
  apply list_elem_of_In, selectCandidates_elem in Hin as (Hin & Hp & Hl).
  apply usable_spec in Hus as (Hh & Ha & Hr & He).
  apply indexOf_Some in Hdot as (Heq & Hnot & Hlen).
  split; [done|]. split; [done|]. split; [done|]. split; [|done].
  split; [|done].
  exists (substringTo (S n) (keyOf raw)), (sliceFrom (S (S n)) (keyOf raw)).
  split; [done|]. split; [|done].
  intros Hempty. by rewrite Hempty in Hlen.
Qed.

Lemma indexOf_app c pre rest :
  c ∉ chars pre -> indexOf c (pre +:+ String c rest) = Some (String.length pre).
Proof.
  induction pre as [|a pre IH]; intros Hnot.
  - rewrite append_nil_l. cbn. by rewrite Ascii.eqb_refl.
  - rewrite append_cons. cbn [indexOf String.length].
    destruct (Ascii.eqb_spec a c) as [->|Hne].
    + exfalso. apply Hnot, list_elem_of_here.
    + rewrite IH; [done|]. intros Hin. apply Hnot. by apply list_elem_of_further.
Qed.

Lemma substringTo_app pre rest : substringTo (String.length pre) (pre +:+ rest) = pre.
Proof.
  induction pre as [|a pre IH]; [done|]. rewrite append_cons. cbn. by rewrite IH.
Qed.

(** X7. A key for which the table holds a vouching row is accepted,
    provided the rows sharing that row's prefix and last four characters are
    at most the ten the lookup fetches; the tenant set is that of a vouching
    row (the first usable one among the candidates). *)
Theorem verifyApiKey_complete salt now table authorization xApiKey raw k :
  firstValue (if headerTruthy authorization then authorization else xApiKey) = Some raw ->
  raw <> "" -> k ∈ table -> vouches salt now (keyOf raw) k ->
  (length (List.filter (fun r => String.eqb (row_prefix r) (row_prefix k)
                                 && String.eqb (row_lastFour r) (row_lastFour k)) table)
   <= 10)%nat ->
  exists k', k' ∈ table /\ vouches salt now (keyOf raw) k' /\
    verifyApiKey salt now table authorization xApiKey = Authenticated (tenantOf k').
Proof.
  intros Hraw Hne Hin Hv Hlen.
  destruct Hv as ((pre & rest & Hkey & Hpre & Hnot & Hp) & Hl & Hh & Ha & Hr & He).
  unfold verifyApiKey. cbn zeta. rewrite Hraw.
  change (default "" (Some raw)) with raw. fold (keyOf raw).
  apply truthy_Some in Hne. rewrite Hne. cbn [negb].
  assert (Hdot : indexOf "." (keyOf raw) = Some (String.length pre)).
  { rewrite Hkey. change ("." +:+ rest) with (String "." rest). by apply indexOf_app. }
  rewrite Hdot. destruct (String.length pre) as [|n] eqn:Hn.
  { destruct pre; [done|discriminate Hn]. }
  assert (Hsub : substringTo (S n) (keyOf raw) = pre).
  { rewrite <- Hn, Hkey. apply substringTo_app. }
  rewrite Hsub.
  set (computed := hmacSha256Base64url (getKeyDerivationSalt salt) (keyOf raw)) in *.
  assert (Hcand : k ∈ selectCandidates table pre (lastChars 4 (keyOf raw))).
  { unfold selectCandidates. rewrite <- Hp, <- Hl. rewrite take_ge by exact Hlen.
    apply list_elem_of_In, List.filter_In. split; [by apply list_elem_of_In|].
    by rewrite !String.eqb_refl. }
  destruct (List.find (usable computed now) _) as [k'|] eqn:Hfind.
  - exists k'. apply List.find_some in Hfind as [Hin' Hus].
    apply list_elem_of_In, selectCandidates_elem in Hin' as (Hin' & Hp' & Hl').
    apply usable_spec in Hus as (Hh' & Ha' & Hr' & He').
    split; [done|]. split; [|done].
    split; [|done]. exists pre, rest. done.
  - exfalso. apply list_elem_of_In in Hcand.
    pose proof (List.find_none _ _ Hfind k Hcand) as Hno.
    assert (usable computed now k = true) as Hyes by (by apply usable_spec).
    congruence.
Qed.

Lemma bearer_cons key :
  "Bearer " +:+ key =
  String "B" (String "e" (String "a" (String "r" (String "e" (String "r" (String " " key)))))).
Proof. reflexivity. Qed.

Definition missingKey : AuthResult := Unauthorized 401 "Missing API key" "missing_api_key".
Definition badFormat : AuthResult :=
  Unauthorized 401 "Invalid API key format" "invalid_format".

(** What becomes of a key once it is read from the header. *)
Definition verifyKey (salt : option string) (now : Z) (table : list ApiKeyRow)
    (apiKey : string) : AuthResult :=
  match indexOf "." apiKey with
  | None | Some O => badFormat
  | Some dotIndex =>
      match List.find (usable (hmacSha256Base64url (getKeyDerivationSalt salt) apiKey) now)
              (selectCandidates table (substringTo dotIndex apiKey) (lastChars 4 apiKey)) with
      | None => Unauthorized 401 "Invalid API key" "invalid_key"
      | Some match_ => Authenticated (tenantOf match_)
      end
  end.

Lemma verifyApiKey_unfold salt now table authorization xApiKey :
  verifyApiKey salt now table authorization xApiKey =
    match firstValue (if headerTruthy authorization then authorization else xApiKey) with
    | Some raw => if String.eqb raw "" then missingKey else verifyKey salt now table (keyOf raw)
    | None => missingKey
    end.
Proof.
  unfold verifyApiKey. cbn zeta.
  destruct (firstValue _) as [raw|]; [|done].
  change (default "" (Some raw)) with raw. cbn [truthy].
  by destruct (String.eqb raw "").
Qed.

(** X8. The key is read alike from [Authorization: Bearer k],
    [Authorization: k] and [X-API-Key: k] (with or without "Bearer "), for
    a non-empty [k] that does not itself begin with "Bearer "; and when the
    Authorization header is there and not empty, X-API-Key is not looked at. *)
Theorem key_headers_alike salt now table key other other' :
  key <> "" -> startsWith "Bearer " key = false ->
  let direct := verifyApiKey salt now table (HeaderString key) other in
  verifyApiKey salt now table (HeaderString ("Bearer " +:+ key)) other' = direct /\
  verifyApiKey salt now table HeaderAbsent (HeaderString key) = direct /\
  verifyApiKey salt now table HeaderAbsent (HeaderString ("Bearer " +:+ key)) = direct /\
  verifyApiKey salt now table (HeaderString "") (HeaderString key) = direct /\
  verifyApiKey salt now table (HeaderArray [key]) other' = direct.
Proof.
  intros Hne Hnb direct.
  assert (Hk : String.eqb key "" = false) by (by apply String.eqb_neq).
  assert (Hbe : String.eqb ("Bearer " +:+ key) "" = false) by (by rewrite bearer_cons).
  assert (Hkey : keyOf key = key) by (unfold keyOf; by rewrite Hnb).
  assert (Hbk : keyOf ("Bearer " +:+ key) = key).
  { unfold keyOf. rewrite startsWith_app. apply (sliceFrom_app "Bearer "). }
  assert (Hdirect : direct = verifyKey salt now table key).
  { unfold direct. rewrite verifyApiKey_unfold. cbn [headerTruthy].
    rewrite Hk. cbn [negb firstValue]. by rewrite Hk, Hkey. }
  rewrite Hdirect, !verifyApiKey_unfold. cbn [headerTruthy].
  change (String.eqb "" "") with true. rewrite Hbe. cbn [negb firstValue head].
  by rewrite Hk, Hbe, Hkey, Hbk.
Qed.

(** X9. A request with no key is answered 401 "Missing API key"; a key
    without a dot, or whose first character is the dot, is answered 401
    "Invalid API key format", whatever rows the table holds. *)
Theorem malformed_key_rejected salt now table authorization xApiKey :
  let header := if headerTruthy authorization then authorization else xApiKey in
  ((firstValue header = None \/ firstValue header = Some "") ->
     verifyApiKey salt now table authorization xApiKey = missingKey) /\
  (forall raw, firstValue header = Some raw -> raw <> "" ->
     (("."%char ∉ chars (keyOf raw)) \/ exists rest, keyOf raw = String "." rest) ->
     verifyApiKey salt now table authorization xApiKey = badFormat).
Proof.
  cbn zeta. rewrite verifyApiKey_unfold. split.
  - by intros [->| ->].
  - intros raw -> Hne Hbad. apply String.eqb_neq in Hne. rewrite Hne.
    unfold verifyKey. destruct Hbad as [Hno|[rest ->]].
    + apply indexOf_None in Hno. by rewrite Hno.
    + reflexivity.
Qed.

End Verify.

(** ** Scopes *)

Lemma split_nonempty c s : split c s <> [].
Proof.
  destruct s as [|a r]; [done|]. cbn.
  destruct (Ascii.eqb a c); [done|]. by destruct (split c r).
Qed.

Lemma split_elem c s x : x ∈ split c s -> c ∉ chars x.
Proof.
  revert x. induction s as [|a r IH]; intros x Hx; cbn in Hx.
  - apply list_elem_of_singleton in Hx as ->. apply not_elem_of_nil.
  - destruct (Ascii.eqb_spec a c) as [->|Hne].
    + apply elem_of_cons in Hx as [->|Hx]; [apply not_elem_of_nil|by apply IH].
    + destruct (split c r) as [|h t] eqn:Hs.
      * apply list_elem_of_singleton in Hx as ->. cbn.
        intros [?|?%elem_of_nil]%elem_of_cons; [congruence|done].
      * apply elem_of_cons in Hx as [->|Hx].
        -- cbn. intros [?|Hin]%elem_of_cons; [congruence|].
           by apply (IH h); [apply list_elem_of_here|].
        -- apply IH. by apply list_elem_of_further.
Qed.

Lemma split_no_sep c s : c ∉ chars s -> split c s = [s].
Proof.
  induction s as [|a r IH]; intros Hnot; [done|]. cbn.
  destruct (Ascii.eqb_spec a c) as [->|Hne].
  - exfalso. apply Hnot, list_elem_of_here.
  - rewrite IH; [done|]. intros Hin. apply Hnot. by apply list_elem_of_further.
Qed.

Lemma split_app c a r : c ∉ chars a -> split c (a +:+ String c r) = a :: split c r.
Proof.
  induction a as [|x a IH]; intros Hnot.
  - rewrite append_nil_l. cbn. by rewrite Ascii.eqb_refl.
  - rewrite append_cons. cbn [split].
    destruct (Ascii.eqb_spec x c) as [->|Hne].
    + exfalso. apply Hnot, list_elem_of_here.
    + rewrite IH; [done|]. intros Hin. apply Hnot. by apply list_elem_of_further.
Qed.

Definition scopeName (s : string) : Prop := s <> "" /\ ","%char ∉ chars s.

Lemma split_join l :
  l <> [] -> Forall scopeName l -> split "," (join "," l) = l.
Proof.
  induction l as [|x l IH]; intros Hne Hall; [done|].
  inversion Hall as [|? ? [Hx Hc] Hrest]; subst.
  destruct l as [|y l].
  - cbn [join]. by apply split_no_sep.
  - change (join "," (x :: y :: l)) with (x +:+ String "," (join "," (y :: l))).
    rewrite split_app by done. f_equal. by apply IH.
Qed.

Lemma filterBoolean_id l : Forall scopeName l -> filterBoolean l = l.
Proof.
  induction 1 as [|x l [Hx _] _ IH]; [done|]. cbn.
  apply String.eqb_neq in Hx. rewrite Hx. cbn. by f_equal.
Qed.

Lemma parseScopes_default column :
  parseScopes column = filterBoolean (split "," (default "" column)).
Proof.
  unfold parseScopes. destruct column as [v|]; [|done]. cbn.
  by destruct (String.eqb_spec v "") as [->|].
Qed.

(** X10. The scopes of a key are the non-empty pieces between the commas
    of its scopes column: none of them is empty or contains a comma, a
    missing or empty column gives none, and a column written as names joined
    by commas (each name non-empty and comma-free) gives back those names in
    order. *)
Theorem scopes_round_trip :
  (forall column s, s ∈ parseScopes column -> scopeName s) /\
  (forall l, Forall scopeName l -> parseScopes (Some (join "," l)) = l) /\
  parseScopes None = [] /\ parseScopes (Some "") = [].
Proof.
  split; [|split; [|done]].
  - intros column s. rewrite parseScopes_default. unfold filterBoolean.
    intros [Hin Hne]%list_elem_of_In%List.filter_In. split.
    + intros ->. done.
    + eapply split_elem. by apply list_elem_of_In.
  - intros l Hall. rewrite parseScopes_default.
    change (default "" (Some (join "," l))) with (join "," l).
    destruct l as [|x l]; [done|].
    rewrite split_join by done. by apply filterBoolean_id.
Qed.

(** ** A key table to run the checks on *)

#[local] Instance demoCrypto : Crypto := {|
  hmacSha256Base64url salt key := "hmac(" +:+ salt +:+ "," +:+ key +:+ ")";
|}.

Definition demoKey : string := "sm_live.secret1234".

Definition demoRow : ApiKeyRow :=
  {| row_id := "key-1"; row_organisationId := "org-1"; row_projectId := None;
     row_prefix := "sm_live"; row_lastFour := "1234";
     row_secretHash := "hmac(dev-api-key-salt,sm_live.secret1234)";
     row_active := true; row_revokedAt := None; row_expiresAt := Some 2000;
     row_scopes := Some "events:write,,events:read" |}.

Definition revokedRow : ApiKeyRow :=
  {| row_id := "key-0"; row_organisationId := "org-0"; row_projectId := None;
     row_prefix := "sm_live"; row_lastFour := "1234";
     row_secretHash := "hmac(dev-api-key-salt,sm_live.secret1234)";
     row_active := true; row_revokedAt := Some 500; row_expiresAt := None;
     row_scopes := Some "events:write" |}.

Example verifyApiKey_demo :
  verifyApiKey None 1000 [revokedRow; demoRow] (HeaderString ("Bearer " +:+ demoKey))
    HeaderAbsent =
    Authenticated {| tc_organisationId := "org-1"; tc_projectId := None;
                     tc_apiKeyId := "key-1"; tc_apiKeyPrefix := "sm_live";
                     tc_scopes := ["events:write"; "events:read"] |} /\
  verifyApiKey None 2000 [revokedRow; demoRow] (HeaderString demoKey) HeaderAbsent =
    Unauthorized 401 "Invalid API key" "invalid_key" /\
  verifyApiKey None 1000 [revokedRow; demoRow] (HeaderString "sm_live") HeaderAbsent =
    badFormat.
Proof. repeat split; reflexivity. Qed.

Lemma verifyApiKey_sound_witness :
  verifyApiKey None 1000 [revokedRow; demoRow] (HeaderString ("Bearer " +:+ demoKey))
    HeaderAbsent = Authenticated (tenantOf demoRow) /\
  exists raw k,
    Some ("Bearer " +:+ demoKey) = Some raw /\ raw <> "" /\
    k ∈ [revokedRow; demoRow] /\ vouches None 1000 (keyOf raw) k /\
    tenantOf demoRow = tenantOf k.
Proof.
  split; [reflexivity|].
  exact (verifyApiKey_sound None 1000 [revokedRow; demoRow]
           (HeaderString ("Bearer " +:+ demoKey)) HeaderAbsent (tenantOf demoRow) eq_refl).
Defined.

Lemma verifyApiKey_complete_witness :
  vouches None 1000 (keyOf demoKey) demoRow /\
  exists k', k' ∈ [revokedRow; demoRow] /\ vouches None 1000 (keyOf demoKey) k' /\
    verifyApiKey None 1000 [revokedRow; demoRow] HeaderAbsent (HeaderString demoKey) =
      Authenticated (tenantOf k').
Proof.
  assert (Hv : vouches None 1000 (keyOf demoKey) demoRow).
  { split; [|split; [reflexivity|split; [reflexivity|split; [reflexivity|split; [reflexivity|]]]]].
    - exists "sm_live", "secret1234". split; [reflexivity|]. split; [discriminate|].
      split; [|reflexivity]. unfold chars. cbn.
      rewrite !not_elem_of_cons. repeat split; try discriminate. apply not_elem_of_nil.
    - intros e [= <-]. lia. }
  split; [exact Hv|].
  refine (verifyApiKey_complete None 1000 [revokedRow; demoRow] HeaderAbsent
            (HeaderString demoKey) demoKey demoRow eq_refl _ _ Hv _).
  - discriminate.
  - apply list_elem_of_further, list_elem_of_here.
  - cbn. lia.
Defined.

Lemma key_headers_alike_witness :
  demoKey <> "" /\ startsWith "Bearer " demoKey = false /\
  verifyApiKey None 1000 [demoRow] (HeaderString ("Bearer " +:+ demoKey)) (HeaderString "x.y") =
    verifyApiKey None 1000 [demoRow] (HeaderString demoKey) HeaderAbsent.
Proof.
  split; [discriminate|]. split; [reflexivity|].
  refine (proj1 (key_headers_alike None 1000 [demoRow] demoKey HeaderAbsent
                   (HeaderString "x.y") _ eq_refl)).
  discriminate.
Defined.

Lemma malformed_key_rejected_witness :
  verifyApiKey None 1000 [demoRow] HeaderAbsent (HeaderString "Bearer nodot") = badFormat /\
  verifyApiKey None 1000 [demoRow] (HeaderString ".secret1234") HeaderAbsent = badFormat /\
  verifyApiKey None 1000 [demoRow] (HeaderArray []) (HeaderString demoKey) = missingKey.
Proof.
  split; [|split].
  - refine (proj2 (malformed_key_rejected None 1000 [demoRow] HeaderAbsent
                     (HeaderString "Bearer nodot")) "Bearer nodot" eq_refl _ _).
    + discriminate.
    + left. unfold chars. cbn. rewrite !not_elem_of_cons.
      repeat split; try discriminate. apply not_elem_of_nil.
  - refine (proj2 (malformed_key_rejected None 1000 [demoRow] (HeaderString ".secret1234")
                     HeaderAbsent) ".secret1234" eq_refl _ _).
    + discriminate.
    + right. by exists "secret1234".
  - refine (proj1 (malformed_key_rejected None 1000 [demoRow] (HeaderArray [])
                     (HeaderString demoKey)) _).
    by left.
Defined.

End ApiKeysProps.

(* ===================================================================== *)
(** * Facts about numbers in strings *)
(* ===================================================================== *)

Module JsNumberFacts.
Import JsString JsNumber StringFacts.

Lemma to_little_uint_nonnil n acc :
  acc <> Decimal.Nil -> Nat.to_little_uint n acc <> Decimal.Nil.
Proof.
  revert acc. induction n as [|n IH]; intros acc Hacc; [done|].
  cbn. apply IH. by destruct acc.
Qed.

Lemma to_uint_nonnil n : Nat.to_uint n <> Decimal.Nil.
Proof.
  unfold Nat.to_uint. intros Hnil. apply DecimalFacts.rev_nil_inv in Hnil.
  by apply to_little_uint_nonnil in Hnil.
Qed.

(** A character the decimal reader of the library accepts is a digit for
    [digitOf], of the same value; it is no sign and no white space. *)
Lemma uint_of_char_digit c d d' acc :
  uint_of_char c (Some d) = Some d' ->
  exists k, digitOf c = Some (Z.of_nat k) /\
    Nat.of_uint_acc d' acc = Nat.of_uint_acc d (10 * acc + k)%nat /\
    isWhiteSpace c = false /\ c <> "-"%char /\ c <> "+"%char.
Proof.
  destruct c as [[|] [|] [|] [|] [|] [|] [|] [|]]; try discriminate;
    intros [= <-]; cbn [Nat.of_uint_acc]; rewrite Nat.tail_mul_spec;
    [exists 7%nat|exists 3%nat|exists 5%nat|exists 9%nat|exists 1%nat|exists 6%nat
    |exists 2%nat|exists 4%nat|exists 8%nat|exists 0%nat];
    (split; [reflexivity|]); (split; [f_equal; lia|]); done.
Qed.

Lemma digitsPrefix_uint s d acc :
  NilEmpty.uint_of_string s = Some d ->
  digitsPrefix s (Some (Z.of_nat acc)) = Some (Z.of_nat (Nat.of_uint_acc d acc)).
Proof.
  revert d acc. induction s as [|c r IH]; intros d acc Hs.
  - injection Hs as <-. reflexivity.
  - cbn [NilEmpty.uint_of_string] in Hs.
    destruct (NilEmpty.uint_of_string r) as [dr|] eqn:Hr; [|done].
    destruct (uint_of_char_digit c dr d acc Hs) as (k & Hk & Hacc & _).
    cbn [digitsPrefix]. rewrite Hk. cbn [default].
    replace (10 * id (Z.of_nat acc) + Z.of_nat k) with (Z.of_nat (10 * acc + k)) by (unfold id; lia).
    rewrite (IH dr) by done. by rewrite Hacc.
Qed.

Lemma toString_cons n :
  exists c r d, toString n = String c r /\
    NilEmpty.uint_of_string (String c r) = Some d /\ Nat.of_uint d = n.
Proof.
  unfold toString.
  pose proof (NilZero.usu (Nat.to_uint n) (to_uint_nonnil n)) as Hu.
  destruct (NilZero.string_of_uint (Nat.to_uint n)) as [|c r] eqn:Hs; [done|].
  exists c, r, (Nat.to_uint n). split; [done|]. split; [done|]. apply DecimalNat.Unsigned.of_to.
Qed.

(** The value read from the decimal form of [n] is [n]. *)
Lemma digitsPrefix_toString n : digitsPrefix (toString n) (Some 0) = Some (Z.of_nat n).
Proof.
  destruct (toString_cons n) as (c & r & d & -> & Hu & <-).
  exact (digitsPrefix_uint _ d 0 Hu).
Qed.

Lemma parseInt10_toString n : parseInt10 (toString n) = Some (Z.of_nat n).
Proof.
  rewrite <- digitsPrefix_toString.
  destruct (toString_cons n) as (c & r & d & -> & Hu & _).
  cbn [NilEmpty.uint_of_string] in Hu.
  destruct (NilEmpty.uint_of_string r) as [dr|]; [|done].
  destruct (uint_of_char_digit c dr d 0 Hu) as (k & Hk & _ & Hw & Hm & Hp).
  unfold parseInt10. cbn [trimStart]. rewrite Hw.
  assert (digitsPrefix (String c r) None = digitsPrefix (String c r) (Some 0)) as <-.
  { cbn [digitsPrefix]. by rewrite Hk. }
  destruct c as [[|] [|] [|] [|] [|] [|] [|] [|]]; try reflexivity; congruence.
Qed.

Definition zeros (k : nat) : string := string_of_list_ascii (replicate k "0"%char).

Lemma digitsPrefix_zeros k s : digitsPrefix (zeros k +:+ s) (Some 0) = digitsPrefix s (Some 0).
Proof.
  induction k as [|k IH]; [done|].
  change (zeros (S k) +:+ s) with (String "0" (zeros k +:+ s)). exact IH.
Qed.

(** Padding with zeros keeps the number written: [padStart] is injective
    on decimal forms. *)
Lemma padStart_toString_inj w n m :
  padStart w "0" (toString n) = padStart w "0" (toString m) -> n = m.
Proof.
  intros Heq.
  assert (forall x, digitsPrefix (padStart w "0" (toString x)) (Some 0) = Some (Z.of_nat x)) as Hv.
  { intros x. unfold padStart. fold (zeros (w - String.length (toString x))).
    by rewrite digitsPrefix_zeros, digitsPrefix_toString. }
  pose proof (Hv n) as Hn. rewrite Heq, Hv in Hn. injection Hn. lia.
Qed.

End JsNumberFacts.

(* ===================================================================== *)
(** * Properties of the backfill routes *)
(* ===================================================================== *)

Module BackfillProps.
Import JsDate JsString JsText JsNumber JsNumberFacts Auth Queues Backfill StringFacts.
Import ApiKeysProps.

Lemma append_inj_r (a x y : string) : a +:+ x = a +:+ y -> x = y.
Proof.
  induction a as [|c a IH]; [done|]. rewrite !append_cons. intros [= Heq]. by apply IH.
Qed.

Lemma inMemoryId_inj n m : inMemoryId n = inMemoryId m -> n = m.
Proof.
  unfold inMemoryId. intros Heq%append_inj_r. by apply padStart_toString_inj in Heq.
Qed.

(** The store as the POST handler fills it from empty: the operation at
    index [i] carries the id number [i + 1]. *)
Definition wellNumbered (ops : list Operation) : Prop :=
  forall i op, ops !! i = Some op -> op_id op = Some (inMemoryId (i + 1)).

Lemma wellNumbered_nil : wellNumbered [].
Proof. by intros i op Hi. Qed.

Lemma wellNumbered_snoc ops op :
  wellNumbered ops -> op_id op = Some (inMemoryId (length ops + 1)) ->
  wellNumbered (ops ++ [op]).
Proof.
  intros Hw Hid i op' Hi.
  destruct (decide (i < length ops)%nat) as [Hlt|Hge].
  - rewrite lookup_app_l in Hi by done. by apply Hw.
  - rewrite lookup_app_r in Hi by lia.
    destruct (i - length ops)%nat as [|j] eqn:Hj; [|done].
    injection Hi as <-. replace i with (length ops) by lia. done.
Qed.

Lemma wellNumbered_fresh ops op :
  wellNumbered ops -> op ∈ ops -> op_id op <> Some (inMemoryId (length ops + 1)).
Proof.
  intros Hw (i & Hi)%list_elem_of_lookup Heq.
  pose proof (lookup_lt_Some _ _ _ Hi) as Hlt.
  rewrite (Hw i op Hi) in Heq.
  assert (inMemoryId (i + 1) = inMemoryId (length ops + 1)) as Hid by congruence.
  apply inMemoryId_inj in Hid. lia.
Qed.

Lemma find_snoc_fresh {A} (f : A -> bool) l x :
  Forall (fun y => f y = false) l -> f x = true -> List.find f (l ++ [x]) = Some x.
Proof.
  induction 1 as [|y l Hy _ IH]; intros Hx; cbn.
  - by rewrite Hx.
  - rewrite Hy. by apply IH.
Qed.

Section Route.
Context {E : Type} `{JsonEvents E} {DB : Type} `{BackfillRepository DB}.
Context (server : Server).

(** The handler, past the tenant checks and validation. *)
Lemma postBackfill_valid (request : BackfillRequest E) data (st : State DB) auth0 :
  requireTenantMatch (env server) (auth request) (bodyTenantId request) = Allowed ->
  getTenantId (env server) (auth request) = Some auth0 ->
  validationResult request = inr data ->
  postBackfill server request st =
    let tenantId := if BYPASS_AUTH (env server) then bodyTenantId request else Some auth0 in
    match source data with
    | None =>
        (Failure 400 "Invalid Request" (Text "Either events or csvData must be provided"), st)
    | Some (sourceType, sourceData) =>
        let dataSize := Z.of_nat (String.length sourceData) in
        if exceeds dataSize (maxDirectSize server) then
          (Failure 413 "Payload Too Large" (SizeExceeded dataSize (maxDirectSize server)), st)
        else createAndQueue server request data tenantId sourceType sourceData st
    end.
Proof. intros Hm Ha Hv. unfold postBackfill. by rewrite Hm, Ha, Hv. Qed.

(** The end of the handler answers 200 or 500. *)
Lemma createAndQueue_inv (request : BackfillRequest E) data tenantId sourceType sourceData
    (st st' : State DB) reply :
  createAndQueue server request data tenantId sourceType sourceData st = (reply, st') ->
  (exists operation st1,
     createOperation server request data tenantId sourceType sourceData st
       = (Some operation, st1) /\
     let job := backfillJob data tenantId sourceType sourceData operation in
     (addResolves server job = true /\ reply = Pending (replyId operation) /\
      st' = enqueue server job st1 \/
      addResolves server job = false /\ reply = internalError /\ st' = st1)) \/
  createOperation server request data tenantId sourceType sourceData st = (None, st') /\
  reply = internalError.
Proof.
  unfold createAndQueue.
  destruct (createOperation _ _ _ _ _ _ _) as [[operation|] st1] eqn:Hc.
  - cbn zeta. destruct (addResolves _ _) eqn:Hadd; intros [= <- <-]; left;
      exists operation, st1; (split; [done|]); [by left|by right].
  - intros [= <- <-]. by right.
Qed.

Lemma addResolves_false job :
  addResolves server job = false ->
  exists name options, backfillQueue server = Some (RedisQueue name options).
Proof.
  unfold addResolves. destruct (backfillQueue server) as [[|name options]|]; [done| |done].
  intros _. by exists name, options.
Qed.

(** A reply of 200 comes at the end of the handler. *)
Lemma postBackfill_pending (request : BackfillRequest E) (st st' : State DB) id :
  postBackfill server request st = (Pending id, st') ->
  exists auth0 data sourceType sourceData operation st1,
    requireTenantMatch (env server) (auth request) (bodyTenantId request) = Allowed /\
    getTenantId (env server) (auth request) = Some auth0 /\
    validationResult request = inr data /\
    source data = Some (sourceType, sourceData) /\
    exceeds (Z.of_nat (String.length sourceData)) (maxDirectSize server) = false /\
    let tenantId := if BYPASS_AUTH (env server) then bodyTenantId request else Some auth0 in
    createOperation server request data tenantId sourceType sourceData st
      = (Some operation, st1) /\
    id = replyId operation /\
    st' = enqueue server (backfillJob data tenantId sourceType sourceData operation) st1.
Proof.
  unfold postBackfill.
  destruct (requireTenantMatch _ _ _) eqn:Hm; [|done].
  destruct (getTenantId _ _) as [auth0|] eqn:Ha; [|done].
  destruct (validationResult request) as [msgs|data] eqn:Hv; [done|].
  destruct (source data) as [[sourceType sourceData]|] eqn:Hs; [|done].
  destruct (exceeds _ _) eqn:Hx; [done|].
  intros [(operation & st1 & Hc & [(_ & [= ->] & ->)|(_ & [=] & _)])|[_ [=]]]%createAndQueue_inv.
  by exists auth0, data, sourceType, sourceData, operation, st1.
Qed.

Lemma createOperation_store (request : BackfillRequest E) data tenantId sourceType sourceData
    (st st1 : State DB) res :
  createOperation server request data tenantId sourceType sourceData st = (res, st1) ->
  queued st1 = queued st /\
  inMemoryBackfillOps st1 =
    inMemoryBackfillOps st ++
      (if BYPASS_AUTH (env server)
       then [inMemoryOperation server request data tenantId sourceType sourceData
               (length (inMemoryBackfillOps st))]
       else []) /\
  (BYPASS_AUTH (env server) = true ->
     res = Some (inMemoryOperation server request data tenantId sourceType sourceData
                   (length (inMemoryBackfillOps st)))).
Proof.
  unfold createOperation. destruct (BYPASS_AUTH (env server)).
  - destruct (create _ _) as [r db']. by intros [= <- <-].
  - destruct (create _ _) as [r db']. intros [= <- <-]. cbn. by rewrite app_nil_r.
Qed.

Lemma enqueue_store job (st : State DB) :
  inMemoryBackfillOps (enqueue server job st) = inMemoryBackfillOps st /\
  db (enqueue server job st) = db st /\
  queued (enqueue server job st) =
    queued st ++ match backfillQueue server with Some _ => [job] | None => [] end.
Proof.
  unfold enqueue. destruct (backfillQueue server); cbn; [done|]. by rewrite app_nil_r.
Qed.

(** X16. A backfill request changes the in-memory operations and the
    queue only when it is answered 200 or 500. Answered 200, one job is
    handed to the queue if there is one, and under BYPASS_AUTH one operation
    is appended to the store. A request answered 400, 413, 401 or 403, or one
    whose tenant is not resolved, leaves the whole state as it was. The
    answer 500 queues nothing; outside BYPASS_AUTH it leaves the store as it
    was, and under BYPASS_AUTH it comes only from a queue on the Redis
    connection rejecting the job, and then the operation stays in the store
    although the request failed. *)
Theorem backfill_effects (request : BackfillRequest E) (st : State DB) :
  match postBackfill server request st with
  | (Pending _, st') =>
      (exists job, queued st' =
         queued st ++ match backfillQueue server with Some _ => [job] | None => [] end) /\
      (exists operation,
         inMemoryBackfillOps st' =
           inMemoryBackfillOps st ++ (if BYPASS_AUTH (env server) then [operation] else []))
  | (Failure status _ _, st') =>
      (status = 400 \/ status = 413 \/ status = 500) /\
      (status <> 500 -> st' = st) /\
      queued st' = queued st /\
      (BYPASS_AUTH (env server) = false ->
         inMemoryBackfillOps st' = inMemoryBackfillOps st) /\
      (status = 500 -> BYPASS_AUTH (env server) = true ->
         (exists name options, backfillQueue server = Some (RedisQueue name options)) /\
         exists operation, inMemoryBackfillOps st' = inMemoryBackfillOps st ++ [operation])
  | (Refused status, st') => (status = 401 \/ status = 403) /\ st' = st
  | (Thrown _, st') => st' = st
  end.
Proof.
  unfold postBackfill.
  destruct (requireTenantMatch _ _ _) eqn:Hm.
  2:{ split; [|done]. unfold requireTenantMatch in Hm.
      destruct (_ || _); [done|]. destruct (negb (truthy (organisationId _))); [injection Hm; auto|].
      destruct (negb (truthy (bodyTenantId request))); [done|].
      destruct (negb (bool_decide _)); [injection Hm; auto|done]. }
  destruct (getTenantId _ _) as [auth0|]; [|done].
  destruct (validationResult request) as [msgs|data];
    [split; [auto|]; split; [done|]; split; [done|]; split; done|].
  destruct (source data) as [[sourceType sourceData]|];
    [|split; [auto|]; split; [done|]; split; [done|]; split; done].
  destruct (exceeds _ _); [split; [auto|]; split; [done|]; split; [done|]; split; done|].
  set (tenantId := if BYPASS_AUTH (env server) then bodyTenantId request else Some auth0).
  destruct (createAndQueue _ _ _ _ _ _ _) as [reply st'] eqn:Hrun.
  apply createAndQueue_inv in Hrun
    as [(operation & st1 & Hc & [(_ & -> & ->)|(Hadd & -> & ->)])|[Hc ->]].
  - apply createOperation_store in Hc as (Hq & Ho & _).
    destruct (enqueue_store (backfillJob data tenantId sourceType sourceData operation) st1)
      as (Ho' & _ & Hq').
    split.
    + eexists. rewrite Hq', Hq. reflexivity.
    + eexists. rewrite Ho', Ho. reflexivity.
  - apply createOperation_store in Hc as (Hq & Ho & _).
    split; [auto|]. split; [done|]. split; [done|]. split.
    + intros Hb. rewrite Hb in Ho. by rewrite app_nil_r in Ho.
    + intros _ Hb. split; [by apply addResolves_false in Hadd|].
      rewrite Hb in Ho. by eexists.
  - apply createOperation_store in Hc as (Hq & Ho & Hb).
    split; [auto|]. split; [done|]. split; [done|]. split.
    + intros Hbypass. rewrite Hbypass in Ho. by rewrite app_nil_r in Ho.
    + intros _ Hbypass. by specialize (Hb Hbypass).
Qed.

Definition tooLarge (dataSize : Z) : Reply :=
  Failure 413 "Payload Too Large" (SizeExceeded dataSize (maxDirectSize server)).

Lemma toString_truthy n : truthy (Some (toString n)) = true.
Proof. destruct (toString_cons n) as (c & r & d & -> & _). reflexivity. Qed.

(** X17. The size check of a backfill whose body is valid and carries
    data: with MAX_DIRECT_BACKFILL_SIZE unset or empty the request is
    answered 413 exactly when the data is longer than 1048576; with the
    variable set to the decimal form of [n], exactly when it is longer than
    [n]; and with a value [parseInt] reads no number from, never. A request
    answered 413 leaves the state as it was. *)
Theorem backfill_size_limit (request : BackfillRequest E) data sourceType sourceData auth0
    (st : State DB) :
  requireTenantMatch (env server) (auth request) (bodyTenantId request) = Allowed ->
  getTenantId (env server) (auth request) = Some auth0 ->
  validationResult request = inr data ->
  source data = Some (sourceType, sourceData) ->
  let dataSize := Z.of_nat (String.length sourceData) in
  (truthy (MAX_DIRECT_BACKFILL_SIZE server) = false ->
     (postBackfill server request st = (tooLarge dataSize, st) <-> 1048576 < dataSize)) /\
  (forall n, MAX_DIRECT_BACKFILL_SIZE server = Some (toString n) ->
     (postBackfill server request st = (tooLarge dataSize, st) <-> Z.of_nat n < dataSize)) /\
  (maxDirectSize server = None ->
     forall error message, (postBackfill server request st).1 <> Failure 413 error message) /\
  (forall error message st',
     postBackfill server request st = (Failure 413 error message, st') ->
     st' = st /\ exists m, maxDirectSize server = Some m /\ m < dataSize).
Proof.
  intros Hm Ha Hv Hs dataSize.
  rewrite (postBackfill_valid request data st auth0 Hm Ha Hv), Hs. cbn zeta.
  fold dataSize.
  set (rest := createAndQueue server request data _ sourceType sourceData st).
  assert (Hrest : forall error message st', rest <> (Failure 413 error message, st')).
  { intros error message st' Heq. destruct rest as [reply st1] eqn:Hrun. subst rest.
    apply createAndQueue_inv in Hrun
      as [(operation & st2 & _ & [(_ & -> & _)|(_ & -> & _)])|[_ ->]]; by injection Heq. }
  assert (Hlimit : forall m, maxDirectSize server = Some m ->
    ((if exceeds dataSize (maxDirectSize server) then (tooLarge dataSize, st) else rest)
     = (tooLarge dataSize, st) <-> m < dataSize)).
  { intros m Hmax. rewrite Hmax. cbn [exceeds].
    destruct (Z.gtb_spec dataSize m) as [Hgt|Hle].
    - split; [lia|done].
    - split; [|lia]. intros Heq. by apply Hrest in Heq. }
  fold (tooLarge dataSize).
  split; [|split; [|split]].
  - intros Hunset. apply Hlimit. unfold maxDirectSize, orElse. by rewrite Hunset.
  - intros n Hset. apply Hlimit. unfold maxDirectSize, orElse.
    rewrite Hset, toString_truthy. apply parseInt10_toString.
  - intros Hnan error message. rewrite Hnan. cbn [exceeds].
    destruct rest as [reply st1] eqn:Hrun. cbn [fst]. intros ->. by eapply Hrest.
  - intros error message st'. destruct (maxDirectSize server) as [m|]; cbn [exceeds].
    + destruct (Z.gtb_spec dataSize m) as [Hgt|Hle].
      * intros [= _ _ <-]. split; [done|]. exists m. split; [done|lia].
      * intros Heq. by apply Hrest in Heq.
    + intros Heq. by apply Hrest in Heq.
Qed.

Lemma inMemoryId_truthy n : truthy (Some (inMemoryId n)) = true.
Proof. reflexivity. Qed.

Lemma matchesQuery_spec query op :
  matchesQuery query op = true <->
  (truthy (q_tenantId query) = true -> op_tenantId op = q_tenantId query) /\
  (truthy (q_status query) = true -> op_status op = q_status query).
Proof.
  unfold matchesQuery.
  destruct (truthy (q_tenantId query)), (truthy (q_status query)); cbn [andb];
    repeat case_bool_decide; cbn; split; try done; try tauto; intros [? ?]; auto.
Qed.

(** X18. Under BYPASS_AUTH, on a store numbered from one (as the handler
    fills it from empty): a backfill answered 200 appends one pending
    operation built from the body, the store stays numbered, the id in the
    reply is the operation's and no earlier operation has it, GET by that id
    answers with that operation, and every listing whose filter the
    operation passes contains it, the total being the number listed. *)
Theorem backfill_post_then_get (request : BackfillRequest E) (st st' : State DB) id :
  BYPASS_AUTH (env server) = true ->
  wellNumbered (inMemoryBackfillOps st) ->
  postBackfill server request st = (Pending id, st') ->
  exists operation data,
    validationResult request = inr data /\
    inMemoryBackfillOps st' = inMemoryBackfillOps st ++ [operation] /\
    wellNumbered (inMemoryBackfillOps st') /\
    id = inMemoryId (length (inMemoryBackfillOps st) + 1) /\
    op_id operation = Some id /\
    (forall op, op ∈ inMemoryBackfillOps st -> op_id op <> Some id) /\
    getBackfill server id st' = (Found operation, st') /\
    (op_tenantId operation = bodyTenantId request /\
     op_status operation = Some "pending" /\
     op_metric operation = Some (metric data) /\
     op_customerRef operation = customerRef data /\
     op_periodStart operation = Some (periodStart data) /\
     op_periodEnd operation =
       Some (if truthy (periodEnd data) then default "" (periodEnd data)
             else periodStart data) /\
     op_reason operation = Some (reason data) /\
     (exists sourceType sourceData,
        source data = Some (sourceType, sourceData) /\
        op_sourceType operation = Some sourceType /\
        op_sourceData operation = Some sourceData)) /\
    (forall r query,
       matchesQuery query operation = true ->
       exists ops, listBackfill server r query st' = (Listed ops (length ops), st') /\
                   operation ∈ ops /\
                   Forall (fun op => matchesQuery query op = true) ops).
Proof.
  intros Hb Hw Hrun.
  apply postBackfill_pending in Hrun
    as (auth0 & data & sourceType & sourceData & operation & st1 &
        Hm & Ha & Hv & Hs & Hx & Hc & -> & ->).
  cbn zeta in Hc. rewrite Hb in Hc.
  apply createOperation_store in Hc as (Hq & Ho & Hop).
  rewrite Hb in Ho. specialize (Hop Hb). injection Hop as Hop.
  set (job := backfillJob _ _ _ _ _).
  destruct (enqueue_store job st1) as (Ho' & _ & _).
  assert (Hid : op_id operation = Some (inMemoryId (length (inMemoryBackfillOps st) + 1)))
    by (by rewrite Hop).
  assert (Hreply : replyId operation = inMemoryId (length (inMemoryBackfillOps st) + 1)).
  { unfold replyId, Backfill.orElse. by rewrite Hid, inMemoryId_truthy. }
  assert (Hstore : inMemoryBackfillOps (enqueue server job st1)
                   = inMemoryBackfillOps st ++ [operation]).
  { rewrite Ho', Ho. by rewrite Hop. }
  exists operation, data. rewrite Hreply, Hstore.
  split; [done|]. split; [done|]. split; [by apply wellNumbered_snoc|].
  split; [done|]. split; [done|]. split; [intros op; by apply wellNumbered_fresh|].
  split.
  { unfold getBackfill. rewrite Hb, Hstore.
    rewrite find_snoc_fresh; [done| |by apply bool_decide_eq_true_2].
    apply Forall_forall. intros op Hin. apply bool_decide_eq_false_2.
    by apply wellNumbered_fresh. }
  split.
  { rewrite Hop. cbn. unfold periodEndOf, Backfill.orElse.
    split; [done|]. split; [done|]. split; [done|]. split; [done|]. split; [done|].
    split; [destruct (periodEnd data) as [p|]; cbn; [by destruct (String.eqb p "")|done]|].
    split; [done|].
    by exists sourceType, sourceData. }
  intros r query Hmatch. unfold listBackfill.
  assert (requireTenantMatch (env server) r (q_tenantId query) = Allowed) as ->
    by (unfold requireTenantMatch; by rewrite Hb).
  assert (getTenantId (env server) r = Some zeroTenant) as ->
    by (unfold getTenantId; by rewrite Hb).
  rewrite Hb, Hstore. eexists. split; [done|]. split.
  - apply list_elem_of_In, List.filter_In. split; [|done].
    apply list_elem_of_In, elem_of_app. right. apply list_elem_of_here.
  - apply Forall_forall. intros op Hin.
    by apply list_elem_of_In, List.filter_In in Hin as [_ ?].
Qed.

(** X19. With no bypass, a backfill from a request without tenant
    context is answered 401 and one whose body names another tenant than the
    authenticated one is answered 403, the state untouched in both cases; a
    backfill answered 200 comes from an authenticated tenant, its body names
    that tenant or none, and the job it queues carries that tenant. *)
Theorem backfill_tenant_scoping (request : BackfillRequest E) (st : State DB) :
  BYPASS_AUTH (env server) = false -> testBypass (env server) = false ->
  (truthy (organisationId (auth request)) = false ->
     postBackfill server request st = (Refused 401, st)) /\
  (forall org t,
     organisationId (auth request) = Some org -> org <> "" ->
     bodyTenantId request = Some t -> t <> "" -> t <> org ->
     postBackfill server request st = (Refused 403, st)) /\
  (forall id st',
     postBackfill server request st = (Pending id, st') ->
     exists org,
       organisationId (auth request) = Some org /\ org <> "" /\
       (bodyTenantId request = Some org \/ truthy (bodyTenantId request) = false) /\
       forall job, job ∈ queued st' -> job ∈ queued st \/ bj_tenantId job = Some org).
Proof.
  intros Hb Ht. split; [|split].
  - intros Hno. unfold postBackfill, requireTenantMatch. by rewrite Hb, Ht, Hno.
  - intros org t Horg Hne Hbody Ht' Hdiff.
    unfold postBackfill, requireTenantMatch. rewrite Hb, Ht, Horg, Hbody. cbn [orb truthy].
    apply String.eqb_neq in Hne, Ht'. rewrite Hne, Ht'. cbn [negb].
    rewrite bool_decide_eq_false_2; [done|congruence].
  - intros id st' Hrun.
    apply postBackfill_pending in Hrun
      as (auth0 & data & sourceType & sourceData & operation & st1 &
          Hm & Ha & Hv & Hs & Hx & Hc & -> & ->).
    cbn zeta in Hc. rewrite Hb in Hc |- *.
    unfold getTenantId in Ha. rewrite Hb, Ht in Ha. cbn [orb] in Ha.
    destruct (truthy (organisationId (auth request))) eqn:Horg; [|done]. cbn [negb] in Ha.
    exists auth0. split; [done|]. rewrite Ha in Horg. apply truthy_Some in Horg.
    split; [done|]. split.
    + unfold requireTenantMatch in Hm. rewrite Hb, Ht, Ha in Hm. cbn [orb truthy] in Hm.
      apply String.eqb_neq in Horg. rewrite Horg in Hm. cbn [negb] in Hm.
      destruct (truthy (bodyTenantId request)); [|by right]. cbn [negb] in Hm.
      case_bool_decide; [by left|done].
    + apply createOperation_store in Hc as (Hq & _ & _).
      intros job. destruct (enqueue_store
        (backfillJob data (Some auth0) sourceType sourceData operation) st1) as (_ & _ & ->).
      rewrite Hq. intros [Hold|Hnew]%elem_of_app; [by left|right].
      destruct (backfillQueue server); [|by apply elem_of_nil in Hnew].
      by apply list_elem_of_singleton in Hnew as ->.
Qed.

End Route.

(** X20. Over the fallback repository (whose [create] answers with an
    empty object) and outside BYPASS_AUTH, a backfill answered 200 carries
    the all-zero operation id, the job it queues has no job id, and GET by
    the id of the reply answers 404. *)
Theorem backfill_fallback_repository {E : Type} `{JsonEvents E} (server : Server)
    (request : BackfillRequest E) (st st' : State unit) id :
  BYPASS_AUTH (env server) = false ->
  postBackfill server request st = (Pending id, st') ->
  id = zeroId /\
  inMemoryBackfillOps st' = inMemoryBackfillOps st /\
  (forall job, job ∈ queued st' -> job ∈ queued st \/ bj_jobId job = None) /\
  (getBackfill server id st').1 =
    GetFailure 404 "Not Found" "Backfill operation not found".
Proof.
  intros Hb Hrun.
  apply postBackfill_pending in Hrun
    as (auth0 & data & sourceType & sourceData & operation & st1 &
        Hm & Ha & Hv & Hs & Hx & Hc & -> & ->).
  cbn zeta in Hc. rewrite Hb in Hc |- *.
  unfold createOperation in Hc. rewrite Hb in Hc. cbn in Hc. injection Hc as <- <-.
  split; [done|].
  set (job := backfillJob _ _ _ _ _).
  destruct (enqueue_store server job
              (mkState (db st) (inMemoryBackfillOps st) (queued st))) as (Ho & _ & Hq).
  split; [by rewrite Ho|]. split.
  - intros j. rewrite Hq. cbn [queued]. intros [Hold|Hnew]%elem_of_app; [by left|right].
    destruct (backfillQueue server); [|by apply elem_of_nil in Hnew].
    by apply list_elem_of_singleton in Hnew as ->.
  - unfold getBackfill. by rewrite Hb.
Qed.

(** ** Runs of the backfill routes *)

#[local] Instance demoJson : JsonEvents string := {|
  JSON_stringify evs := "[" +:+ join "," evs +:+ "]";
|}.

Definition strict : ProcessEnv :=
  {| BYPASS_AUTH := false; NODE_ENV_test := false; FORCE_AUTH := false |}.
Definition bypass : ProcessEnv :=
  {| BYPASS_AUTH := true; NODE_ENV_test := false; FORCE_AUTH := false |}.

(** A server on a Redis connection whose queue takes every job. *)
Definition serverOf (e : ProcessEnv) (limit : option string) : Server :=
  {| env := e; MAX_DIRECT_BACKFILL_SIZE := limit;
     backfillQueue := createQueue e None true "backfill"; redisAdd := fun _ => true;
     now := fun _ => 0 |}.

Definition csvBody : BackfillRequestInput string :=
  {| metric := "requests"; customerRef := None; periodStart := "2025-01-01";
     periodEnd := None; events := None; csvData := Some "a,b"; reason := "repair" |}.

Definition backfillOf (org body : option string) : BackfillRequest string :=
  {| auth := {| organisationId := org; idempotencyKeyHeader := HeaderAbsent;
                requestId := "req-1" |};
     userAgent := HeaderAbsent; ip := "127.0.0.1"; bodyTenantId := body;
     validationResult := inr csvBody |}.

Definition empty : State unit := mkState tt [] [].

Lemma backfill_size_limit_witness :
  (requireTenantMatch strict (auth (backfillOf (Some "org-1") (Some "org-1"))) (Some "org-1")
     = Allowed /\
   source csvBody = Some ("csv", "a,b") /\
   MAX_DIRECT_BACKFILL_SIZE (serverOf strict (Some "2")) = Some (toString 2)) /\
  postBackfill (serverOf strict (Some "2")) (backfillOf (Some "org-1") (Some "org-1")) empty =
    (Failure 413 "Payload Too Large" (SizeExceeded 3 (Some 2)), empty).
Proof.
  split; [by repeat split|].
  refine (proj2 (proj1 (proj2 (backfill_size_limit (serverOf strict (Some "2"))
            (backfillOf (Some "org-1") (Some "org-1")) csvBody "csv" "a,b" "org-1" empty
            eq_refl eq_refl eq_refl eq_refl)) 2%nat eq_refl) _).
  cbn. lia.
Defined.

Definition firstId : string := "00000000-0000-0000-0000-000000000001".

Lemma backfill_post_then_get_witness :
  wellNumbered (inMemoryBackfillOps empty) /\
  (postBackfill (serverOf bypass None) (backfillOf None (Some "tenant-b")) empty).1 =
    Pending firstId /\
  exists operation,
    (getBackfill (serverOf bypass None) firstId
       (postBackfill (serverOf bypass None) (backfillOf None (Some "tenant-b")) empty).2).1
      = Found operation /\
    op_tenantId operation = Some "tenant-b" /\
    op_periodEnd operation = Some "2025-01-01".
Proof.
  split; [apply wellNumbered_nil|]. split; [vm_compute; reflexivity|].
  assert (Hrun : postBackfill (serverOf bypass None) (backfillOf None (Some "tenant-b")) empty =
                 (Pending firstId,
                  (postBackfill (serverOf bypass None) (backfillOf None (Some "tenant-b"))
                     empty).2)) by (vm_compute; reflexivity).
  destruct (backfill_post_then_get (serverOf bypass None) (backfillOf None (Some "tenant-b"))
              empty _ firstId eq_refl wellNumbered_nil Hrun)
    as (operation & data & Hv & _ & _ & _ & _ & _ & Hget & (Ht & _ & _ & _ & _ & Hpe & _) & _).
  exists operation. rewrite Hget. split; [done|]. split; [exact Ht|].
  injection Hv as <-. exact Hpe.
Defined.

Lemma backfill_tenant_scoping_witness :
  BYPASS_AUTH strict = false /\ testBypass strict = false /\
  postBackfill (serverOf strict None) (backfillOf (Some "org-1") (Some "tenant-b")) empty =
    (Refused 403, empty) /\
  postBackfill (serverOf strict None) (backfillOf None (Some "tenant-b")) empty =
    (Refused 401, empty).
Proof.
  split; [reflexivity|]. split; [reflexivity|].
  split.
  - refine (proj1 (proj2 (backfill_tenant_scoping (serverOf strict None)
              (backfillOf (Some "org-1") (Some "tenant-b")) empty eq_refl eq_refl))
              "org-1" "tenant-b" eq_refl _ eq_refl _ _); discriminate.
  - exact (proj1 (backfill_tenant_scoping (serverOf strict None)
              (backfillOf None (Some "tenant-b")) empty eq_refl eq_refl) eq_refl).
Defined.

(** The test environment with FORCE_AUTH: no bypass, and the stub for a
    queue; the database module could not be loaded. *)
Definition forced : ProcessEnv :=
  {| BYPASS_AUTH := false; NODE_ENV_test := true; FORCE_AUTH := true |}.

Definition offline : Server :=
  {| env := forced; MAX_DIRECT_BACKFILL_SIZE := None;
     backfillQueue := createQueue forced None false "backfill"; redisAdd := fun _ => true;
     now := fun _ => 0 |}.

Lemma backfill_fallback_repository_witness :
  BYPASS_AUTH forced = false /\
  postBackfill offline (backfillOf (Some "org-1") (Some "org-1")) empty =
    (Pending zeroId,
     (postBackfill offline (backfillOf (Some "org-1") (Some "org-1")) empty).2) /\
  bj_jobId <$> queued
    (postBackfill offline (backfillOf (Some "org-1") (Some "org-1")) empty).2
    = [None] /\
  (getBackfill offline zeroId
     (postBackfill offline (backfillOf (Some "org-1") (Some "org-1")) empty).2).1
    = GetFailure 404 "Not Found" "Backfill operation not found".
Proof.
  split; [reflexivity|].
  assert (Hrun : postBackfill offline (backfillOf (Some "org-1") (Some "org-1")) empty =
                 (Pending zeroId,
                  (postBackfill offline (backfillOf (Some "org-1") (Some "org-1")) empty).2))
    by (vm_compute; reflexivity).
  split; [exact Hrun|]. split; [vm_compute; reflexivity|].
  exact (proj2 (proj2 (proj2 (backfill_fallback_repository offline
           (backfillOf (Some "org-1") (Some "org-1")) empty _ zeroId eq_refl Hrun)))).
Defined.

(** Under BYPASS_AUTH, a queue that rejects the job: the request is
    answered 500, and the operation is in the store and found by its id. *)
Definition rejecting : Server :=
  {| env := bypass; MAX_DIRECT_BACKFILL_SIZE := None;
     backfillQueue := createQueue bypass None true "backfill"; redisAdd := fun _ => false;
     now := fun _ => 0 |}.

Example rejected_job_leaves_operation :
  let run := postBackfill rejecting (backfillOf None (Some "tenant-b")) empty in
  run.1 = internalError /\
  op_id <$> inMemoryBackfillOps run.2 = [Some firstId] /\
  queued run.2 = [] /\
  exists operation, (getBackfill rejecting firstId run.2).1 = Found operation.
Proof.
  cbn zeta. split; [vm_compute; reflexivity|]. split; [vm_compute; reflexivity|].
  split; [vm_compute; reflexivity|]. eexists. vm_compute. reflexivity.
Qed.

End BackfillProps.

(* ===================================================================== *)
(** * Properties of the listing route *)
(* ===================================================================== *)

Module EventsListProps.
Import JsDate JsString Auth Ingest IngestFacts EventsList.

Lemma slice_nonneg {A} (l : list A) (start n : Z) :
  0 <= start -> 0 <= n ->
  slice l start (start + n) = take (Z.to_nat n) (drop (Z.to_nat start) l).
Proof.
  intros Hs Hn. unfold slice, relativeIndex. cbn zeta.
  destruct (Z.ltb_spec start 0); [lia|]. destruct (Z.ltb_spec (start + n) 0); [lia|].
  set (len := Z.of_nat (length l)).
  destruct (Z.le_gt_cases start len) as [Hle|Hgt].
  - rewrite (Z.min_l start len) by lia.
    destruct (Z.le_gt_cases (start + n) len) as [Hle'|Hgt'].
    + rewrite Z.min_l by lia. f_equal. lia.
    + rewrite Z.min_r by lia.
      rewrite !take_ge; [done|rewrite length_drop; lia|rewrite length_drop; lia].
  - rewrite !Z.min_r by lia. rewrite Z.sub_diag. cbn [Z.to_nat take].
    rewrite (drop_ge l (Z.to_nat start)) by lia. by rewrite take_nil.
Qed.

Lemma slice_all {A} (l : list A) : slice l 0 (0 + Z.of_nat (length l)) = l.
Proof.
  rewrite slice_nonneg by lia. cbn [Z.to_nat drop]. rewrite Nat2Z.id. by rewrite take_ge.
Qed.

(** A query with its page replaced. *)
Definition withPage (query : GetEventsQuery) (offset limit : option Z) : GetEventsQuery :=
  {| q_tenantId := q_tenantId query; q_metric := q_metric query;
     q_customerRef := q_customerRef query; q_source := q_source query;
     q_limit := limit; q_offset := offset; q_sort := q_sort query;
     q_sortDir := q_sortDir query; q_startTime := q_startTime query;
     q_endTime := q_endTime query |}.

(** The query for all events of a tenant. *)
Definition tenantQuery (tenant : string) : GetEventsQuery :=
  {| q_tenantId := tenant; q_metric := None; q_customerRef := None; q_source := None;
     q_limit := None; q_offset := None; q_sort := None; q_sortDir := None;
     q_startTime := None; q_endTime := None |}.

Section Route.
Context `{CoreLib} {DB : Type} `{EventsReader DB}.
Context (env : ProcessEnv).

Lemma selected_withPage query offset limit evs :
  selected (paramOf (withPage query offset limit)) evs = selected (paramOf query) evs.
Proof. reflexivity. Qed.

Lemma selected_spec param evs e :
  e ∈ selected param evs <->
  e ∈ evs /\ ne_tenantId e = p_tenantId param /\
  (truthy (p_metric param) = true -> Some (ne_metric e) = p_metric param) /\
  (truthy (p_customerRef param) = true -> Some (ne_customerRef e) = p_customerRef param).
Proof.
  unfold selected. cbn zeta.
  destruct (truthy (p_metric param)), (truthy (p_customerRef param));
    rewrite !list_elem_of_In, ?List.filter_In, <- !list_elem_of_In,
      ?bool_decide_eq_true, ?String.eqb_eq; intuition congruence.
Qed.

Lemma selected_sublist param evs : selected param evs `sublist_of` evs.
Proof.
  assert (forall (f : NewEvent -> bool) l, List.filter f l `sublist_of` l) as Hf.
  { intros f l. induction l as [|x l IH]; [done|]. cbn.
    destruct (f x); [by apply sublist_skip|by apply sublist_cons]. }
  unfold selected. cbn zeta.
  destruct (truthy (p_metric param)), (truthy (p_customerRef param));
    repeat (etrans; [apply Hf|]); done.
Qed.



(** X14. Under BYPASS_AUTH, GET /v1/events answers from the in-memory
    store: the events selected are those of the tenant asked for that have
    the metric and the customer asked for (when given), in the order they
    were stored; [total] is their number, whatever page is asked for; a page
    with offset and limit at least 0 holds the views of the [limit] selected
    events after the first [offset], so that a page and the page following it
    make up the page of both their sizes; without offset and limit all
    selected events are returned. The [source], [startTime] and [endTime]
    of the query select nothing in this mode. *)
Theorem events_pagination query (st : State DB) offset limit limit' :
  BYPASS_AUTH env = true -> 0 <= offset -> 0 <= limit -> 0 <= limit' ->
  let all := selected (paramOf query) (inMemoryEvents st) in
  let page o l := getEvents env None (withPage query o l) st in
  let events r := match r with (Events _ _ evs _, _) => evs | _ => [] end in
  page (Some offset) (Some limit) =
    (Events 200 (Z.of_nat (length all))
       (view <$> take (Z.to_nat limit) (drop (Z.to_nat offset) all)) None, st) /\
  events (page (Some offset) (Some limit)) ++ events (page (Some (offset + limit)) (Some limit'))
    = events (page (Some offset) (Some (limit + limit'))) /\
  page None None = (Events 200 (Z.of_nat (length all)) (view <$> all) None, st) /\
  all `sublist_of` inMemoryEvents st /\
  (forall e, e ∈ all <->
     e ∈ inMemoryEvents st /\ ne_tenantId e = q_tenantId query /\
     (truthy (q_metric query) = true -> Some (ne_metric e) = q_metric query) /\
     (truthy (q_customerRef query) = true -> Some (ne_customerRef e) = q_customerRef query)).
Proof.
  intros Hb Ho Hl Hl' all page events.
  assert (Hpage : forall o l, 0 <= o -> 0 <= l ->
    page (Some o) (Some l) =
      (Events 200 (Z.of_nat (length all))
         (view <$> take (Z.to_nat l) (drop (Z.to_nat o) all)) None, st)).
  { intros o l Ho' Hl''. unfold page, getEvents. rewrite Hb. cbn zeta.
    rewrite selected_withPage. fold all. cbn [paramOf withPage p_offset p_limit q_offset q_limit default].
    unfold id. by rewrite slice_nonneg. }
  split; [by apply Hpage|]. split; [|split; [|split]].
  - rewrite !Hpage by lia. cbn [events]. rewrite <- fmap_app. f_equal.
    rewrite (Z2Nat.inj_add limit limit'), (Z2Nat.inj_add offset limit) by lia.
    by rewrite <- take_take_drop, drop_drop.
  - unfold page, getEvents. rewrite Hb. cbn zeta. rewrite selected_withPage. fold all.
    cbn [paramOf withPage p_offset p_limit q_offset q_limit default]. by rewrite slice_all.
  - apply selected_sublist.
  - intros e. apply selected_spec.
Qed.

End Route.

Section RoundTrip.
Context `{CoreLib}.



End RoundTrip.

(** ** Runs of the listing route *)

Definition stored : State unit :=
  mkState tt ∅ [IngestProps.c1Stored] [].

Lemma events_pagination_witness :
  BYPASS_AUTH IngestProps.bypassing = true /\
  getEvents (H := IngestProps.demoCore) IngestProps.bypassing None
      (withPage (tenantQuery "org-1") (Some 0) (Some 1)) stored =
    (Events 200 1 [view IngestProps.c1Stored] None, stored) /\
  getEvents (H := IngestProps.demoCore) IngestProps.bypassing None
      (withPage (tenantQuery "org-2") (Some 0) (Some 1)) stored =
    (Events 200 0 [] None, stored).
Proof.
  split; [reflexivity|]. split.
  - refine (proj1 (events_pagination (H := IngestProps.demoCore) IngestProps.bypassing
                     (tenantQuery "org-1") stored 0 1 1 eq_refl _ _ _)); lia.
  - refine (proj1 (events_pagination (H := IngestProps.demoCore) IngestProps.bypassing
                     (tenantQuery "org-2") stored 0 1 1 eq_refl _ _ _)); lia.
Defined.


End EventsListProps.

(* ===================================================================== *)
(** * The period of an event *)
(* ===================================================================== *)

Module PeriodProps.
Import JsDate JsDateFacts JsString JsText StringFacts Ingest IngestFacts DemoEmitter.

Lemma digitChar_inj a b : 0 <= a <= 9 -> 0 <= b <= 9 -> digitChar a = digitChar b -> a = b.
Proof.
  intros Ha Hb Heq. unfold digitChar in Heq.
  apply (f_equal nat_of_ascii) in Heq.
  rewrite !nat_ascii_embedding in Heq; [|rewrite Z.mod_small by lia; lia..].
  rewrite !Z.mod_small in Heq by lia. lia.
Qed.

Lemma digit_range n k : 0 <= n -> 0 <= (n / k) mod 10 <= 9.
Proof. intros. pose proof (Z.mod_pos_bound (n / k) 10). lia. Qed.

Lemma digitChar_mod n : digitChar (n mod 10) = digitChar n.
Proof. unfold digitChar. by rewrite Z.mod_mod. Qed.

Lemma pad2_inj a b : 0 <= a <= 99 -> 0 <= b <= 99 -> pad2 a = pad2 b -> a = b.
Proof.
  intros Ha Hb. unfold pad2. intros [= H1 H0].
  rewrite <- (digitChar_mod a), <- (digitChar_mod b) in H0.
  apply digitChar_inj in H1; [|Z.div_mod_to_equations; lia..].
  apply digitChar_inj in H0; [|Z.div_mod_to_equations; lia..].
  Z.div_mod_to_equations. lia.
Qed.

Lemma pad4_inj a b : 0 <= a <= 9999 -> 0 <= b <= 9999 -> pad4 a = pad4 b -> a = b.
Proof.
  intros Ha Hb. unfold pad4, pad3, pad2. intros [= H3 H2 H1 H0].
  rewrite <- (digitChar_mod (a / 100)), <- (digitChar_mod (b / 100)) in H2.
  rewrite <- (digitChar_mod (a / 10)), <- (digitChar_mod (b / 10)) in H1.
  rewrite <- (digitChar_mod a), <- (digitChar_mod b) in H0.
  apply digitChar_inj in H3; [|Z.div_mod_to_equations; lia..].
  apply digitChar_inj in H2; [|Z.div_mod_to_equations; lia..].
  apply digitChar_inj in H1; [|Z.div_mod_to_equations; lia..].
  apply digitChar_inj in H0; [|Z.div_mod_to_equations; lia..].
  Z.div_mod_to_equations. lia.
Qed.

(** The ISO form of a time value in the years 0 to 9999 begins with the
    year on four digits and the month on two. *)
Lemma toISOString_head t :
  0 <= YearFromTime t <= 9999 ->
  exists rest,
    toISOString t = pad4 (YearFromTime t) +:+ "-" +:+ pad2 (MonthFromTime t + 1) +:+ rest.
Proof.
  intros Hy. unfold toISOString. cbn zeta.
  destruct (Z.leb_spec 0 (YearFromTime t)); [|lia].
  destruct (Z.leb_spec (YearFromTime t) 9999); [|lia]. cbn [andb].
  eexists. reflexivity.
Qed.

Lemma substringTo_7_head y m rest :
  substringTo 7 (pad4 y +:+ "-" +:+ pad2 m +:+ rest) = pad4 y +:+ "-" +:+ pad2 m.
Proof. reflexivity. Qed.

Lemma head_inj y m y' m' :
  pad4 y +:+ "-" +:+ pad2 m = pad4 y' +:+ "-" +:+ pad2 m' -> pad4 y = pad4 y' /\ pad2 m = pad2 m'.
Proof.
  unfold pad4, pad3, pad2. rewrite !append_cons, !append_nil_l.
  intros [= -> -> -> -> -> ->]. done.
Qed.

Lemma month_range t : 0 <= MonthFromTime t + 1 <= 99.
Proof. destruct (validDate_of_time t) as [Hm _]. lia. Qed.

(** Two time values have the same period start exactly when they fall in
    the same month of the same year, in UTC. *)
Lemma periodStart_eq_iff t t' :
  periodStart t = periodStart t' <->
  YearFromTime t = YearFromTime t' /\ MonthFromTime t = MonthFromTime t'.
Proof.
  destruct (periodStart_spec t) as (Heq & Hy & Hm & _).
  destruct (periodStart_spec t') as (Heq' & Hy' & Hm' & _).
  split.
  - intros Hp. rewrite <- Hy, <- Hm, Hp. done.
  - intros [Hyy Hmm]. by rewrite Heq, Heq', Hyy, Hmm.
Qed.

Lemma YearFromDay_mono d d' : d <= d' -> YearFromDay d <= YearFromDay d'.
Proof.
  intros Hle. pose proof (YearFromDay_spec d) as Hd. pose proof (YearFromDay_spec d') as Hd'.
  destruct (Z_le_gt_dec (YearFromDay d) (YearFromDay d')) as [|Hgt]; [done|].
  assert (DayFromYear (YearFromDay d' + 1) <= DayFromYear (YearFromDay d)); [|lia].
  destruct (Z.eq_dec (YearFromDay d' + 1) (YearFromDay d)) as [->|]; [lia|].
  apply Z.lt_le_incl, DayFromYear_lt. lia.
Qed.

Lemma monthOfDay_mono l a b : a <= b -> monthOfDay l a <= monthOfDay l b.
Proof.
  intros Hle. unfold monthOfDay.
  repeat match goal with
         | |- context [?x <? ?y] => destruct (Z.ltb_spec x y)
         end; lia.
Qed.

(** The time values of a period are those from its start on, up to the
    start of the next. *)
Lemma periodStart_between s t :
  periodStart t <= s <= t -> periodStart s = periodStart t.
Proof.
  intros [Hlo Hhi].
  destruct (periodStart_spec t) as (_ & Hy & Hm & _).
  assert (Hday : forall a b, a <= b -> Day a <= Day b)
    by (intros a b Hab; unfold Day, msPerDay; by apply Z.div_le_mono).
  assert (Hyear : forall a b, a <= b -> YearFromTime a <= YearFromTime b)
    by (intros a b Hab; unfold YearFromTime; by apply YearFromDay_mono, Hday).
  assert (Hys : YearFromTime s = YearFromTime t).
  { pose proof (Hyear _ _ Hlo). pose proof (Hyear _ _ Hhi). lia. }
  assert (Hmonth : forall a b, a <= b -> YearFromTime a = YearFromTime b ->
                               MonthFromTime a <= MonthFromTime b).
  { intros a b Hab Hyy. unfold MonthFromTime, InLeapYear, DayWithinYear. rewrite Hyy.
    apply monthOfDay_mono. pose proof (Hday _ _ Hab). lia. }
  apply periodStart_eq_iff. split; [done|].
  pose proof (Hmonth _ _ Hlo (eq_trans Hy (eq_sym Hys))).
  pose proof (Hmonth _ _ Hhi Hys). lia.
Qed.

Lemma periodStart_mono s t : s <= t -> periodStart s <= periodStart t.
Proof.
  intros Hle. destruct (Z_le_gt_dec (periodStart t) s) as [Hin|Hout].
  - by rewrite (periodStart_between s t).
  - destruct (periodStart_spec s) as (_ & _ & _ & _ & _ & Hs). lia.
Qed.

Lemma periodStartISO_eq_iff t t' :
  0 <= YearFromTime t <= 9999 -> 0 <= YearFromTime t' <= 9999 ->
  (toISOString (periodStart t) = toISOString (periodStart t') <->
   YearFromTime t = YearFromTime t' /\ MonthFromTime t = MonthFromTime t').
Proof.
  intros Hr Hr'.
  destruct (periodStart_spec t) as (_ & Hy & Hm & _).
  destruct (periodStart_spec t') as (_ & Hy' & Hm' & _).
  split.
  - intros Hiso.
    destruct (toISOString_head (periodStart t)) as [rest Hh]; [by rewrite Hy|].
    destruct (toISOString_head (periodStart t')) as [rest' Hh']; [by rewrite Hy'|].
    rewrite Hh, Hh' in Hiso. apply (f_equal (substringTo 7)) in Hiso.
    rewrite !substringTo_7_head in Hiso. apply head_inj in Hiso as [H4 H2].
    rewrite Hy, Hy' in H4. rewrite Hm, Hm' in H2.
    apply pad4_inj in H4; [|done..].
    apply pad2_inj in H2; [|apply month_range..]. split; [done|lia].
  - intros Hf. apply periodStart_eq_iff in Hf. by rewrite Hf.
Qed.

(** X13. Two events whose tenant id, metric and customer contain no
    colon, with timestamps in the years 0 to 9999, have the same aggregation
    job key (and so share one job when inserted together) exactly when they
    have the same tenant id, metric and customer and their timestamps fall
    in the same UTC month of the same year; the period start of a timestamp
    is a fixed point of the truncation. *)
Theorem same_job_iff (e e' : NewEvent) :
  colonFree e -> colonFree e' ->
  0 <= YearFromTime (ne_ts e) <= 9999 -> 0 <= YearFromTime (ne_ts e') <= 9999 ->
  (eventJobKey e = eventJobKey e' <->
     ne_tenantId e = ne_tenantId e' /\ ne_metric e = ne_metric e' /\
     ne_customerRef e = ne_customerRef e' /\
     YearFromTime (ne_ts e) = YearFromTime (ne_ts e') /\
     MonthFromTime (ne_ts e) = MonthFromTime (ne_ts e')) /\
  (periodStart (ne_ts e) = periodStart (ne_ts e') <->
     YearFromTime (ne_ts e) = YearFromTime (ne_ts e') /\
     MonthFromTime (ne_ts e) = MonthFromTime (ne_ts e')) /\
  periodStart (periodStart (ne_ts e)) = periodStart (ne_ts e).
Proof.
  intros (Ht & Hm & Hc) (Ht' & Hm' & Hc') Hy Hy'.
  split; [|split; [apply periodStart_eq_iff|apply periodStart_idem]].
  unfold eventJobKey, periodStartISO. split.
  - intros Hk.
    apply (aggregationKey_inj _ _ _ _ _ _ _ _ Ht Hm Hc Ht' Hm' Hc') in Hk
      as (-> & -> & -> & Hiso).
    apply periodStartISO_eq_iff in Hiso; [|done..]. by destruct Hiso.
  - intros (-> & -> & -> & Hyy & Hmm). f_equal.
    by apply periodStartISO_eq_iff.
Qed.

Lemma currentPeriod_fields t t' :
  YearFromTime t = YearFromTime t' -> MonthFromTime t = MonthFromTime t' ->
  currentPeriodYYYYMM t = currentPeriodYYYYMM t'.
Proof.
  intros Hy Hm. unfold currentPeriodYYYYMM, toISOString. cbn zeta. rewrite Hy, Hm.
  destruct ((0 <=? YearFromTime t') && (YearFromTime t' <=? 9999)); [reflexivity|].
  destruct (YearFromTime t' <? 0); reflexivity.
Qed.

Lemma currentPeriod_label t :
  0 <= YearFromTime t <= 9999 ->
  currentPeriodYYYYMM t = pad4 (YearFromTime t) +:+ "-" +:+ pad2 (MonthFromTime t + 1).
Proof.
  intros Hr. unfold currentPeriodYYYYMM.
  destruct (toISOString_head t Hr) as [rest ->]. apply substringTo_7_head.
Qed.

Lemma currentPeriod_eq_iff t t' :
  0 <= YearFromTime t <= 9999 -> 0 <= YearFromTime t' <= 9999 ->
  (currentPeriodYYYYMM t = currentPeriodYYYYMM t' <-> periodStart t = periodStart t').
Proof.
  intros Hr Hr'. rewrite periodStart_eq_iff. split.
  - rewrite !currentPeriod_label by done. intros [H4 H2]%head_inj.
    apply pad4_inj in H4; [|done..].
    apply pad2_inj in H2; [|apply month_range..]. split; [done|lia].
  - intros [Hyy Hmm]. by apply currentPeriod_fields.
Qed.

(** X23. The period label of the demo emitter, the first seven
    characters of the ISO form of a date, is the same for a date and for the
    period start the ingestion route computes from it; in the years 0 to
    9999 it is the year on four digits, a dash and the month on two, and two
    dates have the same label exactly when they have the same period start. *)
Theorem demo_period_is_bucket_month t :
  currentPeriodYYYYMM (periodStart t) = currentPeriodYYYYMM t /\
  (0 <= YearFromTime t <= 9999 ->
     currentPeriodYYYYMM t = pad4 (YearFromTime t) +:+ "-" +:+ pad2 (MonthFromTime t + 1) /\
     forall t', 0 <= YearFromTime t' <= 9999 ->
       (currentPeriodYYYYMM t = currentPeriodYYYYMM t' <-> periodStart t = periodStart t')).
Proof.
  destruct (periodStart_spec t) as (_ & Hy & Hm & _).
  split; [by apply currentPeriod_fields|].
  intros Hr. split; [by apply currentPeriod_label|].
  intros t' Hr'. by apply currentPeriod_eq_iff.
Qed.

(** X26. The period start never lies after the timestamp and grows with
    it, so that the timestamps of a period are an interval: an event whose
    timestamp lies between the period start of another and that other's
    timestamp has the same period start, and the same aggregation job key
    when tenant id, metric and customer are the same. *)
Theorem period_is_interval (e e' : NewEvent) :
  periodStart (ne_ts e) <= ne_ts e /\
  (ne_ts e <= ne_ts e' -> periodStart (ne_ts e) <= periodStart (ne_ts e')) /\
  (periodStart (ne_ts e') <= ne_ts e <= ne_ts e' ->
     periodStart (ne_ts e) = periodStart (ne_ts e') /\
     (ne_tenantId e = ne_tenantId e' -> ne_metric e = ne_metric e' ->
      ne_customerRef e = ne_customerRef e' -> eventJobKey e = eventJobKey e')).
Proof.
  split; [by destruct (periodStart_spec (ne_ts e)) as (_ & _ & _ & _ & _ & ?)|].
  split; [apply periodStart_mono|].
  intros Hin. pose proof (periodStart_between _ _ Hin) as Heq. split; [done|].
  intros Ht Hm Hc. unfold eventJobKey, periodStartISO. by rewrite Ht, Hm, Hc, Heq.
Qed.

(** X27. The demo emitter sends events of one and of two hours before
    the clock it reads, and downloads the report of the month of the clock
    it reads at the end: the labels of all its events are that month exactly
    when the month did not begin less than two hours before the first
    reading. In the first two hours of a month the demo asks for the report
    of a period that lacks the event sent as late, or all its events. *)
Theorem demo_report_covers_events now later :
  now <= later -> 0 <= YearFromTime (now - 7200000) -> YearFromTime later <= 9999 ->
  (Forall (fun e => substringTo 7 (se_ts e) = currentPeriodYYYYMM later) (mainEvents now)
   <-> periodStart later <= now - 7200000).
Proof.
  intros Hle Hlo Hhi.
  assert (Hyear : forall a b, a <= b -> YearFromTime a <= YearFromTime b).
  { intros a b Hab. unfold YearFromTime. apply YearFromDay_mono.
    unfold Day, msPerDay. by apply Z.div_le_mono. }
  assert (Hr : forall x, now - 7200000 <= x <= later -> 0 <= YearFromTime x <= 9999).
  { intros x [Hx Hx']. pose proof (Hyear _ _ Hx). pose proof (Hyear _ _ Hx'). lia. }
  unfold mainEvents. cbn zeta.
  change (2 * 60 * 60 * 1000) with 7200000. change (60 * 60 * 1000) with 3600000.
  rewrite !Forall_cons, Forall_nil. cbn [se_ts].
  fold (currentPeriodYYYYMM (now - 3600000)). fold (currentPeriodYYYYMM (now - 7200000)).
  rewrite !currentPeriod_eq_iff by (apply Hr; lia).
  split.
  - intros (_ & _ & Hlate & _).
    destruct (periodStart_spec (now - 7200000)) as (_ & _ & _ & _ & _ & Hs). lia.
  - intros Hstart.
    rewrite (periodStart_between (now - 3600000) later) by lia.
    rewrite (periodStart_between (now - 7200000) later) by lia. done.
Qed.

(** An event stored twelve days after [c1Stored], for another resource. *)
Definition laterInMonth : NewEvent :=
  {| ne_tenantId := "org-1"; ne_metric := "requests"; ne_customerRef := "c1";
     ne_resourceId := Some "r2"; ne_quantity := 1%Q; ne_ts := 1738000000000;
     ne_meta := None; ne_idempotencyKey := "k2"; ne_source := "http" |}.

Lemma same_job_iff_witness :
  (colonFree IngestProps.c1Stored /\ colonFree laterInMonth /\
   0 <= YearFromTime (ne_ts IngestProps.c1Stored) <= 9999 /\
   0 <= YearFromTime (ne_ts laterInMonth) <= 9999) /\
  ne_ts IngestProps.c1Stored <> ne_ts laterInMonth /\
  eventJobKey IngestProps.c1Stored = eventJobKey laterInMonth.
Proof.
  assert (Hc : colonFree IngestProps.c1Stored) by (by repeat split).
  assert (Hc' : colonFree laterInMonth) by (by repeat split).
  assert (Hy : 0 <= YearFromTime (ne_ts IngestProps.c1Stored) <= 9999)
    by (vm_compute; split; discriminate).
  assert (Hy' : 0 <= YearFromTime (ne_ts laterInMonth) <= 9999)
    by (vm_compute; split; discriminate).
  split; [done|]. split; [discriminate|].
  apply (proj1 (same_job_iff IngestProps.c1Stored laterInMonth Hc Hc' Hy Hy')).
  repeat split; vm_compute; reflexivity.
Defined.

(** Half an hour into February 2025, and three seconds later. *)
Definition earlyFebruary : Z := 1738369800000.

Lemma demo_report_covers_events_witness :
  (earlyFebruary <= earlyFebruary + 3000 /\
   0 <= YearFromTime (earlyFebruary - 7200000) /\
   YearFromTime (earlyFebruary + 3000) <= 9999) /\
  currentPeriodYYYYMM (earlyFebruary + 3000) = "2025-02" /\
  se_ts <$> mainEvents earlyFebruary =
    ["2025-01-31T23:30:00.000Z"; "2025-01-31T23:30:00.000Z"; "2025-01-31T22:30:00.000Z"] /\
  ~ Forall (fun e => substringTo 7 (se_ts e) = currentPeriodYYYYMM (earlyFebruary + 3000))
      (mainEvents earlyFebruary).
Proof.
  assert (H1 : earlyFebruary <= earlyFebruary + 3000) by (vm_compute; discriminate).
  assert (H2 : 0 <= YearFromTime (earlyFebruary - 7200000)) by (vm_compute; discriminate).
  assert (H3 : YearFromTime (earlyFebruary + 3000) <= 9999) by (vm_compute; discriminate).
  split; [done|]. split; [vm_compute; reflexivity|]. split; [vm_compute; reflexivity|].
  intros Hall.
  apply (proj1 (demo_report_covers_events earlyFebruary (earlyFebruary + 3000) H1 H2 H3))
    in Hall.
  vm_compute in Hall. by apply Hall.
Defined.

End PeriodProps.

(* ===================================================================== *)
(** * More properties of the ingestion route *)
(* ===================================================================== *)

Module IngestMore.
Import JsDate JsDateFacts JsString StringFacts Auth Ingest IngestFacts.

Section Route.
Context `{CoreLib} {DB : Type} `{EventsRepository DB}.
Context (server : Server).

(** X11. The ingestion route never answers 401: a request without
    tenant context (outside the bypass modes) makes the handler throw
    "tenant_not_resolved" before it looks at any event, the state untouched;
    and a request the handler refuses is refused with 403, outside the
    bypass modes, the state untouched, for an event of the batch that
    declares a tenant other than the authenticated one. *)
Theorem ingest_refusal_is_403 request eventBatch (st : State DB) :
  (BYPASS_AUTH (env server) = false -> testBypass (env server) = false ->
   truthy (organisationId request) = false ->
   ingest server request eventBatch st = (Thrown "tenant_not_resolved", st)) /\
  (forall status st',
     ingest server request eventBatch st = (Refused status, st') ->
     status = 403 /\ st' = st /\
     BYPASS_AUTH (env server) = false /\ testBypass (env server) = false /\
     exists org ev,
       organisationId request = Some org /\ ev ∈ eventBatch /\
       tenantId ev <> "" /\ tenantId ev <> org).
Proof.
  split.
  - intros Hb Ht Hno. unfold ingest, getTenantId. by rewrite Hb, Ht, Hno.
  - intros status st' Hrun.
    pose proof (ingest_refused_inv server _ _ _ _ _ Hrun) as ->.
    unfold ingest in Hrun.
    destruct (getTenantId (env server) request) as [auth|] eqn:Ha; [|done].
    destruct (processEvents _ _ _ _ _ _) as [loop|status'] eqn:Hl.
    { destruct (persist _ _ _) as [[[? ?] ?]|]; [|done].
      by destruct (addBulkRejected _ _). }
    injection Hrun as ->.
    apply IngestProps.processEvents_inr in Hl as (ev & Hin & Hden).
    destruct (BYPASS_AUTH (env server)) eqn:Hb.
    { unfold requireTenantMatch in Hden. by rewrite Hb in Hden. }
    destruct (testBypass (env server)) eqn:Ht.
    { unfold requireTenantMatch in Hden. by rewrite Hb, Ht in Hden. }
    destruct (IngestProps.requireTenantMatch_strict server request auth (tenantId ev)
                Hb Ht Ha) as [Horg Hstrict].
    rewrite Hstrict in Hden.
    destruct (String.eqb_spec (tenantId ev) ""); [done|].
    destruct (String.eqb_spec (tenantId ev) auth); [done|].
    injection Hden as <-. split; [done|]. split; [done|]. split; [done|]. split; [done|].
    by exists auth, ev.
Qed.

Lemma processEvent_ext server' auth request i ev acc :
  env server' = env server -> tooFar server' i ev = tooFar server i ev ->
  processEvent server' auth request i ev acc = processEvent server auth request i ev acc.
Proof.
  intros He Hf. unfold processEvent. rewrite Hf.
  rewrite (IngestProps.eventKey_env server server' auth request ev He).
  assert (eventKey server' auth request ev = eventKey server auth request ev) as ->; [|done].
  unfold eventKey, eventTenantId. by rewrite He.
Qed.

Lemma processEvents_ext server' auth request i eventBatch acc :
  env server' = env server ->
  Forall (fun p => tooFar server' p.1 p.2 = tooFar server p.1 p.2) (indexed i eventBatch) ->
  processEvents server' auth request i eventBatch acc =
    processEvents server auth request i eventBatch acc.
Proof.
  intros He. revert i acc. induction eventBatch as [|ev rest IH]; intros i acc Hf; [done|].
  cbn [indexed] in Hf. inversion Hf as [|? ? Hev Hrest]; subst. cbn [processEvents].
  rewrite He. destruct (requireTenantMatch _ _ _); [|done].
  rewrite (processEvent_ext server' auth request i ev acc He Hev). by apply IH.
Qed.

Lemma indexed_length {A} i (l : list A) : length (indexed i l) = length l.
Proof. revert i. induction l as [|x l IH]; intros i; cbn; [done|]. by rewrite IH. Qed.

Lemma kept_rejected_length i eventBatch :
  (length (kept server i eventBatch) + length (rejected server i eventBatch)
   = length eventBatch)%nat.
Proof.
  unfold kept, rejected. rewrite <- (indexed_length i eventBatch).
  induction (indexed i eventBatch) as [|p l IH]; [done|]. cbn.
  destruct (tooFar server p.1 p.2); cbn; lia.
Qed.

End Route.

Lemma simulate_known evs (keys : gset string) :
  (forall e, e ∈ evs -> ne_idempotencyKey e ∈ keys) ->
  simulate evs keys = ([], ne_idempotencyKey <$> evs, keys).
Proof.
  unfold simulate.
  assert (forall dups,
    (forall e, e ∈ evs -> ne_idempotencyKey e ∈ keys) ->
    foldl (fun '(newlyInserted, dupKeys, keys) e =>
             let key := ne_idempotencyKey e in
             if bool_decide (key ∈ keys) then (newlyInserted, dupKeys ++ [key], keys)
             else (newlyInserted ++ [e], dupKeys, {[key]} ∪ keys))
      ([], dups, keys) evs = ([], dups ++ (ne_idempotencyKey <$> evs), keys)) as Hgen.
  { induction evs as [|e evs IH]; intros dups Hall; cbn [foldl fmap list_fmap].
    - by rewrite app_nil_r.
    - rewrite bool_decide_eq_true_2 by (apply Hall, list_elem_of_here).
      rewrite IH by (intros e' He'; by apply Hall, list_elem_of_further).
      by rewrite <- app_assoc. }
  apply (Hgen []).
Qed.

Section Replay.
Context `{CoreLib}.

(** The insertion under BYPASS_AUTH over the fallback repository. *)
Lemma persist_bypass server evs (st : State unit) :
  BYPASS_AUTH (env server) = true ->
  persist server evs st =
    if bool_decide (evs = []) then Some ([], [], st)
    else let '(newlyInserted, dupKeys, keys) := simulate evs (inMemoryIdempotencyKeys st) in
         Some (newlyInserted, dupKeys,
               mkState (db st) keys (inMemoryEvents st ++ newlyInserted) (queued st)).
Proof.
  intros Hb. unfold persist. cbn [upsertBatch fallbackRepository]. rewrite Hb.
  cbn [mbind option_bind andb]. destruct (bool_decide (evs = [])); cbn [negb andb].
  - by destruct st.
  - by rewrite !bool_decide_eq_true_2 by done.
Qed.

(** What a request adds to the in-memory events under BYPASS_AUTH over the
    fallback repository, whatever its outcome: events the loop kept whose
    keys were not known. *)
Lemma ingest_bypass_added server request eventBatch reply (st st' : State unit) :
  BYPASS_AUTH (env server) = true ->
  ingest server request eventBatch st = (reply, st') ->
  exists added,
    inMemoryEvents st' = inMemoryEvents st ++ added /\
    (forall body, reply = Send body -> resp_accepted body = length added) /\
    forall e, e ∈ added ->
      (ne_idempotencyKey e ∉ inMemoryIdempotencyKeys st) /\
      exists auth p,
        getTenantId (env server) request = Some auth /\
        p ∈ kept server 0 eventBatch /\ e = prepared server auth request p.2.
Proof.
  intros Hb. unfold ingest.
  destruct (getTenantId _ _) as [auth|] eqn:Ha.
  2:{ intros [= <- <-]. exists []. rewrite app_nil_r. split; [done|]. split; [done|].
      intros e He. by apply elem_of_nil in He. }
  destruct (processEvents _ _ _ _ _ _) as [loop|status] eqn:Hl.
  2:{ intros [= <- <-]. exists []. rewrite app_nil_r. split; [done|]. split; [done|].
      intros e He. by apply elem_of_nil in He. }
  pose proof (processEvents_run server _ _ _ _ _ _ Hl) as (_ & _ & Hins).
  cbn [eventsToInsert app] in Hins.
  rewrite persist_bypass by done.
  pose proof (simulate_spec (eventsToInsert loop) (inMemoryIdempotencyKeys st)) as Hsim.
  case_bool_decide as Hnil.
  { rewrite addBulkRejected_nil. intros [= <- <-]. exists [].
    rewrite enqueue_inMemoryEvents, app_nil_r.
    split; [done|]. split; [by intros body [= <-]|].
    intros e He. by apply elem_of_nil in He. }
  destruct (simulate _ _) as [[newlyInserted dupKeys] keys].
  destruct Hsim as (Hsub & _ & _ & Hfresh & _ & _).
  assert (Hfrom : forall e, e ∈ newlyInserted ->
            (ne_idempotencyKey e ∉ inMemoryIdempotencyKeys st) /\
            exists auth0 p,
              Some auth = Some auth0 /\
              p ∈ kept server 0 eventBatch /\ e = prepared server auth0 request p.2).
  { intros e He. split; [by apply Hfresh|].
    apply Hsub in He. rewrite Hins in He.
    apply list_elem_of_fmap in He as (p & -> & Hp). by exists auth, p. }
  destruct (addBulkRejected server newlyInserted).
  - intros [= <- <-]. exists newlyInserted. split; [done|]. split; [done|]. exact Hfrom.
  - intros [= <- <-]. exists newlyInserted. rewrite enqueue_inMemoryEvents.
    split; [done|]. split; [by intros body [= <-]|]. exact Hfrom.
Qed.

(** X12. Under BYPASS_AUTH and over the fallback repository, every
    event of a batch that is replied to is counted once, as accepted, as a
    duplicate or as an error. When the same request is sent again and the
    same events of it are too far in the future as the first time, nothing
    is accepted: the accepted and the duplicate events of the first reply
    are all duplicates, the errors are the same, no result says accepted,
    and the in-memory events, the known keys and the queue stay as the first
    request left them. The clock is read afresh in each request: whenever
    the request is sent again, whatever the outcome, the events it adds to
    the in-memory events (the accepted ones, if it is replied to) are events
    the first request rejected as too far in the future and this one does
    not; none of the events the first request kept is added again. *)
Theorem bypass_replay_is_duplicate server server' request eventBatch body
    (st st1 : State unit) :
  BYPASS_AUTH (env server) = true -> env server' = env server ->
  ingest server request eventBatch st = (Send body, st1) ->
  (resp_accepted body + resp_duplicates body + length (default [] (resp_errors body))
   = length eventBatch)%nat /\
  (Forall (fun p => tooFar server' p.1 p.2 = tooFar server p.1 p.2) (indexed 0 eventBatch) ->
   exists body2,
     ingest server' request eventBatch st1 = (Send body2, st1) /\
     resp_accepted body2 = 0%nat /\
     resp_duplicates body2 = (resp_accepted body + resp_duplicates body)%nat /\
     resp_errors body2 = resp_errors body /\
     Forall (fun r => r_status r <> accepted) (resp_results body2)) /\
  (forall reply st2,
     ingest server' request eventBatch st1 = (reply, st2) ->
     exists added,
       inMemoryEvents st2 = inMemoryEvents st1 ++ added /\
       (forall body2, reply = Send body2 -> resp_accepted body2 = length added) /\
       forall e, e ∈ added ->
         exists auth i ev,
           getTenantId (env server) request = Some auth /\
           (i, ev) ∈ rejected server 0 eventBatch /\
           (i, ev) ∈ kept server' 0 eventBatch /\
           e = prepared server auth request ev).
Proof.
  intros Hb He Hrun.
  apply ingest_sent in Hrun as (auth & loop & inserted & duplicates & st0 &
                                 Ha & Hl & Hp & -> & ->).
  pose proof (processEvents_run server _ _ _ _ _ _ Hl) as (Herr & Hres & Hins).
  cbn [errors results eventsToInsert app] in Herr, Hres, Hins.
  pose proof (kept_rejected_length server 0 eventBatch) as Hlen.
  assert (Hlerr : length (errors loop) = length (rejected server 0 eventBatch))
    by (by rewrite Herr, length_fmap).
  assert (Hlins : length (eventsToInsert loop) = length (kept server 0 eventBatch))
    by (by rewrite Hins, length_fmap).
  rewrite persist_bypass in Hp by done.
  pose proof (simulate_spec (eventsToInsert loop) (inMemoryIdempotencyKeys st)) as Hsim.
  set (evs := eventsToInsert loop) in *.
  assert (Hcount : (length inserted + length duplicates = length evs)%nat /\
                   (forall e, e ∈ evs -> ne_idempotencyKey e ∈ inMemoryIdempotencyKeys st0)).
  { case_bool_decide as Hnil.
    - injection Hp as <- <- <-. rewrite Hnil. split; [done|].
      intros e Hin. by apply elem_of_nil in Hin.
    - destruct (simulate evs _) as [[newlyInserted dupKeys] keys].
      injection Hp as <- <- <-. destruct Hsim as (_ & _ & _ & _ & Hk & Hl').
      split; done. }
  destruct Hcount as (Hcnt & Hknown).
  cbn [resp_accepted resp_duplicates resp_errors].
  set (st1 := enqueue server inserted st0).
  assert (Hkeys1 : inMemoryIdempotencyKeys st1 = inMemoryIdempotencyKeys st0).
  { unfold st1, enqueue. by destruct (_ && _). }
  assert (Ha' : getTenantId (env server') request = Some auth) by (by rewrite He).
  split; [|split].
  { destruct (bool_decide (errors loop = [])) eqn:Hnil; cbn [default length].
    - apply bool_decide_eq_true in Hnil. rewrite Hnil in Hlerr. cbn in Hlerr. lia.
    - unfold id. lia. }
  - intros Hfar.
    assert (Hl2 : processEvents server' auth request 0 eventBatch (mkLoop [] [] []) = inl loop)
      by (by rewrite (processEvents_ext server)).
    assert (Hp2 : persist server' evs st1 =
                  Some ([], ne_idempotencyKey <$> evs, st1)).
    { rewrite persist_bypass by (by rewrite He).
      case_bool_decide as Hnil; [by rewrite Hnil|].
      rewrite simulate_known by (intros e Hin; rewrite Hkeys1; by apply Hknown).
      rewrite app_nil_r. by destruct st1. }
    eexists. split.
    { rewrite (ingest_send server' auth request eventBatch loop _ _ st1 st1 Ha' Hl2 Hp2
                 (addBulkRejected_nil server')).
      done. }
    cbn [resp_accepted resp_duplicates resp_errors resp_results length].
    split; [done|]. split; [rewrite length_fmap; lia|]. split; [done|].
    apply Forall_app. split.
    + rewrite Hres. apply Forall_fmap, Forall_forall. by intros p _.
    + rewrite statusResults_omap. apply Forall_forall. intros r Hr.
      apply list_elem_of_omap in Hr as (e & _ & Hst). unfold statusOf in Hst. cbn zeta in Hst.
      rewrite bool_decide_eq_false_2 in Hst by set_solver.
      case_bool_decide; [|done]. by injection Hst as <-.
  - intros reply st2 Hrun2.
    apply ingest_bypass_added in Hrun2 as (added & Hstore & Hacc & Hfrom);
      [|by rewrite He].
    exists added. split; [done|]. split; [done|].
    intros e Hin. destruct (Hfrom e Hin) as (Hnew & auth' & [i ev] & Hauth & Hkept & ->).
    rewrite He in Hauth. rewrite Ha in Hauth. injection Hauth as <-.
    cbn [snd] in *.
    rewrite (IngestProps.eventKey_env server server' auth request ev He) in Hnew |- *.
    exists auth, i, ev. split; [done|]. split; [|done].
    unfold kept in Hkept. unfold rejected.
    apply list_elem_of_In, List.filter_In in Hkept as [Hidx _].
    apply list_elem_of_In, List.filter_In. split; [done|]. cbn [fst snd].
    destruct (tooFar server i ev) eqn:Hfar; [done|]. exfalso. apply Hnew.
    rewrite Hkeys1. apply Hknown. subst evs. rewrite Hins.
    apply list_elem_of_fmap. exists (i, ev). split; [done|].
    unfold kept. apply list_elem_of_In, List.filter_In. split; [done|].
    cbn [fst snd]. by rewrite Hfar.
Qed.

End Replay.

(** The bypassing server two hours on. *)
Definition twoHoursLater : Server :=
  {| env := IngestProps.bypassing; aggregationQueue := true; addBulk := fun _ => true;
     now := fun _ => IngestProps.noon + 2 * 60 * 60 * 1000 |}.

(** A request sent again two hours later: the event that was too far in the
    future the first time is accepted, the other one is a duplicate. *)
Example replay_later_accepts_rejected :
  let batch := [IngestProps.c1; IngestProps.late] in
  let first := ingest (H := IngestProps.demoCore) IngestProps.bypassServer
                 (IngestProps.requestOf "org-1") batch (IngestProps.fresh tt) in
  let again := ingest (H := IngestProps.demoCore) twoHoursLater
                 (IngestProps.requestOf "org-1") batch first.2 in
  (exists body, first.1 = Send body /\ resp_accepted body = 1%nat /\
                resp_errors body = Some [(1%nat, tooFarMsg)]) /\
  (exists body2, again.1 = Send body2 /\ resp_accepted body2 = 1%nat /\
                 resp_duplicates body2 = 1%nat /\ resp_errors body2 = None) /\
  length (inMemoryEvents again.2) = 2%nat.
Proof.
  cbn zeta. split; [|split].
  - eexists. split; [vm_compute; reflexivity|]. by split.
  - eexists. split; [vm_compute; reflexivity|]. by split.
  - vm_compute. reflexivity.
Qed.

Lemma bypass_replay_is_duplicate_witness :
  BYPASS_AUTH (env IngestProps.bypassServer) = true /\
  (ingest (H := IngestProps.demoCore) IngestProps.bypassServer (IngestProps.requestOf "org-1")
     [IngestProps.c1; IngestProps.late; IngestProps.c1] (IngestProps.fresh tt)).1 =
    Send {| resp_accepted := 1; resp_duplicates := 1; resp_requestId := "req-1";
            resp_results :=
              [errorResult "evt|org-1|requests|c2||2025-01-15T14:00:00.000Z";
               IngestProps.acceptedResult IngestProps.c1Key;
               IngestProps.acceptedResult IngestProps.c1Key];
            resp_errors := Some [(1%nat, tooFarMsg)] |} /\
  exists body2,
    (ingest (H := IngestProps.demoCore) IngestProps.bypassServer (IngestProps.requestOf "org-1")
       [IngestProps.c1; IngestProps.late; IngestProps.c1]
       (ingest (H := IngestProps.demoCore) IngestProps.bypassServer
          (IngestProps.requestOf "org-1")
          [IngestProps.c1; IngestProps.late; IngestProps.c1] (IngestProps.fresh tt)).2).1
      = Send body2 /\
    resp_accepted body2 = 0%nat /\ resp_duplicates body2 = 2%nat.
Proof.
  split; [reflexivity|].
  set (run := ingest (H := IngestProps.demoCore) IngestProps.bypassServer
                (IngestProps.requestOf "org-1")
                [IngestProps.c1; IngestProps.late; IngestProps.c1] (IngestProps.fresh tt)).
  assert (Hsend : run.1 =
    Send {| resp_accepted := 1; resp_duplicates := 1; resp_requestId := "req-1";
            resp_results :=
              [errorResult "evt|org-1|requests|c2||2025-01-15T14:00:00.000Z";
               IngestProps.acceptedResult IngestProps.c1Key;
               IngestProps.acceptedResult IngestProps.c1Key];
            resp_errors := Some [(1%nat, tooFarMsg)] |}) by (vm_compute; reflexivity).
  split; [exact Hsend|].
  assert (Hrun : run = (run.1, run.2)) by (by destruct run).
  rewrite Hsend in Hrun.
  assert (Hfar : Forall (fun p => tooFar (H := IngestProps.demoCore)
                                     IngestProps.bypassServer p.1 p.2 =
                                   tooFar (H := IngestProps.demoCore)
                                     IngestProps.bypassServer p.1 p.2)
                    (indexed 0 [IngestProps.c1; IngestProps.late; IngestProps.c1]))
    by (by repeat constructor).
  destruct (bypass_replay_is_duplicate (H := IngestProps.demoCore) IngestProps.bypassServer
              IngestProps.bypassServer (IngestProps.requestOf "org-1")
              [IngestProps.c1; IngestProps.late; IngestProps.c1] _ (IngestProps.fresh tt) run.2
              eq_refl eq_refl Hrun) as (_ & Hsame & _).
  destruct (Hsame Hfar) as (body2 & Hrun2 & Hacc & Hdup & _).
  exists body2. rewrite Hrun2. split; [done|]. split; [exact Hacc|exact Hdup].
Defined.

End IngestMore.

(* ===================================================================== *)
(** * Bodies that do not pass the schema *)
(* ===================================================================== *)

Module IngestRouteProps.
Import Auth Ingest IngestFacts EventsList IngestRoute.

(** The five properties of an event the key is derived from. *)
Definition keyInputOf (e : Event) : KeyInput :=
  {| k_tenantId := tenantId e; k_metric := metric e; k_customerRef := customerRef e;
     k_resourceId := resourceId e; k_ts := ts e |}.

Section Route.
Context `{CoreLib} {DB : Type} `{EventsRepository DB}.
Context (server : Server).

Lemma ingestRoute_valid request body eventBatch (st : State DB) :
  validationResult body = inr eventBatch ->
  ingestRoute server request body st =
    ((Valid (ingest server request eventBatch st).1), (ingest server request eventBatch st).2).
Proof.
  intros Hv. unfold ingestRoute. rewrite Hv.
  destruct (getTenantId (env server) request) as [auth|] eqn:Ha.
  - by destruct (ingest server request eventBatch st).
  - unfold ingest. by rewrite Ha.
Qed.

Lemma acceptMinimal_spec request first (st : State DB) :
  let key := generateIdempotencyKey first in
  exists status st',
    acceptMinimal request first st = (Lenient 200 (counted request key status), st') /\
    (status = accepted /\ key ∉ inMemoryIdempotencyKeys st \/
     status = duplicate /\ key ∈ inMemoryIdempotencyKeys st /\ st' = st) /\
    inMemoryIdempotencyKeys st' = {[key]} ∪ inMemoryIdempotencyKeys st /\
    inMemoryEvents st' = inMemoryEvents st /\ queued st' = queued st /\ db st' = db st.
Proof.
  cbn zeta. unfold acceptMinimal. case_bool_decide as Hin; cbn [negb].
  - exists duplicate, st. split; [done|]. split; [by right|].
    split; [|done]. apply set_eq. intros x. set_solver.
  - exists accepted. eexists. split; [done|]. split; [by left|]. done.
Qed.

(** X24. A body that does not pass the schema is answered 400 with the
    indexed messages and changes nothing, except under BYPASS_AUTH when its
    [events] is a non-empty array: then the handler reads the first element
    alone, whatever follows it. When that element is [null] or [undefined]
    the handler throws a TypeError and changes nothing. When it carries the
    properties the key is derived from, the reply is 200: the key is the one
    derived from that element; the reply counts it accepted when the key is
    not known yet and duplicate when it is, so that the same request sent
    again is answered duplicate; the key is remembered, and nothing is
    stored among the in-memory events, handed to the repository or
    queued. *)
Theorem invalid_body_lenient request body messages (st : State DB) :
  validationResult body = inl messages ->
  let reject := (ValidationError 400 (requestId request) (indexedErrors messages), st) in
  (BYPASS_AUTH (env server) = false ->
     ingestRoute server request body st =
       match getTenantId (env server) request with
       | Some _ => reject
       | None => (Valid (Thrown "tenant_not_resolved"), st)
       end) /\
  (BYPASS_AUTH (env server) = true -> rawEvents body = [] ->
     ingestRoute server request body st = reject) /\
  (BYPASS_AUTH (env server) = true ->
   forall rest, rawEvents body = Nullish :: rest ->
     ingestRoute server request body st = (RawThrown "TypeError", st)) /\
  (BYPASS_AUTH (env server) = true ->
   forall first rest, rawEvents body = Fields first :: rest ->
     let key := generateIdempotencyKey first in
     exists reply st',
       ingestRoute server request body st = (Lenient 200 reply, st') /\
       (resp_accepted reply + resp_duplicates reply = 1)%nat /\
       (resp_accepted reply = 1%nat <-> key ∉ inMemoryIdempotencyKeys st) /\
       r_idempotencyKey <$> resp_results reply = [key] /\
       r_status <$> resp_results reply =
         [if bool_decide (key ∈ inMemoryIdempotencyKeys st) then duplicate else accepted] /\
       resp_errors reply = None /\
       inMemoryIdempotencyKeys st' = {[key]} ∪ inMemoryIdempotencyKeys st /\
       inMemoryEvents st' = inMemoryEvents st /\ queued st' = queued st /\
       db st' = db st /\
       ingestRoute server request body st' = (Lenient 200 (counted request key duplicate), st')).
Proof.
  intros Hv reject. unfold ingestRoute. rewrite Hv. split; [|split; [|split]].
  - intros ->. by destruct (getTenantId _ _).
  - intros Hb ->. unfold getTenantId. by rewrite Hb.
  - intros Hb rest ->. unfold getTenantId. by rewrite Hb.
  - intros Hb first rest Hraw. unfold getTenantId. rewrite Hb, Hraw. cbn [orb].
    destruct (acceptMinimal_spec request first st)
      as (status & st' & Hrun & Hstatus & Hkeys & Hev & Hq & Hdb).
    set (key := generateIdempotencyKey first) in *.
    exists (counted request key status), st'. split; [done|].
    assert (Hagain : acceptMinimal request first st' =
                     (Lenient 200 (counted request key duplicate), st')).
    { unfold acceptMinimal. fold key. rewrite Hkeys.
      rewrite bool_decide_eq_true_2 by set_solver. done. }
    destruct Hstatus as [[-> Hnew]|(-> & Hold & ->)].
    + rewrite (bool_decide_eq_false_2 _ Hnew). cbn. by repeat split.
    + rewrite (bool_decide_eq_true_2 _ Hold). cbn. repeat split; try done.
      all: try (intros; done).
Qed.

End Route.

(** ** The two paths share the known keys *)

Section Shared.
Context `{CoreLib}.
Context (server : Server).

(** The request that carries the event alone, in a body that passes the
    schema. *)
Definition validBody (e : Event) : IngestBody :=
  {| validationResult := inr [e]; rawEvents := [Fields (keyInputOf e)] |}.

Lemma eventKey_derived auth request e :
  BYPASS_AUTH (env server) = true ->
  truthy (idempotencyKey e) = false -> truthy (headerIdempotencyKey request) = false ->
  eventKey server auth request e = generateIdempotencyKey (keyInputOf e).
Proof.
  intros Hb He Hh. unfold eventKey, Ingest.orElse, eventTenantId. by rewrite Hb, He, Hh.
Qed.

(** X25. Under BYPASS_AUTH and over the fallback repository, an event
    accepted from a body that does not pass the schema is stored nowhere but
    in the set of known keys: a later request carrying the same event in a
    valid body, with no key of its own and no Idempotency-Key header, is
    answered with that event as a duplicate, nothing is inserted or queued,
    and the listing of GET /v1/events is what it was before the first
    request. *)
Theorem lenient_accept_hides_event request body messages rest e (st : State unit) :
  BYPASS_AUTH (env server) = true ->
  validationResult body = inl messages -> rawEvents body = Fields (keyInputOf e) :: rest ->
  truthy (idempotencyKey e) = false -> truthy (headerIdempotencyKey request) = false ->
  tooFar server 0 e = false ->
  generateIdempotencyKey (keyInputOf e) ∉ inMemoryIdempotencyKeys st ->
  exists first st1 second,
    ingestRoute server request body st = (Lenient 200 first, st1) /\
    resp_accepted first = 1%nat /\
    ingestRoute server request (validBody e) st1 = (Valid (Send second), st1) /\
    resp_accepted second = 0%nat /\ resp_duplicates second = 1%nat /\
    r_status <$> resp_results second = [duplicate] /\
    inMemoryEvents st1 = inMemoryEvents st /\ queued st1 = queued st /\
    forall validation query,
      (getEvents (env server) validation query st1).1 =
      (getEvents (env server) validation query st).1.
Proof.
  intros Hb Hv Hraw He Hh Hfar Hnew.
  destruct (invalid_body_lenient server request body messages st Hv) as (_ & _ & _ & Hlen).
  destruct (Hlen Hb _ _ Hraw)
    as (first & st1 & Hrun & Hone & Hacc & _ & _ & _ & Hkeys & Hev & Hq & Hdb & _).
  exists first, st1.
  set (key := generateIdempotencyKey (keyInputOf e)) in *.
  set (p := prepared server zeroTenant request e).
  assert (Hpk : ne_idempotencyKey p = key).
  { unfold p, prepared. cbn [ne_idempotencyKey]. by apply eventKey_derived. }
  assert (Hknown : key ∈ inMemoryIdempotencyKeys st1) by (rewrite Hkeys; set_solver).
  assert (Ha : getTenantId (env server) request = Some zeroTenant)
    by (unfold getTenantId; by rewrite Hb).
  assert (Hloop : processEvents server zeroTenant request 0 [e] (mkLoop [] [] [])
                  = inl (mkLoop [] [] [p])).
  { cbn [processEvents]. unfold requireTenantMatch. rewrite Hb. cbn [orb].
    unfold processEvent. by rewrite Hfar. }
  assert (Hp : persist server [p] st1 = Some ([], [key], st1)).
  { unfold persist. cbn [upsertBatch fallbackRepository]. rewrite Hb.
    cbn [mbind option_bind andb negb]. rewrite bool_decide_eq_false_2 by done.
    rewrite !bool_decide_eq_true_2 by done. cbn [negb andb].
    unfold simulate. cbn [foldl]. rewrite Hpk, (bool_decide_eq_true_2 _ Hknown).
    cbn [app]. rewrite app_nil_r. by destruct st1 as [[] ks evs q]. }
  pose proof (ingest_send server zeroTenant request [e] _ _ _ st1 st1 Ha Hloop Hp
                (addBulkRejected_nil server)) as Hsend.
  eexists. split; [done|]. split; [by apply Hacc|].
  split.
  { rewrite (ingestRoute_valid server request (validBody e) [e] st1 eq_refl), Hsend.
    cbn [fst snd]. by f_equal. }
  cbn [resp_accepted resp_duplicates resp_results length results eventsToInsert app].
  split; [done|]. split; [done|]. split.
  { unfold statusResults. cbn [foldl fmap list_fmap]. rewrite Hpk.
    rewrite bool_decide_eq_false_2 by set_solver.
    rewrite bool_decide_eq_true_2 by set_solver. done. }
  split; [done|]. split; [done|].
  intros validation query. unfold getEvents. rewrite Hb, Hev.
  by destruct validation.
Qed.

End Shared.

(** ** Runs of the route *)

(** A body that fails the schema (its events have no quantity) and holds
    [c1] twice. *)
Definition minimalBody : IngestBody :=
  {| validationResult := inl ["events.0.quantity: Required"; "events.1.quantity: Required"];
     rawEvents := [Fields (keyInputOf IngestProps.c1); Fields (keyInputOf IngestProps.c1)] |}.

(** A body whose [events] is [[null]]. *)
Definition nullBody : IngestBody :=
  {| validationResult := inl ["events.0: Expected object, received null"];
     rawEvents := [Nullish] |}.

Example null_event_throws :
  ingestRoute (H := IngestProps.demoCore) IngestProps.bypassServer
    (IngestProps.requestOf "org-1") nullBody (IngestProps.fresh tt)
  = (RawThrown "TypeError", IngestProps.fresh tt) /\
  ingestRoute (H := IngestProps.demoCore) IngestProps.liveServer
    (IngestProps.requestOf "org-1") nullBody (IngestProps.fresh tt)
  = (ValidationError 400 "req-1" [(0%nat, "events.0: Expected object, received null")],
     IngestProps.fresh tt).
Proof. split; reflexivity. Qed.

Lemma invalid_body_lenient_witness :
  validationResult minimalBody =
    inl ["events.0.quantity: Required"; "events.1.quantity: Required"] /\
  exists reply st',
    ingestRoute (H := IngestProps.demoCore) IngestProps.bypassServer
      (IngestProps.requestOf "org-1") minimalBody (IngestProps.fresh tt)
      = (Lenient 200 reply, st') /\
    resp_accepted reply = 1%nat /\ resp_duplicates reply = 0%nat /\
    inMemoryEvents st' = [].
Proof.
  split; [reflexivity|].
  destruct (proj2 (proj2 (proj2 (invalid_body_lenient (H := IngestProps.demoCore)
              IngestProps.bypassServer (IngestProps.requestOf "org-1") minimalBody _
              (IngestProps.fresh tt) eq_refl))) eq_refl _ _ eq_refl)
    as (reply & st' & Hrun & Hone & Hacc & _ & _ & _ & _ & Hev & _).
  exists reply, st'. split; [exact Hrun|].
  assert (Ha : resp_accepted reply = 1%nat) by (apply Hacc, not_elem_of_empty).
  split; [exact Ha|]. split; [lia|]. exact Hev.
Defined.

Lemma lenient_accept_hides_event_witness :
  (BYPASS_AUTH (env IngestProps.bypassServer) = true /\
   tooFar (H := IngestProps.demoCore) IngestProps.bypassServer 0 IngestProps.c1 = false) /\
  exists st1 second,
    (ingestRoute (H := IngestProps.demoCore) IngestProps.bypassServer
       (IngestProps.requestOf "org-1") minimalBody (IngestProps.fresh tt)).2 = st1 /\
    ingestRoute (H := IngestProps.demoCore) IngestProps.bypassServer
      (IngestProps.requestOf "org-1") (validBody IngestProps.c1) st1
      = (Valid (Send second), st1) /\
    resp_accepted second = 0%nat /\ resp_duplicates second = 1%nat /\
    inMemoryEvents st1 = [].
Proof.
  assert (Hfar : tooFar (H := IngestProps.demoCore) IngestProps.bypassServer 0 IngestProps.c1
                 = false) by (vm_compute; reflexivity).
  split; [split; [reflexivity|exact Hfar]|].
  destruct (lenient_accept_hides_event (H := IngestProps.demoCore) IngestProps.bypassServer
              (IngestProps.requestOf "org-1") minimalBody _ _ IngestProps.c1
              (IngestProps.fresh tt) eq_refl eq_refl eq_refl eq_refl eq_refl Hfar
              (not_elem_of_empty _))
    as (first & st1 & second & Hrun & _ & Hrun2 & Hacc & Hdup & _ & Hev & _).
  exists st1, second. rewrite Hrun. split; [reflexivity|]. split; [exact Hrun2|].
  split; [exact Hacc|]. split; [exact Hdup|]. exact Hev.
Defined.

End IngestRouteProps.

(* ===================================================================== *)
(** * Properties of the plugin's queues *)
(* ===================================================================== *)

Module EventsRoutesProps.
Import Auth Queues EventsRoutes.

Section Plugin.
Context `{Ingest.CoreLib} {DB : Type} `{Ingest.EventsRepository DB}.
Context {E : Type} `{Backfill.JsonEvents E} {DB' : Type} `{Backfill.BackfillRepository DB'}.

(** X21. In the test environment without USE_REDIS_IN_TEST the plugin's
    queues are the stub, whether there is a Redis connection or not, and
    handing a backfill job or aggregation jobs over never fails. Otherwise,
    without a Redis
    connection there is no queue: an ingestion is still replied to and a
    backfill still answered 200, but no job is handed over by either; with a
    connection, queues are made under the names "aggregation" and "backfill"
    with three attempts and an exponential backoff from 2000 ms. *)
Theorem without_redis_nothing_is_queued env USE_REDIS_IN_TEST redisConn maxSize redisAdd
    redisAddBulk now :
  let plugin :=
    eventsRoutes env USE_REDIS_IN_TEST redisConn maxSize redisAdd redisAddBulk now in
  (NODE_ENV_test env = true -> truthy USE_REDIS_IN_TEST = false ->
     Ingest.aggregationQueue (ingestServer plugin) = true /\
     Backfill.backfillQueue (backfillServer plugin) = Some StubQueue /\
     (forall job, Backfill.addResolves (backfillServer plugin) job = true) /\
     forall jobs, Ingest.addBulk (ingestServer plugin) jobs = true) /\
  ((NODE_ENV_test env = false \/ truthy USE_REDIS_IN_TEST = true) ->
     (redisConn = false ->
        Ingest.aggregationQueue (ingestServer plugin) = false /\
        Backfill.backfillQueue (backfillServer plugin) = None /\
        (forall job, Backfill.addResolves (backfillServer plugin) job = true) /\
        (forall request eventBatch body (st st' : Ingest.State DB),
           Ingest.ingest (ingestServer plugin) request eventBatch st = (Ingest.Send body, st') ->
           Ingest.queued st' = Ingest.queued st) /\
        (forall (request : Backfill.BackfillRequest E) id (st st' : Backfill.State DB'),
           Backfill.postBackfill (backfillServer plugin) request st
             = (Backfill.Pending id, st') ->
           Backfill.queued st' = Backfill.queued st)) /\
     (redisConn = true ->
        Ingest.aggregationQueue (ingestServer plugin) = true /\
        exists options,
          createQueue env USE_REDIS_IN_TEST redisConn "aggregation"
            = Some (RedisQueue "aggregation" options) /\
          Backfill.backfillQueue (backfillServer plugin)
            = Some (RedisQueue "backfill" options) /\
          d_attempts options = 3 /\ d_backoffType options = "exponential" /\
          d_backoffDelay options = 2000)).
Proof.
  cbn zeta. unfold eventsRoutes, createQueue, Backfill.addResolves.
  cbn [ingestServer backfillServer Ingest.aggregationQueue Backfill.backfillQueue]. split.
  - intros -> ->. done.
  - intros Hmode.
    assert (NODE_ENV_test env && negb (truthy USE_REDIS_IN_TEST) = false) as ->.
    { destruct Hmode as [-> | ->]; [done|]. apply andb_false_r. }
    split.
    + intros ->. cbn [negb]. split; [done|]. split; [done|]. split; [done|]. split.
      * intros request eventBatch body st st' Hrun.
        apply IngestFacts.ingest_sent in Hrun
          as (auth & loop & inserted & duplicates & st1 & _ & _ & Hp & _ & ->).
        rewrite IngestFacts.enqueue_queued. cbn [Ingest.aggregationQueue].
        rewrite app_nil_r. by eapply IngestFacts.persist_queued.
      * intros request id st st' Hrun.
        apply BackfillProps.postBackfill_pending in Hrun
          as (auth0 & data & sourceType & sourceData & operation & st1 &
              _ & _ & _ & _ & _ & Hc & _ & ->).
        apply BackfillProps.createOperation_store in Hc as (Hq & _).
        unfold Backfill.enqueue. cbn [Backfill.backfillQueue]. done.
    + intros ->. cbn [negb]. split; [done|]. eexists. repeat split.
Qed.

End Plugin.

End EventsRoutesProps.

(* ===================================================================== *)
(** * More properties of the billing driver *)
(* ===================================================================== *)

Module DriverMore.
Import JsDate JsDateFacts JsString Driver DriverFacts.

(** A request that reads the usage of [item] on [client]: a [retrieve],
    or a list request of limit 100, with the account header [hdr]. *)
Definition isRead (client : Stripe) (item : string) (hdr : option string)
    (e : Stripe * Call * Outcome) : Prop :=
  e.1.1 = client /\
  match e.1.2 with
  | Retrieve i a => i = item /\ a = hdr
  | ListUsageRecordSummaries i limit _ a => i = item /\ limit = 100 /\ a = hdr
  | _ => False
  end.

Definition isList (e : Stripe * Call * Outcome) : bool :=
  match e.1.2 with ListUsageRecordSummaries _ _ _ _ => true | _ => false end.

(** The list requests in a trace. *)
Definition listsIn (tr : list (Stripe * Call * Outcome)) : nat :=
  length (List.filter isList tr).

Arguments listsIn : simpl never.
#[local] Arguments attemptsIn : simpl never.

Lemma listsIn_cons e tr :
  listsIn (e :: tr) = ((if isList e then 1 else 0) + listsIn tr)%nat.
Proof. unfold listsIn. cbn. by destruct (isList e). Qed.

Lemma listsIn_app tr1 tr2 : listsIn (tr1 ++ tr2) = (listsIn tr1 + listsIn tr2)%nat.
Proof. unfold listsIn. by rewrite List.filter_app, length_app. Qed.

Lemma pageCalls_reads client item hdr sa pages :
  Forall (isRead client item hdr) (pageCalls client item hdr sa pages) /\
  listsIn (pageCalls client item hdr sa pages) = length pages.
Proof.
  revert sa. induction pages as [|p ps IH]; intros sa; [by split|].
  destruct (IH (cursorAfter p)) as [Hr Hl]. cbn [pageCalls]. split.
  - constructor; [|done]. by repeat split.
  - rewrite listsIn_cons. cbn [length]. by rewrite Hl.
Qed.

(** The pages of a run of the page loop: each one but the last said
    [has_more], and the last one did not unless the loop ran out of turns. *)
Definition chained (n : nat) (pages : list ApiList) : Prop :=
  (forall i p, pages !! i = Some p -> (S i < length pages)%nat -> has_more p = true) /\
  (forall p, last pages = Some p -> has_more p = false \/ length pages = n).

Section WithProvider.
Context {W : Type} `{StripeApi W}.

Lemma listPages_chain n client item hdr sa acc (s s' : St W) total :
  listPages n client item hdr sa acc s = (inr total, s') ->
  exists pages,
    (length pages <= n)%nat /\ (n <> 0%nat -> pages <> []) /\
    calls s' = calls s ++ pageCalls client item hdr sa pages /\
    total = acc + sumPages pages /\ chained n pages.
Proof.
  revert sa acc s. induction n as [|n IH]; intros sa acc s Hrun.
  - cbn in Hrun. injection Hrun as <- <-. exists []. cbn [length pageCalls].
    rewrite app_nil_r. split; [lia|]. split; [done|]. split; [done|].
    split; [unfold sumPages; cbn; lia|]. split; [by intros i p Hp|by intros p Hp].
  - cbn [listPages] in Hrun.
    unfold mbind, M_bind, bind, subscriptionItems_listUsageRecordSummaries, request in Hrun.
    destruct (api_listUsageRecordSummaries _ _ _ _ _ _) as [[e|resp] w']; [done|].
    destruct (has_more resp) eqn:Hmore.
    + apply IH in Hrun as (pages & Hlen & Hne & Hcalls & Htot & Hch1 & Hch2). cbn in *.
      exists (resp :: pages). cbn [length pageCalls]. rewrite Hcalls, <- app_assoc.
      split; [lia|]. split; [done|]. split; [done|].
      split; [unfold sumPages in *; cbn; lia|]. split.
      * intros [|i] p Hp Hi; cbn in Hp.
        -- by injection Hp as <-.
        -- apply (Hch1 i p Hp). cbn [length] in Hi. lia.
      * intros p Hp. destruct pages as [|q pages'].
        -- destruct n; [by right|]. by destruct Hne.
        -- change (last (resp :: q :: pages')) with (last (q :: pages')) in Hp.
           destruct (Hch2 p Hp) as [?|Hl]; [by left|right; cbn in *; lia].
    + injection Hrun as <- <-. exists [resp]. cbn [length pageCalls].
      split; [lia|]. split; [done|]. split; [done|].
      split; [unfold sumPages; cbn; lia|]. split.
      * intros [|i] p Hp Hi; cbn in *; [lia|done].
      * intros p [= <-]. by left.
Qed.

(** What an attempt requests, whatever comes of it. *)
Lemma summaryAttempt_reads client item ps acct (s : St W) :
  exists new,
    calls (summaryAttempt client item ps acct s).2 = calls s ++ new /\
    Forall (isRead client item (accountHeader acct)) new /\
    (listsIn new <= 5)%nat /\ attemptsIn new = 1%nat.
Proof.
  unfold summaryAttempt, mbind, M_bind, bind, subscriptionItems_retrieve, request.
  destruct (api_retrieve _ _ _ _) as [[e0|it] w'].
  - cbn. eexists [_]. split; [done|]. split; [|split; [rewrite listsIn_cons; cbn; change (listsIn []) with 0%nat; lia|done]].
    constructor; [|done]. by repeat split.
  - destruct (listPages _ _ _ _ _ _ _) as [[e1|total] s1] eqn:Hl.
    + apply listPages_fail in Hl as (pages & e' & sa' & Hlen & -> & Hcalls & Hsl).
      cbn in *. eexists (_ :: _ ++ [_]). rewrite Hcalls, <- app_assoc. cbn.
      split; [done|]. destruct (pageCalls_reads client item (accountHeader acct) None pages)
        as [Hr Hn]. split; [|split].
      * constructor; [by repeat split|]. apply Forall_app. split; [done|].
        constructor; [|done]. by repeat split.
      * rewrite listsIn_cons, listsIn_app, listsIn_cons, Hn. cbn.
        change (listsIn []) with 0%nat. lia.
      * by rewrite attemptsIn_cons, attemptsIn_app, pageCalls_attempts.
    + apply listPages_ok in Hl as (pages & Hlen & Hne & Hcalls & -> & Hsl).
      cbn in *. eexists (_ :: _). rewrite Hcalls, <- app_assoc. cbn.
      split; [done|]. destruct (pageCalls_reads client item (accountHeader acct) None pages)
        as [Hr Hn]. split; [|split].
      * constructor; [by repeat split|done].
      * rewrite listsIn_cons, Hn. cbn. lia.
      * by rewrite attemptsIn_cons, pageCalls_attempts.
Qed.

Lemma retryLoop_reads fuel client item ps acct a (s s' : St W) res :
  retryLoop fuel client item ps acct a s = Some (res, s') ->
  exists new,
    calls s' = calls s ++ new /\
    Forall (isRead client item (accountHeader acct)) new /\
    (listsIn new <= 5 * attemptsIn new)%nat.
Proof.
  revert a s. induction fuel as [|fuel IH]; intros a s Hrun; [done|].
  rewrite retryLoop_step in Hrun.
  destruct (summaryAttempt_reads client item ps acct s) as (new & Hcalls & Hr & Hl & Ha).
  destruct (summaryAttempt client item ps acct s) as [[e|r] s1] eqn:Hatt; cbn [snd] in Hcalls.
  - destruct (retryable (errorStatus e) && (a <? maxRetries)).
    + apply IH in Hrun as (new' & Hcalls' & Hr' & Hl'). cbn in Hcalls'.
      exists (new ++ new'). rewrite Hcalls', Hcalls, <- app_assoc.
      split; [done|]. split; [by apply Forall_app|].
      rewrite listsIn_app, attemptsIn_app. lia.
    + injection Hrun as <- <-. exists new. split; [done|]. split; [done|]. lia.
  - injection Hrun as <- <-. exists new. split; [done|]. split; [done|]. lia.
Qed.

(** X1. [getUsageSummary] only reads: every request it makes is, on
    the live client, a [retrieve] of the subscription item or a list request
    of limit 100 for it, with the connected-account header left out for the
    account "default" and set to the account otherwise; it makes at most four
    attempts, at most five list requests per attempt, and sleeps at most
    1750 ms in all. *)
Theorem getUsageSummary_reads_only fuel this item ps acct (s : St W) :
  (4 <= fuel)%nat ->
  exists res s' new slept,
    getUsageSummary fuel this item ps acct s = Some (res, s') /\
    calls s' = calls s ++ new /\ sleeps s' = sleeps s ++ slept /\
    Forall (isRead (stripeLive this) item
              (if String.eqb acct "default" then None else Some acct)) new /\
    (1 <= attemptsIn new <= 4)%nat /\ (listsIn new <= 5 * attemptsIn new)%nat /\
    0 <= foldr Z.add 0 slept <= 1750.
Proof.
  intros Hfuel. unfold getUsageSummary.
  destruct (retryLoop_run fuel (stripeLive this) item ps acct 0 s)
    as (res & s' & k & new & Hrun & Hk & Hsl & Hcalls & _ & Hn & _);
    [done|by change (Z.to_nat (maxRetries + 1 - 0)) with 4%nat|].
  unfold maxRetries in Hk.
  destruct (retryLoop_reads _ _ _ _ _ _ _ _ _ Hrun) as (new' & Hcalls' & Hr & Hl).
  assert (new' = new) as -> by (rewrite Hcalls' in Hcalls; by apply (inj (app _)) in Hcalls).
  exists res, s', new, (delaysFrom 0 k).
  split; [done|]. split; [done|]. split; [done|]. split; [done|].
  split; [lia|]. split; [done|].
  destruct k as [|[|[|[|k]]]]; cbn; unfold delayMs; cbn; lia.
Qed.

Lemma summaryAttempt_chain client item ps acct (s s' : St W) r :
  summaryAttempt client item ps acct s = (inr r, s') ->
  exists it pages,
    (1 <= length pages <= 5)%nat /\
    calls s' = calls s ++ (client, Retrieve item (accountHeader acct), GotItem it)
                 :: pageCalls client item (accountHeader acct) None pages /\
    totalUsage r = sumPages pages /\ chained 5 pages.
Proof.
  unfold summaryAttempt, mbind, M_bind, bind, subscriptionItems_retrieve, request.
  destruct (api_retrieve _ _ _ _) as [[e|it] w']; [done|].
  destruct (listPages _ _ _ _ _ _ _) as [[e|total] s1] eqn:Hl; [done|].
  intros [= <- <-]. apply listPages_chain in Hl as (pages & Hlen & Hne & Hcalls & -> & Hch).
  cbn in *. exists it, pages. rewrite Hcalls, <- app_assoc. cbn.
  split; [destruct pages; [by destruct Hne|cbn in *; lia]|].
  split; [done|]. split; [lia|done].
Qed.

Lemma retryLoop_chain fuel client item ps acct a (s s' : St W) r :
  retryLoop fuel client item ps acct a s = Some (inr r, s') ->
  exists earlier it pages,
    calls s' = calls s ++ earlier
                 ++ (client, Retrieve item (accountHeader acct), GotItem it)
                 :: pageCalls client item (accountHeader acct) None pages /\
    (1 <= length pages <= 5)%nat /\
    totalUsage r = sumPages pages /\ chained 5 pages.
Proof.
  revert a s. induction fuel as [|fuel IH]; intros a s Hrun; [done|].
  rewrite retryLoop_step in Hrun.
  destruct (summaryAttempt client item ps acct s) as [[e|r0] s1] eqn:Hatt.
  - destruct (retryable (errorStatus e) && (a <? maxRetries)); [|done].
    apply IH in Hrun as (earlier & it & pages & Hcalls & Hlen & Hr & Hch).
    apply summaryAttempt_fail in Hatt as (new & e' & -> & Hcalls1 & _ & _ & _).
    exists (new ++ earlier), it, pages. cbn in Hcalls.
    rewrite Hcalls, Hcalls1, <- !app_assoc. done.
  - injection Hrun as -> ->.
    apply summaryAttempt_chain in Hatt as (it & pages & Hlen & Hcalls & Hr & Hch).
    exists [], it, pages. done.
Qed.

(** X2. The pages behind a summary [getUsageSummary] returns: every
    page but the last one said [has_more], and the last one either did not,
    or is the fifth; in that case the provider had more summaries, and the
    total returned is that of the first five pages only. *)
Theorem getUsageSummary_page_limit fuel this item ps acct (s s' : St W) r :
  getUsageSummary fuel this item ps acct s = Some (inr r, s') ->
  exists earlier it pages,
    calls s' = calls s ++ earlier
                 ++ (stripeLive this, Retrieve item (accountHeader acct), GotItem it)
                 :: pageCalls (stripeLive this) item (accountHeader acct) None pages /\
    (1 <= length pages <= 5)%nat /\
    totalUsage r = foldr Z.add 0 (usageOf <$> concat (data <$> pages)) /\
    (forall i p, pages !! i = Some p -> (S i < length pages)%nat -> has_more p = true) /\
    (forall p, last pages = Some p -> has_more p = true -> length pages = 5%nat).
Proof.
  unfold getUsageSummary. intros Hrun.
  apply retryLoop_chain in Hrun as (earlier & it & pages & Hcalls & Hlen & Hr & Hch1 & Hch2).
  exists earlier, it, pages. rewrite <- sumPages_sum.
  split; [done|]. split; [done|]. split; [done|]. split; [done|].
  intros p Hp Hmore. destruct (Hch2 p Hp) as [Hno|?]; [congruence|done].
Qed.

(** X3. The keys of the driver: a key given to the constructor is
    used as it is, also an empty one, and the environment is read only for a
    key that is not given. So an empty test key given explicitly leaves the
    driver without test client whatever STRIPE_TEST_SECRET_KEY holds, and
    every operation in mode "test" fails with the configuration error
    without a request; the live client is always there, with an empty key
    when none is found. *)
Theorem explicit_key_precedence opts env p cp (s : St W) :
  let this := constructor opts env in
  (forall k, opts ≫= liveKey = Some k -> stripeLive this = {| apiKey := k |}) /\
  (opts ≫= liveKey = None ->
     stripeLive this = {| apiKey := default "" (STRIPE_SECRET_KEY env) |}) /\
  (forall k, opts ≫= testKey = Some k ->
     stripeTest this = if String.eqb k "" then None else Some {| apiKey := k |}) /\
  (opts ≫= testKey = None ->
     stripeTest this =
       match STRIPE_TEST_SECRET_KEY env with
       | Some k => if String.eqb k "" then None else Some {| apiKey := k |}
       | None => None
       end) /\
  (opts ≫= testKey = Some "" ->
     (mode p = test -> recordUsage this p s = (inl (ConfigError configMsg), s)) /\
     createTestClock this cp s = (inl (ConfigError configMsg), s) /\
     (mode p = live ->
        exists o, calls (recordUsage this p s).2 =
          calls s ++ [(stripeLive this, CreateUsageRecord (subscriptionItemId p)
                                          (usagePayload p) (usageOptions p), o)])).
Proof.
  cbn zeta. unfold constructor, nullish.
  split; [by intros k ->|]. split; [by intros ->|].
  split; [intros k ->; cbn; unfold truthy; by destruct (String.eqb k "")|].
  split.
  { intros ->. cbn. destruct (STRIPE_TEST_SECRET_KEY env) as [k|]; cbn; [|done].
    unfold truthy. by destruct (String.eqb k ""). }
  intros Hk. rewrite Hk. cbn [default truthy String.eqb negb].
  change (truthy (id "")) with false. cbn iota.
  split; [|split].
  - intros Hm. by rewrite recordUsage_unfold, Hm.
  - reflexivity.
  - intros Hm.
    destruct (recordUsage_calls
                {| stripeLive := {| apiKey := default (default "" (STRIPE_SECRET_KEY env))
                                                (opts ≫= liveKey) |};
                   stripeTest := None |} p
                {| apiKey := default (default "" (STRIPE_SECRET_KEY env)) (opts ≫= liveKey) |}
                s) as (o & Hc & _); [by rewrite Hm|].
    by exists o.
Qed.

(** X4. [recordUsage] does not check the period start: when the string
    has the shape YYYY-MM-DD but its month is not 1 to 12 or its day not 1 to
    31, the request is made all the same, with no timestamp (NaN); and a day
    of 29 to 31 that the month does not have is counted on into the next
    month, so that the record gets the timestamp of that later date. *)
Theorem recordUsage_period_not_validated this p client (s : St W) y m d :
  selectedClient this (mode p) = Some client ->
  parseDateOnly (periodStart p) = Some (y, m, d) ->
  let sent ts := {| urc_quantity := Math_round (quantity p); urc_timestamp := ts;
                    urc_action := "set" |} in
  let made ts :=
    exists o, calls (recordUsage this p s).2 =
      calls s ++ [(client, CreateUsageRecord (subscriptionItemId p) (sent ts)
                             (usageOptions p), o)] in
  ((m < 1 \/ 12 < m \/ d < 1 \/ 31 < d) -> made None) /\
  (1 <= m <= 11 -> DaysInMonth y (m - 1) < d <= 31 ->
     made (Some (86400 * MakeDay y m (d - DaysInMonth y (m - 1)))) /\
     forall s', parseDateOnly s' = Some (y, m + 1, d - DaysInMonth y (m - 1)) ->
       Date_getTime s' = Date_getTime (periodStart p)).
Proof.
  intros Hc Hp sent made.
  destruct (recordUsage_calls this p client s Hc) as (o & Hcalls & _).
  assert (Hmade : forall ts, urc_timestamp (usagePayload p) = ts -> made ts).
  { intros ts Hts. exists o. rewrite Hcalls. do 4 f_equal.
    unfold usagePayload in *. cbn in Hts. by rewrite Hts. }
  split.
  - intros Hbad. apply Hmade. unfold usagePayload, Date_getTime. cbn. rewrite Hp. cbn.
    destruct (Z.leb_spec 1 m), (Z.leb_spec m 12), (Z.leb_spec 1 d), (Z.leb_spec d 31);
      cbn; try done; lia.
  - intros Hm Hd.
    assert (Hlo : 1 <= DaysInMonth y (m - 1)).
    { unfold DaysInMonth.
      assert (m = 1 \/ m = 2 \/ m = 3 \/ m = 4 \/ m = 5 \/ m = 6 \/ m = 7 \/ m = 8 \/
              m = 9 \/ m = 10 \/ m = 11) as Hcases by lia.
      destruct (isLeap y);
        repeat (destruct Hcases as [->|Hcases]); try subst m; vm_compute; discriminate. }
    assert (Hroll : MakeDay y (m - 1) d = MakeDay y m (d - DaysInMonth y (m - 1))).
    { unfold MakeDay, DaysInMonth. cbn zeta.
      replace ((m - 1) / 12) with 0 by (Z.div_mod_to_equations; lia).
      replace ((m - 1) mod 12) with (m - 1) by (Z.div_mod_to_equations; lia).
      replace (m / 12) with 0 by (Z.div_mod_to_equations; lia).
      replace (m mod 12) with m by (Z.div_mod_to_equations; lia).
      replace (m - 1 + 1) with m by lia. rewrite Z.add_0_r. lia. }
    assert (Hget : Date_getTime (periodStart p) = Some (MakeDate (MakeDay y (m - 1) d) 0)).
    { unfold Date_getTime. rewrite Hp. cbn.
      destruct (Z.leb_spec 1 m), (Z.leb_spec m 12), (Z.leb_spec 1 d), (Z.leb_spec d 31);
        cbn; try done; lia. }
    split.
    + apply Hmade. unfold usagePayload. cbn. rewrite Hget. cbn. do 2 f_equal.
      rewrite <- Hroll. unfold MakeDate, msPerDay. Z.div_mod_to_equations. lia.
    + intros s' Hs'. rewrite Hget. unfold Date_getTime. rewrite Hs'. cbn.
      pose proof (DaysInMonth_le_31 y (m - 1)).
      destruct (Z.leb_spec 1 (m + 1)), (Z.leb_spec (m + 1) 12),
        (Z.leb_spec 1 (d - DaysInMonth y (m - 1))),
        (Z.leb_spec (d - DaysInMonth y (m - 1)) 31); cbn; try lia.
      replace (m + 1 - 1) with m by lia. by rewrite Hroll.
Qed.

End WithProvider.

(** ** Runs of the driver *)

Definition fullPage (i : string) : ApiList :=
  {| data := [ {| urs_id := i; total_usage := Some 10 |} ]; has_more := true |}.

(** A provider that has more than five pages. *)
Definition sixPages : Script :=
  [GotItem {| si_id := "si_123" |}; GotList (fullPage "a"); GotList (fullPage "b");
   GotList (fullPage "c"); GotList (fullPage "d"); GotList (fullPage "e");
   GotList (fullPage "f")].

(** An empty test key given to the constructor, the environment holding
    one: there is no test client. *)
Example empty_test_key_given :
  stripeTest (constructor (Some {| liveKey := None; testKey := Some "" |})
                {| STRIPE_SECRET_KEY := Some "sk_live_1";
                   STRIPE_TEST_SECRET_KEY := Some "sk_test_1" |}) = None /\
  stripeTest (constructor (Some {| liveKey := None; testKey := None |})
                {| STRIPE_SECRET_KEY := Some "sk_live_1";
                   STRIPE_TEST_SECRET_KEY := Some "sk_test_1" |})
    = Some {| apiKey := "sk_test_1" |}.
Proof. split; reflexivity. Qed.

Lemma getUsageSummary_reads_only_witness :
  (4 <= 4)%nat /\
  exists res s' new slept,
    getUsageSummary 4 DriverProps.demoDriver "si_123" "2025-01-01" "acct_1"
      (DriverProps.start DriverProps.twice429) = Some (res, s') /\
    calls s' = new /\ sleeps s' = slept /\
    Forall (isRead {| apiKey := "sk_live_1" |} "si_123" (Some "acct_1")) new /\
    (listsIn new <= 5 * attemptsIn new)%nat.
Proof.
  split; [lia|].
  destruct (getUsageSummary_reads_only 4 DriverProps.demoDriver "si_123" "2025-01-01" "acct_1"
              (DriverProps.start DriverProps.twice429) (le_n 4))
    as (res & s' & new & slept & Hrun & Hcalls & Hsl & Hr & _ & Hl & _).
  exists res, s', new, slept. split; [exact Hrun|]. split; [exact Hcalls|].
  split; [exact Hsl|]. split; [exact Hr|exact Hl].
Defined.

Lemma getUsageSummary_page_limit_witness :
  match getUsageSummary 4 DriverProps.demoDriver "si_123" "2025-01-01" "default"
          (DriverProps.start sixPages) with
  | Some (inr r, s') =>
      totalUsage r = 50 /\ world s' = [GotList (fullPage "f")] /\
      listsIn (calls s') = 5%nat /\
      exists pages,
        (1 <= length pages <= 5)%nat /\
        totalUsage r = foldr Z.add 0 (usageOf <$> concat (data <$> pages)) /\
        forall p, last pages = Some p -> has_more p = true -> length pages = 5%nat
  | _ => False
  end.
Proof.
  destruct (getUsageSummary 4 DriverProps.demoDriver "si_123" "2025-01-01" "default"
              (DriverProps.start sixPages)) as [[[e|r] s']|] eqn:Hrun;
    [vm_compute in Hrun; discriminate Hrun| |vm_compute in Hrun; discriminate Hrun].
  destruct (getUsageSummary_page_limit 4 DriverProps.demoDriver "si_123" "2025-01-01" "default"
              (DriverProps.start sixPages) s' r Hrun)
    as (earlier & it & pages & Hcalls & Hlen & Htot & Hch & Hlast).
  split; [|split; [|split]].
  - vm_compute in Hrun. by injection Hrun as <- <-.
  - vm_compute in Hrun. by injection Hrun as <- <-.
  - vm_compute in Hrun. by injection Hrun as <- <-.
  - exists pages. split; [exact Hlen|]. split; [exact Htot|exact Hlast].
Defined.

Lemma recordUsage_period_not_validated_witness :
  selectedClient DriverProps.demoDriver live = Some {| apiKey := "sk_live_1" |} /\
  parseDateOnly "2025-02-30" = Some (2025, 2, 30) /\
  DaysInMonth 2025 1 < 30 <= 31 /\
  Date_getTime "2025-03-02" = Date_getTime "2025-02-30".
Proof.
  split; [reflexivity|]. split; [reflexivity|].
  assert (Hd : DaysInMonth 2025 (2 - 1) < 30 <= 31) by (vm_compute; split; [reflexivity|discriminate]).
  split; [exact Hd|].
  refine (proj2 (proj2 (recordUsage_period_not_validated (W := Script) DriverProps.demoDriver
            {| mode := live; stripeAccount := "default"; subscriptionItemId := "si_123";
               quantity := 1%Q; periodStart := "2025-02-30"; idempotencyKey := "k" |}
            {| apiKey := "sk_live_1" |} (DriverProps.start []) 2025 2 30 eq_refl eq_refl)
            _ Hd) "2025-03-02" eq_refl).
  lia.
Defined.

End DriverMore.

(* ===================================================================== *)
(** * Properties of the price mapping route *)
(* ===================================================================== *)

Module MappingsProps.
Import Auth Mappings.

Section Route.
Context {DB : Type} `{MappingsTable DB}.
Context (env : ProcessEnv).

(** X22. The tenant of a price mapping is the authenticated one: the
    tenant id of the body of POST /v1/mappings is checked and then put aside,
    so that two bodies that pass the check and differ in the tenant id only
    are treated alike, and the row handed to the table carries the tenant id
    of the request. With no bypass, a body naming another tenant is answered
    403 and nothing is inserted. Under BYPASS_AUTH every body passes, the
    tenant id stored is the all-zero one, and a failing insert is answered
    201 with that body all the same. *)
Theorem mapping_tenant_forced request body (d : DB) :
  (forall t,
     requireTenantMatch env request (Some (pm_tenantId body)) = Allowed ->
     requireTenantMatch env request (Some t) = Allowed ->
     postMapping env request (withTenant t body) d = postMapping env request body d) /\
  (forall status row d',
     postMapping env request body d = (Created status row, d') ->
     status = 201 /\
     exists tenantId,
       getTenantId env request = Some tenantId /\
       (insertReturning (withTenant tenantId body) d = (Some row, d') \/
        BYPASS_AUTH env = true /\ row = withTenant tenantId body /\
        insertReturning (withTenant tenantId body) d = (None, d'))) /\
  (BYPASS_AUTH env = false -> testBypass env = false ->
   forall org, organisationId request = Some org -> org <> "" ->
     pm_tenantId body <> "" -> pm_tenantId body <> org ->
     postMapping env request body d = (Refused 403, d)) /\
  (BYPASS_AUTH env = true ->
   exists row d', postMapping env request body d = (Created 201 row, d') /\
     (insertReturning (withTenant zeroTenant body) d = (Some row, d') \/
      row = withTenant zeroTenant body)).
Proof.
  split; [|split; [|split]].
  - intros t Hm Ht. unfold postMapping. cbn [withTenant pm_tenantId]. by rewrite Hm, Ht.
  - intros status row d'. unfold postMapping.
    destruct (requireTenantMatch _ _ _); [|done].
    destruct (getTenantId env request) as [tenantId|]; [|done].
    destruct (insertReturning _ d) as [[r|] d1] eqn:Hins.
    + intros [= <- <- <-]. split; [done|]. exists tenantId. split; [done|]. by left.
    + destruct (BYPASS_AUTH env); [|done]. intros [= <- <- <-]. split; [done|].
      exists tenantId. split; [done|]. by right.
  - intros Hb Ht org Horg Hne Hbody Hdiff.
    unfold postMapping, requireTenantMatch. rewrite Hb, Ht, Horg. cbn [orb truthy].
    apply String.eqb_neq in Hne, Hbody. rewrite Hne, Hbody. cbn [negb].
    rewrite bool_decide_eq_false_2; [done|congruence].
  - intros Hb. unfold postMapping, requireTenantMatch, getTenantId. rewrite Hb. cbn [orb].
    destruct (insertReturning _ d) as [[r|] d1] eqn:Hins; eexists _, _; split; eauto.
Qed.

End Route.

End MappingsProps.
